(** * OpenFActScore: the verification-and-scoring pipeline of [factscore/factscorer.py]

    A shallow embedding of [FactScorer.get_score] and [FactScorer._get_score]
    and of the Python string operations they use, followed by the properties
    of answer resolution, of the cross-checker veto, of the length penalty,
    of the corpus report and of the cache-flush schedule.

    Conventions of the embedding:
    - a Python [str] is a [string] whose characters are the code points below
      256 (Latin-1); [lower], [split], [strip] and [string.punctuation] are
      modelled exactly on that range;
    - a numpy float is a real number or NaN ([npfloat]); rounding, overflow
      and underflow of binary64 arithmetic are not modelled;
    - the language model, the retriever, the cross-checker, the abstain
      detector and the atomic fact generator are objects whose methods are
      record fields; calls to them are recorded in a trace of events;
    - a Python exception is a value of [exn];
    - [gamma] is an integer, as the command line declares it;
    - logging, progress bars and the printing of the cost estimates have no
      effect on the values returned and are left out. *)

From Stdlib Require Import String Ascii List Bool Arith NArith ZArith QArith.
From Stdlib Require Import Reals Lra Lia.
Import ListNotations.

Local Open Scope list_scope.
Local Open Scope string_scope.

(* ================================================================== *)
(** ** Python [str] operations *)

Module PyStr.

(** [chr n] *)
Definition chr (n : N) : ascii := ascii_of_N n.

(** ["\n"] *)
Definition nl : string := String (chr 10) EmptyString.

(** [c.lower()] on the code points below 256: A-Z and the Latin-1 capitals
    (U+00C0..U+00DE without the multiplication sign U+00D7) move up by 32. *)
Definition lower_char (c : ascii) : ascii :=
  let n := N_of_ascii c in
  if ((65 <=? n) && (n <=? 90))%N
     || ((192 <=? n) && (n <=? 222) && negb (n =? 215))%N
  then chr (n + 32) else c.

(** [s.lower()] *)
Fixpoint lower (s : string) : string :=
  match s with
  | EmptyString => EmptyString
  | String c s' => String (lower_char c) (lower s')
  end.

(** [s.find(sub)]: the position of the first occurrence, if any. *)
Definition find (sub s : string) : option nat := String.index 0 sub s.

(** [sub in s] *)
Definition contains (sub s : string) : bool :=
  match find sub s with Some _ => true | None => false end.

(** [c.isspace()] on the code points below 256: tab to carriage return, the
    separators U+001C..U+001F, space, U+0085 and U+00A0. *)
Definition isspace (c : ascii) : bool :=
  let n := N_of_ascii c in
  (((9 <=? n) && (n <=? 13)) || ((28 <=? n) && (n <=? 32))
   || (n =? 133) || (n =? 160))%N.

(** [c in string.punctuation]: the 32 ASCII punctuation characters. *)
Definition in_punctuation (c : ascii) : bool :=
  let n := N_of_ascii c in
  (((33 <=? n) && (n <=? 47)) || ((58 <=? n) && (n <=? 64))
   || ((91 <=? n) && (n <=? 96)) || ((123 <=? n) && (n <=? 126)))%N.

(** [s.translate(str.maketrans("", "", string.punctuation))]: every
    punctuation character is deleted. *)
Fixpoint strip_punctuation (s : string) : string :=
  match s with
  | EmptyString => EmptyString
  | String c s' =>
      if in_punctuation c then strip_punctuation s'
      else String c (strip_punctuation s')
  end.

Definition cons_word (w : string) (ws : list string) : list string :=
  match w with EmptyString => ws | _ => w :: ws end.

(** The word being read at the head of [s] and the words after it. *)
Fixpoint split_aux (s : string) : string * list string :=
  match s with
  | EmptyString => (EmptyString, [])
  | String c s' =>
      let (w, ws) := split_aux s' in
      if isspace c then (EmptyString, cons_word w ws) else (String c w, ws)
  end.

(** [s.split()]: the maximal runs of non-whitespace characters. *)
Definition split (s : string) : list string :=
  let (w, ws) := split_aux s in cons_word w ws.

(** [s.lstrip()] *)
Fixpoint lstrip (s : string) : string :=
  match s with
  | EmptyString => EmptyString
  | String c s' => if isspace c then lstrip s' else s
  end.

(** [s.rstrip()] *)
Fixpoint rstrip (s : string) : string :=
  match s with
  | EmptyString => EmptyString
  | String c s' =>
      match rstrip s' with
      | EmptyString => if isspace c then EmptyString else String c EmptyString
      | r => String c r
      end
  end.

(** [s.strip()] *)
Definition strip (s : string) : string := rstrip (lstrip s).

(** [s.replace(old, "")] for a non-empty [old]: the occurrences of [old] are
    deleted from left to right without overlap; [skip] counts the characters
    of the current occurrence still to drop. *)
Fixpoint remove_from (skip : nat) (old s : string) : string :=
  match s with
  | EmptyString => EmptyString
  | String c s' =>
      match skip with
      | S k => remove_from k old s'
      | O =>
          if String.prefix old s then remove_from (String.length old - 1) old s'
          else String c (remove_from 0 old s')
      end
  end.

Definition remove (old s : string) : string := remove_from 0 old s.

(** [s[-1]] *)
Fixpoint last_char (s : string) : option ascii :=
  match s with
  | EmptyString => None
  | String c EmptyString => Some c
  | String _ s' => last_char s'
  end.

(** [w in ws] for a list of strings. *)
Definition mem (w : string) (ws : list string) : bool :=
  existsb (String.eqb w) ws.

(** [s.replace(old, new)] for a non-empty [old]: the occurrences of [old] are
    replaced from left to right without overlap; [skip] counts the characters
    of the current occurrence still to drop. *)
Fixpoint replace_from (skip : nat) (old new s : string) : string :=
  match s with
  | EmptyString => EmptyString
  | String c s' =>
      match skip with
      | S k => replace_from k old new s'
      | O =>
          if String.prefix old s
          then new ++ replace_from (String.length old - 1) old new s'
          else String c (replace_from 0 old new s')
      end
  end.

Definition replace (old new s : string) : string := replace_from 0 old new s.

(** [s.startswith(p)] *)
Definition startswith (p s : string) : bool := String.prefix p s.

(** The piece being read at the head of [s] and the pieces after it, for
    [s.split(sep)]; [skip] counts the characters of the current separator
    still to drop. *)
Fixpoint split_on_from (skip : nat) (sep s : string) : string * list string :=
  match s with
  | EmptyString => (EmptyString, [])
  | String c s' =>
      match skip with
      | S k => split_on_from k sep s'
      | O =>
          if String.prefix sep s
          then let (p, ps) := split_on_from (String.length sep - 1) sep s' in
               (EmptyString, p :: ps)
          else let (p, ps) := split_on_from 0 sep s' in (String c p, ps)
      end
  end.

(** [s.split(sep)] for a non-empty [sep]: the pieces between the occurrences
    of [sep], taken from left to right without overlap; never empty. *)
Definition split_on (sep s : string) : list string :=
  let (p, ps) := split_on_from 0 sep s in p :: ps.

(** [s[n:]] *)
Fixpoint drop (n : nat) (s : string) : string :=
  match n, s with
  | O, _ => s
  | S _, EmptyString => EmptyString
  | S k, String _ s' => drop k s'
  end.

(** The first piece of [s.rsplit(sep)] and the pieces after it. The
    occurrences of [sep] are taken from right to left without overlap: those
    inside the tail of [s] are the ones taken in the tail alone, and an
    occurrence at the head of [s] is taken when it ends before the leftmost
    one taken in the tail, that is when the first piece of the tail holds the
    other [len(sep) - 1] characters of it. *)
Fixpoint rsplit_on_aux (sep s : string) : string * list string :=
  match s with
  | EmptyString => (EmptyString, [])
  | String c s' =>
      let (p, ps) := rsplit_on_aux sep s' in
      if String.prefix sep s && (String.length sep - 1 <=? String.length p)%nat
      then (EmptyString, drop (String.length sep - 1) p :: ps)
      else (String c p, ps)
  end.

(** [s.rsplit(sep)] for a non-empty [sep]; never empty. *)
Definition rsplit_on (sep s : string) : list string :=
  let (p, ps) := rsplit_on_aux sep s in p :: ps.

(** [sep.join(pieces)] *)
Definition join (sep : string) (pieces : list string) : string :=
  String.concat sep pieces.

End PyStr.

(* ================================================================== *)
(** ** numpy floats *)

Module Np.

(** A numpy float: a real number, or NaN. *)
Inductive npfloat : Type :=
| Fin (r : R)
| NaN.

(** [float(b)] for a Python bool. *)
Definition of_bool (b : bool) : npfloat := Fin (if b then 1%R else 0%R).

(** [float(n)] for a length. *)
Definition of_nat (n : nat) : npfloat := Fin (INR n).

Definition add (a b : npfloat) : npfloat :=
  match a, b with
  | Fin x, Fin y => Fin (x + y)%R
  | _, _ => NaN
  end.

Definition mul (a b : npfloat) : npfloat :=
  match a, b with
  | Fin x, Fin y => Fin (x * y)%R
  | _, _ => NaN
  end.

Definition sum (xs : list npfloat) : npfloat := fold_left add xs (Fin 0%R).

(** [np.mean(xs)]: the sum over the length; NaN for an empty sequence (numpy
    warns and returns nan, it does not raise). *)
Definition mean (xs : list npfloat) : npfloat :=
  match xs with
  | [] => NaN
  | _ :: _ =>
      match sum xs with
      | Fin s => Fin (s / INR (length xs))%R
      | NaN => NaN
      end
  end.

End Np.

(* ================================================================== *)
(** ** Exceptions, traces and the monad of the pipeline *)

Inductive exn : Type :=
| AssertionError
| ZeroDivisionError
| IndexError
| ValueError
| TypeError.

Inductive result (A : Type) : Type :=
| Ok (a : A)
| Raise (e : exn).
Arguments Ok {A} a.
Arguments Raise {A} e.

(** The calls the pipeline makes, in the order it makes them. *)
Inductive event : Type :=
| AfgRunCost (gen : string)              (* af_generator.run(gen, cost_estimate=..) *)
| AfgRun (gen : string)                  (* af_generator.run(gen) *)
| AfgSaveCache                           (* af_generator.save_cache() *)
| AfgUnloadModel                         (* af_generator.lm.unload_model() *)
| GetScoreCall (topic generation : string) (* self._get_score(topic, generation, ..) *)
| GetPassages (ks topic atom : string)   (* retrieval[ks].get_passages(topic, atom, k=5) *)
| LmGenerate (prompt : string)           (* lm.generate(prompt) *)
| NpmGetProbabilty (ks topic atom : string) (* npm[ks].get_probabilty(topic, atom) *)
| SaveCache.                             (* self.save_cache() *)

(** A computation returns a value or raises, and leaves the trace of the
    calls made up to that point. *)
Definition M (A : Type) : Type := (result A * list event)%type.

Definition ret {A : Type} (a : A) : M A := (Ok a, []).

Definition raise {A : Type} (e : exn) : M A := (Raise e, []).

Definition call (ev : event) : M unit := (Ok tt, [ev]).

Definition bind {A B : Type} (m : M A) (k : A -> M B) : M B :=
  match m with
  | (Ok a, tr) => let (r, tr') := k a in (r, (tr ++ tr')%list)
  | (Raise e, tr) => (Raise e, tr)
  end.

Definition assert (b : bool) : M unit :=
  if b then ret tt else raise AssertionError.

Declare Scope pipeline_scope.
Delimit Scope pipeline_scope with pipeline.
Notation "x <- m ;; k" := (bind m (fun x => k))
  (at level 61, m at next level, right associativity) : pipeline_scope.
Notation "m ;;; k" := (bind m (fun _ => k))
  (at level 61, right associativity) : pipeline_scope.
Local Open Scope pipeline_scope.

(* ================================================================== *)
(** ** The objects a [FactScorer] holds *)

Record passage : Type := { title : string; text : string }.

(** [lm.generate(prompt)] returns the generated text and, when the backend
    exposes them, the scores of the first generated token. *)
Record LM : Type := {
  generate : string -> string * option (list Q);
  cache_dict : list string
}.

Record Retrieval : Type := {
  get_passages : string -> string -> nat -> list passage
}.

Record NPM : Type := {
  get_probabilty : string -> string -> Q
}.

Record AtomicFactGenerator : Type := {
  (** [run(gen)]: the sentences of the generation with their atomic facts. *)
  run : string -> list (string * list string);
  (** [run(gen, cost_estimate=..)]: the number of words that would be sent. *)
  run_cost : string -> option string -> Z
}.

(** What [factscorer.py] imports: the constructors of the collaborators and
    the abstain detector. *)
Record World : Type := {
  CLM : string -> LM;
  OpenAIModel : string -> LM;
  Llama3LM : string -> string -> LM;
  mk_Retrieval : string -> Retrieval;
  mk_NPM : string -> NPM;
  mk_AtomicFactGenerator : string -> AtomicFactGenerator;
  is_response_abstained : string -> option string -> bool
}.

Record FactScorer : Type := {
  afg_model : string;
  afv_model : string;
  is_npm : bool;
  is_retrieval : bool;
  model_name : string;
  abstain_detection_type : option string;
  cost_estimate : option string;
  lm : option LM;
  retrieval : string -> Retrieval;
  npm : string -> NPM;
  af_generator : AtomicFactGenerator
}.

Record decision : Type := { atom : string; is_supported : bool }.

Record report : Type := {
  score : Np.npfloat;
  respond_ratio : Np.npfloat;
  decisions : list (option (list decision));
  num_facts_per_response : Np.npfloat;
  init_score : option Np.npfloat
}.

(** [topics] and [generations] are each a [str] or a [list]. *)
Inductive str_or_list : Type :=
| PStr (s : string)
| PList (l : list string).

(* ================================================================== *)
(** ** [FactScorer] *)

Import PyStr.

(** [FactScorer.generate_model_name] *)
Definition generate_model_name (afg afv : string) (npm_flag retrieval_flag : bool)
  : string :=
  let model_name := [afg; afv] in
  let model_name := if npm_flag then (model_name ++ ["npm"])%list else model_name in
  let model_name := if retrieval_flag then "retrieval" :: model_name else model_name in
  String.concat "+" model_name.

(** [FactScorer.__init__]: the verification backend is chosen by the
    substrings of the model name; the registries of [register_knowledge_source]
    are taken as the total maps from a source name to its objects. *)
Definition __init__ (W : World) (afv afg : string) (npm_flag retrieval_flag : bool)
    (cost : option string) (abstain : option string) : FactScorer :=
  let name := generate_model_name afg afv npm_flag retrieval_flag in
  {| afg_model := afg;
     afv_model := afv;
     is_npm := npm_flag;
     is_retrieval := retrieval_flag;
     model_name := name;
     abstain_detection_type := abstain;
     cost_estimate := cost;
     lm := if contains "inst-llama" name then Some (CLM W "inst-llama-7B")
           else if contains "ChatGPT" name then Some (OpenAIModel W "ChatGPT")
           else if contains "Llama-3.1" name
                then Some (Llama3LM W ("meta-llama/" ++ afv) name)
           else None;
     retrieval := mk_Retrieval W;
     npm := mk_NPM W;
     af_generator := mk_AtomicFactGenerator W afg |}.

(** The default arguments of [__init__]. *)
Definition default_scorer (W : World) : FactScorer :=
  __init__ W "Llama-3.1-8B-Instruct" "Llama-3.1-8B-Instruct" true true
           (Some "consider_cache") None.

(** ["npm" in self.model_name] *)
Definition npm_enabled (self : FactScorer) : bool :=
  contains "npm" (model_name self).

(** The truth value of an optional string: [None] and [""] are false. *)
Definition truthy (o : option string) : bool :=
  match o with
  | None => false
  | Some EmptyString => false
  | Some _ => true
  end.

(** *** Prompt construction *)

Definition format_passage (psg : passage) : string :=
  "Title: " ++ title psg ++ nl ++ "Text: "
  ++ remove "</s>" (remove "<s>" (text psg)) ++ nl ++ nl.

(** The prompt of [_get_score] for the stripped [atom]: the passages in
    reverse retrieval order, then the question. *)
Definition build_prompt (topic atom : string) (passages : list passage)
  : M string :=
  let definition :=
    "Answer the question about " ++ topic ++ " based on the given context."
    ++ nl ++ nl in
  let context :=
    fold_left (fun context psg => context ++ format_passage psg)
              (rev passages) EmptyString in
  let definition := definition ++ strip context in
  match last_char definition with
  | None => raise IndexError
  | Some c =>
      let definition :=
        if in_punctuation c then definition else definition ++ "." in
      ret (strip definition ++ nl ++ nl ++ "Input: " ++ strip atom
           ++ " True or False?" ++ nl ++ "Answer:")
  end.

(** *** Answer resolution *)

Definition true_ix : Z := 5852.
Definition false_ix : Z := 7700.

(** [a > b] on the scores. *)
Definition Qgtb (a b : Q) : bool := negb (Qle_bool a b).

(** The branch taken when the scores of the first token are used. *)
Definition resolve_logits (logits : list Q) : M bool :=
  assert ((Z.of_nat (length logits) =? 32000)%Z
          || (Z.of_nat (length logits) =? 32001)%Z) ;;;
  let true_score := nth (Z.to_nat true_ix) logits 0%Q in
  let false_score := nth (Z.to_nat false_ix) logits 0%Q in
  ret (Qgtb true_score false_score).

Definition refusal_keywords : list string :=
  ["not"; "cannot"; "unknown"; "information"].

(** [s.index(sub)] raises [ValueError] when [sub] does not occur. *)
Definition index (sub s : string) : M nat :=
  match find sub s with
  | Some i => ret i
  | None => raise ValueError
  end.

(** The branch taken when the generated text is used. *)
Definition resolve_text (output0 : string) : M bool :=
  let generated_answer := lower output0 in
  if contains "true" generated_answer || contains "false" generated_answer then
    if contains "true" generated_answer
       && negb (contains "false" generated_answer) then ret true
    else if contains "false" generated_answer
            && negb (contains "true" generated_answer) then ret false
    else
      i_true <- index "true" generated_answer ;;
      i_false <- index "false" generated_answer ;;
      ret (i_false <? i_true)%nat
  else
    ret (forallb
           (fun keyword =>
              negb (mem keyword
                      (split (strip_punctuation (lower generated_answer)))))
           refusal_keywords).

(** Answer resolution: the scores are used when [type(output[1])==np.ndarray
    and "Llama-3.1-8B-Instruct" not in self.model_name], the text otherwise. *)
Definition resolve_answer (self : FactScorer)
    (output : string * option (list Q)) : M bool :=
  match snd output with
  | Some logits =>
      if negb (contains "Llama-3.1-8B-Instruct" (model_name self))
      then resolve_logits logits
      else resolve_text (fst output)
  | None => resolve_text (fst output)
  end.

(** *** [FactScorer._get_score] *)

(** [len(prompt.split())] *)
Definition word_count (prompt : string) : Z := Z.of_nat (length (split prompt)).

(** The verification step for the stripped [atom]: [inl words] when the turn
    ends in [continue] (cost estimation) with the new word count, [inr b] with
    the verdict [b] otherwise. *)
Definition verify (self : FactScorer) (topic knowledge_source : string)
    (cost : option string) (total_words : Z) (atom : string) : M (Z + bool) :=
  match lm self with
  | Some model =>
      call (GetPassages knowledge_source topic atom) ;;;
      let passages :=
        get_passages (retrieval self knowledge_source) topic atom 5 in
      prompt <- build_prompt topic atom passages ;;
      if truthy cost then
        if (match cost with Some c => c =? "consider_cache" | None => false end)
           && negb (mem (strip prompt ++ "_0") (cache_dict model))
        then ret (inl (total_words + word_count prompt)%Z)
        else if (match cost with Some c => c =? "ignore_cache" | None => false end)
        then ret (inl (total_words + word_count prompt)%Z)
        else ret (inl total_words)
      else
        call (LmGenerate prompt) ;;;
        let output := generate model prompt in
        is_supported <- resolve_answer self output ;;
        ret (inr is_supported)
  | None => ret (inr true)
  end.

(** The veto of the cross-checker:
    [if is_supported and "npm" in self.model_name: is_supported = npprob > 0.3] *)
Definition cross_check (self : FactScorer) (topic knowledge_source atom : string)
    (is_supported : bool) : M bool :=
  if is_supported && npm_enabled self then
    call (NpmGetProbabilty knowledge_source topic atom) ;;;
    let npprob := get_probabilty (npm self knowledge_source) topic atom in
    ret (Qgtb npprob (3 # 10))
  else ret is_supported.

(** One turn of the loop of [_get_score] over the atomic facts; the state is
    the list of decisions and the running word count. *)
Definition _get_score_step (self : FactScorer) (topic knowledge_source : string)
    (cost : option string) (st : list decision * Z) (atom0 : string)
  : M (list decision * Z) :=
  let '(decisions, total_words) := st in
  let atom := strip atom0 in
  v <- verify self topic knowledge_source cost total_words atom ;;
  match v with
  | inl total_words' => ret (decisions, total_words')
  | inr is_supported =>
      is_supported <- cross_check self topic knowledge_source atom is_supported ;;
      ret ((decisions ++ [{| atom := atom; is_supported := is_supported |}])%list,
           total_words)
  end.

Fixpoint _get_score_loop (self : FactScorer) (topic knowledge_source : string)
    (cost : option string) (atomic_facts : list string)
    (st : list decision * Z) : M (list decision * Z) :=
  match atomic_facts with
  | [] => ret st
  | atom0 :: rest =>
      st' <- _get_score_step self topic knowledge_source cost st atom0 ;;
      _get_score_loop self topic knowledge_source cost rest st'
  end.

(** [self._get_score(topic, generation, atomic_facts, knowledge_source,
    cost_estimate)]: the word count when [cost_estimate] is given, the
    decisions otherwise. *)
Definition _get_score (self : FactScorer) (topic generation : string)
    (atomic_facts : list string) (knowledge_source : string)
    (cost : option string) : M (Z + list decision) :=
  call (GetScoreCall topic generation) ;;;
  st <- _get_score_loop self topic knowledge_source cost atomic_facts ([], 0%Z) ;;
  if truthy cost then ret (inl (snd st)) else ret (inr (fst st)).

(** *** [FactScorer.get_score] *)

(** [zip(xs, ys, zs)] *)
Fixpoint zip3 {A B C : Type} (xs : list A) (ys : list B) (zs : list C)
  : list (A * B * C) :=
  match xs, ys, zs with
  | x :: xs', y :: ys', z :: zs' => (x, y, z) :: zip3 xs' ys' zs'
  | _, _, _ => []
  end.

Definition is_not_None {A : Type} (o : option A) : bool :=
  match o with Some _ => true | None => false end.

(** [[fact for _, facts in curr_afs for fact in facts]] *)
Definition flatten_facts (curr_afs : list (string * list string)) : list string :=
  flat_map snd curr_afs.

(** One turn of the decomposition loop; the state is [atomic_facts]. *)
Definition decompose_step (W : World) (self : FactScorer)
    (atomic_facts : list (option (list string))) (item : string * string)
  : M (list (option (list string))) :=
  let gen := snd item in
  let response_abstained :=
    is_response_abstained W gen (abstain_detection_type self) in
  if response_abstained then ret (atomic_facts ++ [None])%list
  else
    call (AfgRun gen) ;;;
    let curr_afs := flatten_facts (run (af_generator self) gen) in
    let atomic_facts :=
      (if (length curr_afs =? 0)%nat then atomic_facts ++ [None]
       else atomic_facts ++ [Some curr_afs])%list in
    if (length atomic_facts mod 10 =? 0)%nat
    then call AfgSaveCache ;;; ret atomic_facts
    else ret atomic_facts.

Fixpoint decompose_loop (W : World) (self : FactScorer)
    (items : list (string * string))
    (atomic_facts : list (option (list string)))
  : M (list (option (list string))) :=
  match items with
  | [] => ret atomic_facts
  | item :: rest =>
      atomic_facts' <- decompose_step W self atomic_facts item ;;
      decompose_loop W self rest atomic_facts'
  end.

(** The estimate of the cost of atomic fact generation: one call of
    [af_generator.run] in cost mode per generation; the sum is only logged. *)
Fixpoint afg_cost_loop (self : FactScorer) (generations : list string)
    (total_words : Z) : M Z :=
  match generations with
  | [] => ret total_words
  | gen :: rest =>
      call (AfgRunCost gen) ;;;
      afg_cost_loop self rest
        (total_words + run_cost (af_generator self) gen (cost_estimate self))%Z
  end.

(** The atomic facts of the batch: the ones supplied, or the ones of the
    decomposition loop. *)
Definition obtain_atomic_facts (W : World) (self : FactScorer)
    (topics generations : list string)
    (atomic_facts : option (list (option (list string))))
  : M (list (option (list string))) :=
  match atomic_facts with
  | Some afs =>
      assert (length topics =? length afs)%nat ;;;
      ret afs
  | None =>
      (if contains "ChatGPT" (model_name self)
       then afg_cost_loop self generations 0%Z ;;; ret tt
       else ret tt) ;;;
      afs <- decompose_loop W self (combine topics generations) [] ;;
      assert (length afs =? length topics)%nat ;;;
      call AfgSaveCache ;;;
      call AfgUnloadModel ;;;
      ret afs
  end.

(** The estimate of the cost of verification, for the ChatGPT backends: the
    sum is only logged. *)
Fixpoint score_cost_loop (self : FactScorer) (knowledge_source : string)
    (items : list (string * string * option (list string)))
    (total_words : Z) : M Z :=
  match items with
  | [] => ret total_words
  | (topic, generation, None) :: rest =>
      score_cost_loop self knowledge_source rest total_words
  | (topic, generation, Some facts) :: rest =>
      r <- _get_score self topic generation facts knowledge_source
                      (cost_estimate self) ;;
      match r with
      | inl words =>
          score_cost_loop self knowledge_source rest (total_words + words)%Z
      | inr _ => raise TypeError
      end
  end.

(** [1.0 if len(facts)>gamma else np.exp(1-gamma/len(facts))], over the
    reals: the exact value of the expression, without the rounding, the
    underflow and the overflow of binary64, for which see [penalty_binary64]. *)
Definition penalty (gamma : Z) (num_facts : nat) : M R :=
  if (gamma <? Z.of_nat num_facts)%Z then ret 1%R
  else if (num_facts =? 0)%nat then raise ZeroDivisionError
  else ret (exp (1 - IZR gamma / INR num_facts)).

(** The accumulators of the scoring loop. *)
Record acc : Type := {
  scores : list Np.npfloat;
  init_scores : list Np.npfloat;
  acc_decisions : list (option (list decision))
}.

Definition empty_acc : acc :=
  {| scores := []; init_scores := []; acc_decisions := [] |}.

(** The body of the scoring loop once the decisions of a response are known:
    the mean, the length penalty, the appends, and the flush after every
    tenth score. *)
Definition record_score (gamma : Z) (st : acc) (facts : list string)
    (decision : list decision) : M acc :=
  let score :=
    Np.mean (map (fun d => Np.of_bool (is_supported d)) decision) in
  penalised <-
    (if (gamma =? 0)%Z then ret (init_scores st, score)
     else
       p <- penalty gamma (length facts) ;;
       ret ((init_scores st ++ [score])%list, Np.mul (Np.Fin p) score)) ;;
  let st' :=
    {| scores := (scores st ++ [snd penalised])%list;
       init_scores := fst penalised;
       acc_decisions := (acc_decisions st ++ [Some decision])%list |} in
  if (length (scores st') mod 10 =? 0)%nat
  then call SaveCache ;;; ret st'
  else ret st'.

(** One turn of the scoring loop. *)
Definition score_step (self : FactScorer) (gamma : Z) (knowledge_source : string)
    (st : acc) (item : string * string * option (list string)) : M acc :=
  let '(topic, generation, facts) := item in
  match facts with
  | None =>
      ret {| scores := scores st;
             init_scores := init_scores st;
             acc_decisions := (acc_decisions st ++ [None])%list |}
  | Some facts =>
      r <- _get_score self topic generation facts knowledge_source None ;;
      match r with
      | inl _ => raise TypeError
      | inr decision => record_score gamma st facts decision
      end
  end.

Fixpoint score_loop (self : FactScorer) (gamma : Z) (knowledge_source : string)
    (items : list (string * string * option (list string))) (st : acc)
  : M acc :=
  match items with
  | [] => ret st
  | item :: rest =>
      st' <- score_step self gamma knowledge_source st item ;;
      score_loop self gamma knowledge_source rest st'
  end.

(** [len(d) for d in decisions if d is not None] *)
Definition decision_lengths (ds : list (option (list decision)))
  : list Np.npfloat :=
  flat_map (fun d => match d with
                     | Some l => [Np.of_nat (length l)]
                     | None => []
                     end) ds.

(** The checks of [get_score] on the types and lengths of its arguments. *)
Definition check_arguments (topics generations : str_or_list)
  : M (list string * list string) :=
  match topics, generations with
  | PStr t, PStr g => ret ([t], [g])
  | PList ts, PList gs =>
      assert (length ts =? length gs)%nat ;;;
      ret (ts, gs)
  | _, _ => raise AssertionError
  end.

(** [if knowledge_source is None: knowledge_source = "enwiki-20230401"] *)
Definition source_or_default (knowledge_source : option string) : string :=
  match knowledge_source with
  | None => "enwiki-20230401"
  | Some ks => ks
  end.

(** [self.get_score(topics, generations, gamma, atomic_facts,
    knowledge_source)] *)
Definition get_score (W : World) (self : FactScorer)
    (topics generations : str_or_list) (gamma : Z)
    (atomic_facts : option (list (option (list string))))
    (knowledge_source : option string) : M report :=
  let knowledge_source := source_or_default knowledge_source in
  args <- check_arguments topics generations ;;
  let '(topics, generations) := args in
  atomic_facts <- obtain_atomic_facts W self topics generations atomic_facts ;;
  let respond_ratio :=
    Np.mean (map (fun facts => Np.of_bool (is_not_None facts)) atomic_facts) in
  let items := zip3 topics generations atomic_facts in
  (if contains "ChatGPT" (model_name self)
   then score_cost_loop self knowledge_source items 0%Z ;;; ret tt
   else ret tt) ;;;
  st <- score_loop self gamma knowledge_source items empty_acc ;;
  call SaveCache ;;;
  ret {| score := Np.mean (scores st);
         respond_ratio := respond_ratio;
         decisions := acc_decisions st;
         num_facts_per_response := Np.mean (decision_lengths (acc_decisions st));
         init_score :=
           if (gamma =? 0)%Z then None else Some (Np.mean (init_scores st)) |}.

(* ================================================================== *)
(** ** Vocabulary of the statements *)

(** [sub] occurs in [s] at position [i]. *)
Definition occurs_at (sub s : string) (i : nat) : Prop :=
  substring i (String.length sub) s = sub.

(** [i] is the position of the first occurrence of [sub] in [s]. *)
Definition first_occurrence (sub s : string) (i : nat) : Prop :=
  occurs_at sub s i /\ forall p, (p < i)%nat -> ~ occurs_at sub s p.

(** The verdict of the cross-checker on a decision of the verification
    step. *)
Definition vetoed (self : FactScorer) (topic knowledge_source atom : string)
    (is_supported : bool) : bool :=
  if is_supported && npm_enabled self
  then Qgtb (get_probabilty (npm self knowledge_source) topic atom) (3 # 10)
  else is_supported.

(** No character of [w] is whitespace. *)
Fixpoint no_space (w : string) : bool :=
  match w with
  | EmptyString => true
  | String c w' => negb (isspace c) && no_space w'
  end.

(** [s] is empty or begins with a whitespace character. *)
Definition space_first (s : string) : Prop :=
  match s with
  | EmptyString => True
  | String c _ => isspace c = true
  end.

(** [s] is empty or ends with a whitespace character. *)
Definition space_last (s : string) : Prop :=
  match last_char s with
  | None => True
  | Some c => isspace c = true
  end.

(** [w] is a word of [s]: a non-empty run of non-whitespace characters with
    whitespace, or an end of [s], on either side. *)
Definition whole_word (w s : string) : Prop :=
  w <> EmptyString /\ no_space w = true /\
  exists pre post, s = pre ++ w ++ post /\ space_last pre /\ space_first post.

(** The number of supported decisions. *)
Definition num_supported (ds : list decision) : nat :=
  length (filter is_supported ds).

(** The number of entries that are not [None]. *)
Definition num_responded {A : Type} (l : list (option A)) : nat :=
  length (filter is_not_None l).

(** The lengths of the fact lists that are not [None]. *)
Definition fact_counts (afs : list (option (list string))) : list Np.npfloat :=
  flat_map (fun f => match f with
                     | Some l => [Np.of_nat (length l)]
                     | None => []
                     end) afs.

(** "Decreased or preserved": below or equal on numbers, NaN only against
    NaN. *)
Definition not_above (a b : Np.npfloat) : Prop :=
  match a, b with
  | Np.Fin x, Np.Fin y => (x <= y)%R
  | Np.NaN, Np.NaN => True
  | _, _ => False
  end.

(** Two scorers verify alike: their backends answer every prompt alike, their
    retrievers return the same passages, and their model names agree on the
    test that selects the score-vector mode. *)
Definition same_verifier (a b : FactScorer) : Prop :=
  match lm a, lm b with
  | Some m1, Some m2 => forall prompt, generate m1 prompt = generate m2 prompt
  | None, None => True
  | _, _ => False
  end /\
  (forall ks topic atom k,
      get_passages (retrieval a ks) topic atom k =
      get_passages (retrieval b ks) topic atom k) /\
  contains "Llama-3.1-8B-Instruct" (model_name a) =
  contains "Llama-3.1-8B-Instruct" (model_name b).

(** The decisions [ds1] are those of [ds2] with some supported ones turned
    unsupported. *)
Definition decisions_below (ds1 ds2 : list decision) : Prop :=
  Forall2 (fun d1 d2 =>
             atom d1 = atom d2 /\
             (is_supported d1 = true -> is_supported d2 = true)) ds1 ds2.

(** The same, on the state of the loop of [_get_score]. *)
Definition loop_state_below (st1 st2 : list decision * Z) : Prop :=
  decisions_below (fst st1) (fst st2) /\ snd st1 = snd st2.

(** The same, on the value [_get_score] returns. *)
Definition answer_below (r1 r2 : Z + list decision) : Prop :=
  match r1, r2 with
  | inr ds1, inr ds2 => decisions_below ds1 ds2
  | inl w1, inl w2 => w1 = w2
  | _, _ => False
  end.

(** The scores accumulated in [a] are, response by response, not above those
    accumulated in [b]. *)
Definition acc_below (a b : acc) : Prop :=
  Forall2 not_above (scores a) (scores b) /\
  Forall2 not_above (init_scores a) (init_scores b).

(** The outcomes of two runs agree up to [rel] on the values returned. *)
Definition same_outcome {A : Type} (rel : A -> A -> Prop) (m1 m2 : M A) : Prop :=
  match fst m1, fst m2 with
  | Ok a, Ok b => rel a b
  | Raise e1, Raise e2 => e1 = e2
  | _, _ => False
  end.

(** The calls of [work] since the last call of [flush] in a trace. *)
Fixpoint pending_from (work flush : event -> bool) (tr : list event) (n : nat)
  : nat :=
  match tr with
  | [] => n
  | ev :: tr' =>
      if flush ev then pending_from work flush tr' 0
      else if work ev then pending_from work flush tr' (S n)
      else pending_from work flush tr' n
  end.

Definition is_AfgRun (ev : event) : bool :=
  match ev with AfgRun _ => true | _ => false end.

Definition is_AfgSaveCache (ev : event) : bool :=
  match ev with AfgSaveCache => true | _ => false end.

Definition is_GetScoreCall (ev : event) : bool :=
  match ev with GetScoreCall _ _ => true | _ => false end.

Definition is_SaveCache (ev : event) : bool :=
  match ev with SaveCache => true | _ => false end.

(** A call that is neither a response handed to [_get_score] nor a flush. *)
Definition quiet (ev : event) : bool :=
  negb (is_GetScoreCall ev) && negb (is_SaveCache ev).

(** The generations decomposed, and not yet flushed, when the run stops
    after the calls of [tr]. *)
Definition unflushed_decompositions (tr : list event) : nat :=
  pending_from is_AfgRun is_AfgSaveCache tr 0.

(** The responses handed to [_get_score], and not yet flushed, when the run
    stops after the calls of [tr]. *)
Definition unflushed_responses (tr : list event) : nat :=
  pending_from is_GetScoreCall is_SaveCache tr 0.

(* ================================================================== *)
(** ** Fixed-point enclosures of [exp] *)

(** Rational bounds with 30 decimal digits: the number [x] stands for
    [x / 10^30]. Squaring rounds down for lower bounds and up for upper
    bounds. *)
Definition fp_scale : Z := 10 ^ 30.

Definition sq_down (x : Z) : Z := (x * x) / fp_scale.

Definition sq_up (x : Z) : Z := (x * x) / fp_scale + 1.

(** A lower and an upper bound of [exp (-9 / 2^30)], from [1 + t <= exp t]. *)
Definition exp_small_lower : Z := (fp_scale * (2 ^ 30 - 9)) / 2 ^ 30.

Definition exp_small_upper : Z := (fp_scale * 2 ^ 30) / (2 ^ 30 + 9) + 1.

(** Thirty squarings give bounds of [exp (-9)]. *)
Definition exp_m9_lower : Z := Nat.iter 30 sq_down exp_small_lower.

Definition exp_m9_upper : Z := Nat.iter 30 sq_up exp_small_upper.

(* ================================================================== *)
(** ** Concrete collaborators for the examples *)

(** A backend that answers every prompt with the same text and scores. *)
Definition const_lm (answer : string) (scores : option (list Q)) : LM :=
  {| generate := fun _ => (answer, scores); cache_dict := [] |}.

(** A world whose backends answer [answer] with [scores], whose cross-checker
    returns [prob], whose retriever finds nothing, whose generator returns the
    sentences of [facts_of], and whose detector, when a detection type is
    set, takes [refusal] for an abstention. *)
Definition toy_world (answer : string) (scores : option (list Q)) (prob : Q)
    (facts_of : string -> list string) (refusal : string) : World :=
  {| CLM := fun _ => const_lm answer scores;
     OpenAIModel := fun _ => const_lm answer scores;
     Llama3LM := fun _ _ => const_lm answer scores;
     mk_Retrieval := fun _ => {| get_passages := fun _ _ _ => [] |};
     mk_NPM := fun _ => {| get_probabilty := fun _ _ => prob |};
     mk_AtomicFactGenerator :=
       fun _ => {| run := fun gen => [(gen, facts_of gen)];
                   run_cost := fun _ _ => 0%Z |};
     is_response_abstained :=
       fun gen ty => match ty with
                     | Some _ => gen =? refusal
                     | None => false
                     end |}.

Definition example4 : string := "I believe this is true, not false".

Definition example_noted : string := "It is noted in the passage.".

Definition example5 : string := "There is no information, sorry.".

(** A score vector of the expected size that prefers the token "True". *)
Definition logits_true : list Q :=
  map (fun i => if (i =? Z.to_nat true_ix)%nat then 1%Q else 0%Q)
      (seq 0 (Z.to_nat 32000)).

Definition apology : string := "I am sorry, I cannot answer that.".

(** Twenty generations, the tenth and the twentieth being refusals. *)
Definition batch20 : list string :=
  ["g1"; "g2"; "g3"; "g4"; "g5"; "g6"; "g7"; "g8"; "g9"; apology;
   "g11"; "g12"; "g13"; "g14"; "g15"; "g16"; "g17"; "g18"; "g19"; apology].

(* ================================================================== *)
(** ** Vocabulary of the further properties *)

Definition is_LmGenerate (ev : event) : bool :=
  match ev with LmGenerate _ => true | _ => false end.

Definition is_GetPassages (ev : event) : bool :=
  match ev with GetPassages _ _ _ => true | _ => false end.

Definition is_NpmGetProbabilty (ev : event) : bool :=
  match ev with NpmGetProbabilty _ _ _ => true | _ => false end.

(** A call to the atomic fact generator. *)
Definition is_afg (ev : event) : bool :=
  match ev with
  | AfgRunCost _ | AfgRun _ | AfgSaveCache | AfgUnloadModel => true
  | _ => false
  end.

(** A score between 0 and 1, or NaN. *)
Definition unit_or_nan (x : Np.npfloat) : Prop :=
  match x with
  | Np.Fin r => (0 <= r <= 1)%R
  | Np.NaN => True
  end.

(** The question that ends the prompt of [_get_score]. *)
Definition question (atom : string) : string :=
  nl ++ nl ++ "Input: " ++ strip atom ++ " True or False?" ++ nl ++ "Answer:".

(** The entry of [decisions] that answers an entry of the atomic facts: None
    for None, else one decision per fact, in order, on the stripped fact. *)
Definition audits (facts : option (list string))
    (ds : option (list decision)) : Prop :=
  match facts, ds with
  | None, None => True
  | Some fs, Some ds => map atom ds = map strip fs
  | _, _ => False
  end.

(* ================================================================== *)
(** ** Exceptions and results outside the pipeline *)

(** The exceptions raised outside the pipeline as it is modelled above:
    those of the pipeline, and four more. *)
Inductive error : Type :=
| Exn (e : exn)
| KeyError
| NameError
| OverflowError
| RecursionError.

Inductive outcome (A : Type) : Type :=
| Done (a : A)
| Failed (e : error).
Arguments Done {A} a.
Arguments Failed {A} e.

Definition and_then {A B : Type} (m : outcome A) (k : A -> outcome B)
  : outcome B :=
  match m with
  | Done a => k a
  | Failed e => Failed e
  end.

Declare Scope script_scope.
Delimit Scope script_scope with script.
Notation "x <~ m ;; k" := (and_then m (fun x => k))
  (at level 61, m at next level, right associativity) : script_scope.

(** The elements of [l] through [f], from left to right, up to the first
    failure. *)
Fixpoint traverse {A B : Type} (f : A -> outcome B) (l : list A)
  : outcome (list B) :=
  match l with
  | [] => Done []
  | x :: rest =>
      (y <~ f x ;; ys <~ traverse f rest ;; Done (y :: ys))%script
  end.

(* ================================================================== *)
(** ** The penalty as line 220 computes it, in binary64 *)

Module Binary64.
Local Open Scope R_scope.

(** The integer nearest to a real, ties to the even one. *)
Definition nearest_even (r : R) : Z :=
  let f := Int_part r in
  let d := r - IZR f in
  if Rlt_dec d (1 / 2) then f
  else if Rlt_dec (1 / 2) d then (f + 1)%Z
  else if Z.even f then f else (f + 1)%Z.

(** The exponent of a positive real: [2^e <= x < 2^(e+1)]. *)
Definition ilog2 (x : R) : Z := Int_part (ln x / ln 2).

(** The binary64 number nearest to [x >= 0], ties to even: a multiple of
    [2^q], where [q] is 52 below the exponent of [x] and at least -1074 (the
    subnormal numbers). The reals beyond the largest binary64 number are not
    sent to infinity; the operations below never produce one. *)
Definition round_pos (x : R) : R :=
  let q := Z.max (ilog2 x - 52) (-1074) in
  IZR (nearest_even (x * powerRZ 2 (- q))) * powerRZ 2 q.

(** Rounding to binary64. *)
Definition round (x : R) : R :=
  if Rlt_dec x 0 then - round_pos (- x) else round_pos x.

(** The least magnitude that rounds beyond the largest binary64 number. *)
Definition overflow_threshold : Z := (2 ^ 1024 - 2 ^ 970)%Z.

(** [a / b] for Python ints [a] and [b >= 0]: the quotient rounded to
    binary64; ZeroDivisionError for [b = 0], OverflowError for a quotient
    that rounds beyond the largest binary64 number. *)
Definition true_divide (a : Z) (b : nat) : outcome R :=
  match b with
  | O => Failed (Exn ZeroDivisionError)
  | S _ =>
      if (overflow_threshold * Z.of_nat b <=? Z.abs a)%Z
      then Failed OverflowError
      else Done (round (IZR a / INR b))
  end.

(** [np.exp(y)] for a binary64 [y <= 0], taken as the correctly rounded
    exponential. *)
Definition np_exp (y : R) : R := round (exp y).

End Binary64.

(** [1.0 if len(facts) > gamma else np.exp(1 - gamma / len(facts))], with
    every operation in binary64; [penalty] above is its exact value. *)
Definition penalty_binary64 (gamma : Z) (num_facts : nat) : outcome R :=
  if (gamma <? Z.of_nat num_facts)%Z then Done 1%R
  else
    (quotient <~ Binary64.true_divide gamma num_facts ;;
     Done (Binary64.np_exp (Binary64.round (1 - quotient))))%script.

(* ================================================================== *)
(** ** The script of [factscorer.py]: reading the input file *)

Module Main.
Local Open Scope script_scope.

(** A value returned by [json.loads]; a dict is the list of its items in
    insertion order, its keys distinct. *)
#[warnings="-register-all"] Inductive json : Type :=
| JNull
| JBool (b : bool)
| JNum (literal : string)
| JStr (s : string)
| JList (l : list json)
| JObj (items : list (string * json)).

Definition has_key (key : string) (kv : string * json) : bool :=
  String.eqb (fst kv) key.

(** [key in dp] for a string [key]: a key of a dict, an element of a list, a
    substring of a string; TypeError for the values that are not iterable. *)
Definition json_in (key : string) (dp : json) : outcome bool :=
  match dp with
  | JObj items => Done (existsb (has_key key) items)
  | JList l =>
      Done (existsb (fun x => match x with
                              | JStr s => String.eqb s key
                              | _ => false
                              end) l)
  | JStr s => Done (contains key s)
  | JNull | JBool _ | JNum _ => Failed (Exn TypeError)
  end.

(** [dp[key]] for a string [key]: KeyError for a dict without the key,
    TypeError for every value that is not a dict. *)
Definition getitem (dp : json) (key : string) : outcome json :=
  match dp with
  | JObj items =>
      match List.find (has_key key) items with
      | Some kv => Done (snd kv)
      | None => Failed KeyError
      end
  | _ => Failed (Exn TypeError)
  end.

(** [for x in j]: the elements of a list, the characters of a string, the
    keys of a dict; TypeError for the values that are not iterable. *)
Definition iterate (j : json) : outcome (list json) :=
  match j with
  | JList l => Done l
  | JStr s =>
      Done (map (fun c => JStr (String c EmptyString)) (list_ascii_of_string s))
  | JObj items => Done (map (fun kv => JStr (fst kv)) items)
  | JNull | JBool _ | JNum _ => Failed (Exn TypeError)
  end.

(** [[atom["text"] for atom in sent["model-atomic-facts"]]] *)
Definition atom_texts (sent : json) : outcome (list json) :=
  facts <~ getitem sent "model-atomic-facts" ;;
  atoms <~ iterate facts ;;
  traverse (fun atom => getitem atom "text") atoms.

(** [[atom["text"] for sent in annotations
                   for atom in sent["model-atomic-facts"]]] *)
Definition annotation_texts (annotations : json) : outcome (list json) :=
  sents <~ iterate annotations ;;
  texts <~ traverse atom_texts sents ;;
  Done (concat texts).

(** The command-line arguments the reading loop looks at. *)
Record args : Type := {
  use_atomic_facts : bool;
  n_samples : option Z
}.

(** The variables of the reading loop. *)
Record inputs : Type := {
  topics : list json;
  generations : list json;
  atomic_facts : list (list json);
  tot : Z
}.

Definition no_inputs : inputs :=
  {| topics := []; generations := []; atomic_facts := []; tot := 0 |}.

(** The body of the loop on one parsed line, up to the test of [n_samples]:
    the variables after it, and whether the end of the body was reached
    (false after [continue]). *)
Definition read_line (a : args) (dp : json) (st : inputs)
  : outcome (inputs * bool) :=
  let tot := (tot st + 1)%Z in
  if use_atomic_facts a then
    present <~ json_in "annotations" dp ;;
    if negb present then Failed (Exn AssertionError)
    else
      annotations <~ getitem dp "annotations" ;;
      match annotations with
      | JNull =>
          Done ({| topics := topics st;
                   generations := generations st;
                   atomic_facts := atomic_facts st;
                   tot := tot |}, false)
      | _ =>
          topic <~ getitem dp "topic" ;;
          output <~ getitem dp "output" ;;
          facts <~ annotation_texts annotations ;;
          Done ({| topics := (topics st ++ [topic])%list;
                   generations := (generations st ++ [output])%list;
                   atomic_facts := (atomic_facts st ++ [facts])%list;
                   tot := tot |}, true)
      end
  else
    topic <~ getitem dp "topic" ;;
    output <~ getitem dp "output" ;;
    Done ({| topics := (topics st ++ [topic])%list;
             generations := (generations st ++ [output])%list;
             atomic_facts := atomic_facts st;
             tot := tot |}, true).

(** [args.n_samples is not None and tot == args.n_samples] *)
Definition limit_reached (a : args) (st : inputs) : bool :=
  match n_samples a with
  | Some n => (tot st =? n)%Z
  | None => false
  end.

(** The loop over the parsed lines of the input file. *)
Fixpoint read (a : args) (lines : list json) (st : inputs) : outcome inputs :=
  match lines with
  | [] => Done st
  | dp :: rest =>
      r <~ read_line a dp st ;;
      let (st', at_end) := r in
      if at_end && limit_reached a st' then Done st' else read a rest st'
  end.

(** A line of the input file, as the loop gets it: it is parsed by
    [json.loads] into a value, or it is rejected with an exception:
    JSONDecodeError, a ValueError, for a blank line or a text that is not
    JSON, RecursionError for a value nested too deeply, and UnicodeDecodeError,
    a ValueError too, when the line cannot even be decoded. *)
Inductive line : Type :=
| Parsed (dp : json)
| Rejected (e : error).

(** [json.loads(line)] *)
Definition loads (l : line) : outcome json :=
  match l with
  | Parsed dp => Done dp
  | Rejected e => Failed e
  end.

(** The loop over the lines of the input file, each parsed when its turn
    comes; [read] above is this loop on a file whose lines all parse. *)
Fixpoint read_file (a : args) (lines : list line) (st : inputs)
  : outcome inputs :=
  match lines with
  | [] => Done st
  | l :: rest =>
      dp <~ loads l ;;
      r <~ read_line a dp st ;;
      let (st', at_end) := r in
      if at_end && limit_reached a st' then Done st' else read_file a rest st'
  end.

(** The value passed to [get_score] as [atomic_facts]. *)
Definition facts_argument (a : args) (st : inputs)
  : option (list (list json)) :=
  if use_atomic_facts a then Some (atomic_facts st) else None.

(** The path the results are written to. *)
Definition output_path (input_path : string) : string :=
  replace ".jsonl" "_factscore_output.json" input_path.

(** The same arguments without [--n_samples]. *)
Definition unlimited (a : args) : args :=
  {| use_atomic_facts := use_atomic_facts a; n_samples := None |}.

(** The line has annotations and they are null. *)
Definition null_annotations (dp : json) : Prop :=
  getitem dp "annotations" = Done JNull.

(** The line is one that the loop passes over with [continue]. *)
Definition skips (a : args) (dp : json) : bool :=
  use_atomic_facts a &&
  match getitem dp "annotations" with
  | Done JNull => true
  | _ => false
  end.

(** The facts of a line, as the loop collects them. *)
Definition facts_of_line (dp : json) (facts : list json) : Prop :=
  exists annotations,
    getitem dp "annotations" = Done annotations /\
    annotation_texts annotations = Done facts.

End Main.

(* ================================================================== *)
(** ** [Llama3LM] *)

Module Llama3.
Local Open Scope script_scope.

(** A message of a chat. *)
Record message : Type := { role : string; content : string }.

(** What [load_model] loads: the chat template of the tokenizer, and for a
    formatted prompt the decoded text that the model generates with the
    scores of its first token; the generation may sample, so it is also given
    the position of the prompt in the batch. *)
Record Backend : Type := {
  apply_chat_template : list message -> string;
  generate_and_decode : nat -> string -> string * list Q
}.

Record Llama3LM : Type := {
  mode : string;
  model_name : string;
  model_dir : option string;
  cache_file : option string
}.

(** [Llama3LM.__init__]: the base class is initialised, and the cache file
    kept, only for a cache file that is not empty. *)
Definition __init__ (model_name : string) (model_dir cache_file : option string)
    (mode : string) : outcome Llama3LM :=
  if negb (String.eqb mode "afv" || String.eqb mode "afg")
  then Failed (Exn ValueError)
  else Done {| mode := mode;
               model_name := model_name;
               model_dir := model_dir;
               cache_file := if truthy cache_file then cache_file else None |}.

(** The system prompt of the verification mode. *)
Definition afv_instruct : string :=
  "You are an annotator that verifies the factuality of a sentence "
  ++ "according to a given source text. You answer only True or False "
  ++ "and provide no further explanations.".

(** The sixteen spaces that indent the lines of [_instruct]. *)
Definition indent : string := "                ".

(** [_instruct], the head of the system prompt of the generation mode. *)
Definition _instruct : string :=
  nl ++ indent
  ++ "You are an annotator that breaks down sentences into "
  ++ "independent facts, short statements that each contain one piece "
  ++ "of information contained in the given sentence."
  ++ nl ++ indent
  ++ "in the next paragraphs you have examples of sentences broken "
  ++ "down in atomic facts. "
  ++ nl ++ indent
  ++ "You have to complete the example given by the user."
  ++ nl ++ indent
  ++ "Do not add new entities, do not deviate from the subject of the "
  ++ "sentence given by the user, do not hallucinate, do not repeat "
  ++ "facts in the system prompt."
  ++ nl ++ indent
  ++ "List the sentences using -"
  ++ nl ++ indent.

(** The body of the loop of [chat_formatter] on one prompt. *)
Definition format_prompt (B : Backend) (self : Llama3LM) (prompt : string)
  : outcome string :=
  instruct <~
    (if String.eqb (mode self) "afv" then Done (afv_instruct, prompt)
     else
       let parts := rsplit_on (nl ++ nl) prompt in
       match parts with
       | part0 :: part1 :: _ => Done (_instruct ++ nl ++ part0, part1)
       | _ => Failed (Exn IndexError)
       end) ;;
  Done (apply_chat_template B
          [{| role := "system"; content := fst instruct |};
           {| role := "user"; content := snd instruct |}]).

(** [Llama3LM.chat_formatter] *)
Definition chat_formatter (B : Backend) (self : Llama3LM)
    (prompts : list string) : outcome (list string) :=
  traverse (format_prompt B self) prompts.

(** What [_generate] keeps of a generated text. *)
Definition truncate (end_if_newline end_if_second_newline : bool)
    (gen : string) : string :=
  if end_if_newline then strip (hd EmptyString (split_on nl gen))
  else if end_if_second_newline
       then strip (join nl (firstn 2 (split_on nl gen)))
       else gen.

(** The loop of [_generate] over the formatted prompts, from the one at
    position [i]: the generations and the scores collected. *)
Fixpoint generate_loop (B : Backend) (self : Llama3LM)
    (end_if_newline end_if_second_newline : bool)
    (prompts : list string) (i : nat)
    (generations : list string) (scores : list (list Q))
  : outcome (list string * list (list Q)) :=
  match prompts with
  | [] => Done (generations, scores)
  | prompt :: rest =>
      let (gen, gen_scores) := generate_and_decode B i prompt in
      let gen := truncate end_if_newline end_if_second_newline gen in
      if startswith "llama-sni" (model_name self) then Failed NameError
      else generate_loop B self end_if_newline end_if_second_newline rest
                         (S i) (generations ++ [gen])%list
                         (scores ++ [gen_scores])%list
  end.

(** [Llama3LM._generate]: for a single prompt the text and the scores, for a
    list of prompts the list of the texts and the list of the scores. *)
Definition _generate (B : Backend) (self : Llama3LM) (prompts : str_or_list)
    (end_if_newline end_if_second_newline : bool)
  : outcome (string * list Q + list string * list (list Q)) :=
  let is_single := match prompts with PStr _ => true | PList _ => false end in
  let prompts := match prompts with PStr p => [p] | PList l => l end in
  prompts <~ chat_formatter B self prompts ;;
  r <~ generate_loop B self end_if_newline end_if_second_newline prompts 0
                     [] [] ;;
  let (generations, scores) := r in
  if negb ((length generations =? length prompts)%nat
           && (length prompts =? length scores)%nat)
  then Failed (Exn AssertionError)
  else if is_single then
    match generations, scores with
    | gen :: _, gen_scores :: _ => Done (inl (gen, gen_scores))
    | _, _ => Failed (Exn IndexError)
    end
  else Done (inr (generations, scores)).

(** The two newlines that [chat_formatter] splits a prompt at. *)
Definition blank_line : string := nl ++ nl.

(** The prompts of a call, as a list. *)
Definition prompt_list (prompts : str_or_list) : list string :=
  match prompts with PStr p => [p] | PList l => l end.

(** A text without a newline and without white space around it. *)
Definition one_clean_line (gen : string) : Prop :=
  contains nl gen = false /\ strip gen = gen.

(** The verifier that [FactScorer.__init__] builds for a model name with
    "Llama-3.1". *)
Definition verifier (afv_model cache : string) : outcome Llama3LM :=
  __init__ ("meta-llama/" ++ afv_model) None (Some cache) "afv".

End Llama3.

(** Lines of an input file: a response with its annotations, one whose
    annotations are null, and one without annotations. *)
Definition annotated_line : Main.json :=
  Main.JObj
    [("topic", Main.JStr "sky");
     ("output", Main.JStr "The sky is blue.");
     ("annotations",
      Main.JList
        [Main.JObj
           [("text", Main.JStr "The sky is blue.");
            ("model-atomic-facts",
             Main.JList [Main.JObj [("text", Main.JStr "The sky is blue.")]])]])].

Definition null_line : Main.json :=
  Main.JObj
    [("topic", Main.JStr "sea");
     ("output", Main.JStr "I do not know.");
     ("annotations", Main.JNull)].

Definition plain_line : Main.json :=
  Main.JObj
    [("topic", Main.JStr "sun"); ("output", Main.JStr "The sun is a star.")].

(* ================================================================== *)
(** ** Lemmas on strings *)

Example split_words :
  split "  no information,  sorry " = ["no"; "information,"; "sorry"].
Proof. vm_compute. reflexivity. Qed.

Example strip_both_ends : strip "  The sky is blue. " = "The sky is blue.".
Proof. vm_compute. reflexivity. Qed.

Example strip_punctuation_deletes :
  strip_punctuation "can't say: unknown!" = "cant say unknown".
Proof. vm_compute. reflexivity. Qed.

Example lower_ascii : lower "True, FALSE" = "true, false".
Proof. vm_compute. reflexivity. Qed.

Example remove_markers : remove "</s>" (remove "<s>" "<s>Paris</s> is") = "Paris is".
Proof. vm_compute. reflexivity. Qed.

Example default_model_name :
  generate_model_name "Llama-3.1-8B-Instruct" "Llama-3.1-8B-Instruct" true true =
  "retrieval+Llama-3.1-8B-Instruct+Llama-3.1-8B-Instruct+npm".
Proof. vm_compute. reflexivity. Qed.

Lemma find_first_occurrence (sub s : string) (i : nat) :
  find sub s = Some i -> first_occurrence sub s i.
Proof.
  unfold find, first_occurrence, occurs_at. intros Hfind. split.
  - exact (index_correct1 _ _ _ _ Hfind).
  - intros p Hlt. apply (index_correct2 _ _ _ _ Hfind); lia.
Qed.

Lemma contains_find (sub s : string) :
  contains sub s = true -> exists i, find sub s = Some i.
Proof.
  unfold contains. destruct (find sub s) as [i|]; [eauto | discriminate].
Qed.

Lemma contains_false_no_occurrence (sub s : string) (i : nat) :
  sub <> EmptyString -> contains sub s = false -> ~ occurs_at sub s i.
Proof.
  unfold contains, find, occurs_at. intros Hne Hc.
  destruct (String.index 0 sub s) eqn:E; [discriminate|].
  apply (index_correct3 0 i sub s E Hne). lia.
Qed.

Lemma lower_char_idempotent (c : ascii) : lower_char (lower_char c) = lower_char c.
Proof.
  destruct c as [[] [] [] [] [] [] [] []]; vm_compute; reflexivity.
Qed.

Lemma lower_idempotent (s : string) : lower (lower s) = lower s.
Proof.
  induction s as [|c s IH]; simpl; [reflexivity|].
  now rewrite lower_char_idempotent, IH.
Qed.

Lemma mem_In (w : string) (ws : list string) : mem w ws = true <-> In w ws.
Proof.
  unfold mem. rewrite existsb_exists. split.
  - intros [x [Hin Heq]]. apply String.eqb_eq in Heq. now subst.
  - intros Hin. exists w. split; [assumption | apply String.eqb_refl].
Qed.

(** No refusal keyword among the words: the value of the [all(...)] of the
    text branch. *)
Lemma no_keyword_false (ws : list string) :
  forallb (fun keyword => negb (mem keyword ws)) refusal_keywords = false
  <-> exists keyword, In keyword refusal_keywords /\ In keyword ws.
Proof.
  split.
  - intros H.
    destruct (existsb (fun keyword => mem keyword ws) refusal_keywords) eqn:E.
    + apply existsb_exists in E. destruct E as [k [Hk Hm]].
      exists k. split; [assumption | now apply mem_In].
    + exfalso. rewrite <- not_true_iff_false in H. apply H.
      apply forallb_forall. intros k Hk.
      destruct (mem k ws) eqn:Em; [|reflexivity].
      rewrite <- not_true_iff_false in E. exfalso. apply E.
      apply existsb_exists. now exists k.
  - intros [k [Hk Hin]]. apply not_true_iff_false. intros Hall.
    rewrite forallb_forall in Hall. specialize (Hall k Hk).
    apply mem_In in Hin. rewrite Hin in Hall. discriminate.
Qed.

(** *** [split] returns the whole words *)

Lemma In_cons_word (w w0 : string) (ws : list string) :
  In w (cons_word w0 ws) <-> (w = w0 /\ w0 <> EmptyString) \/ In w ws.
Proof.
  destruct w0 as [|c w0]; simpl.
  - split; [now right | now intros [[_ H] | H]].
  - split.
    + intros [<- | H]; [left; split; [reflexivity | discriminate] | now right].
    + intros [[-> _] | H]; [now left | now right].
Qed.

Lemma last_char_cons (c : ascii) (pre : string) :
  pre <> EmptyString -> last_char (String c pre) = last_char pre.
Proof.
  destruct pre; [contradiction | reflexivity].
Qed.

Lemma space_last_cons (c : ascii) (pre : string) :
  pre <> EmptyString -> (space_last (String c pre) <-> space_last pre).
Proof.
  intros Hne. unfold space_last. now rewrite last_char_cons.
Qed.

(** A string has one leading word only. *)
Lemma leading_word_unique (w w0 post post0 : string) :
  no_space w = true -> no_space w0 = true ->
  space_first post -> space_first post0 ->
  w ++ post = w0 ++ post0 -> w = w0.
Proof.
  revert w0. induction w as [|c w IH]; intros [|d w0] Hw Hw0 Hp Hp0 Heq;
    simpl in *.
  - reflexivity.
  - subst post. simpl in Hp. apply andb_true_iff in Hw0.
    destruct Hw0 as [Hd _]. rewrite Hp in Hd. discriminate.
  - subst post0. simpl in Hp0. apply andb_true_iff in Hw.
    destruct Hw as [Hc _]. rewrite Hp0 in Hc. discriminate.
  - inversion Heq; subst d. f_equal.
    apply andb_true_iff in Hw, Hw0. apply (IH w0); tauto.
Qed.

Lemma split_aux_spec (s : string) :
  no_space (fst (split_aux s)) = true /\
  (exists post, s = fst (split_aux s) ++ post /\ space_first post) /\
  (forall w,
      In w (snd (split_aux s)) <->
      w <> EmptyString /\ no_space w = true /\
      exists pre post,
        s = pre ++ w ++ post /\ pre <> EmptyString /\
        space_last pre /\ space_first post).
Proof.
  induction s as [|c s [IHw [[post0 [Hs0 Hpost0]] IHws]]].
  - simpl. split; [reflexivity|]. split; [exists EmptyString; now split|].
    intros w. split; [contradiction|].
    intros [_ [_ [pre [post [Heq [Hne _]]]]]].
    destruct pre; [contradiction | discriminate].
  - simpl split_aux. destruct (split_aux s) as [w' ws'] eqn:E.
    simpl fst in *. simpl snd in *.
    destruct (isspace c) eqn:Hc; simpl fst; simpl snd.
    + split; [reflexivity|].
      split; [exists (String c s); split; [reflexivity | exact Hc]|].
      intros w. rewrite In_cons_word. split.
      * intros [[-> Hne] | Hin].
        -- split; [exact Hne|]. split; [exact IHw|].
           exists (String c EmptyString), post0. simpl.
           split; [now rewrite <- Hs0|]. split; [discriminate|].
           split; [exact Hc | exact Hpost0].
        -- apply IHws in Hin.
           destruct Hin as [Hne [Hns [pre [post [Heq [Hpre [Hl Hf]]]]]]].
           split; [exact Hne|]. split; [exact Hns|].
           exists (String c pre), post. simpl.
           split; [now rewrite <- Heq|]. split; [discriminate|].
           split; [now apply space_last_cons | exact Hf].
      * intros [Hne [Hns [pre [post [Heq [Hpre [Hl Hf]]]]]]].
        destruct pre as [|d pre]; [contradiction|].
        simpl in Heq. inversion Heq; subst d.
        destruct pre as [|d pre].
        -- left. simpl in H1. rewrite Hs0 in H1.
           assert (w = w')
             by (symmetry; apply (leading_word_unique w' w post0 post); auto).
           subst w'. now split.
        -- right. apply IHws. split; [exact Hne|]. split; [exact Hns|].
           exists (String d pre), post.
           split; [exact H1|]. split; [discriminate|].
           split; [|exact Hf].
           apply (space_last_cons c (String d pre)); [discriminate | exact Hl].
    + split; [simpl; rewrite Hc; exact IHw|].
      split; [exists post0; simpl; split; [now rewrite <- Hs0 | exact Hpost0]|].
      intros w. split.
      * intros Hin. apply IHws in Hin.
        destruct Hin as [Hne [Hns [pre [post [Heq [Hpre [Hl Hf]]]]]]].
        split; [exact Hne|]. split; [exact Hns|].
        exists (String c pre), post. simpl.
        split; [now rewrite <- Heq|]. split; [discriminate|].
        split; [now apply space_last_cons | exact Hf].
      * intros [Hne [Hns [pre [post [Heq [Hpre [Hl Hf]]]]]]].
        destruct pre as [|d pre]; [contradiction|].
        simpl in Heq. inversion Heq; subst d.
        destruct pre as [|d pre].
        -- unfold space_last in Hl. simpl in Hl. rewrite Hl in Hc. discriminate.
        -- apply IHws. split; [exact Hne|]. split; [exact Hns|].
           exists (String d pre), post.
           split; [exact H1|]. split; [discriminate|].
           split; [|exact Hf].
           apply (space_last_cons c (String d pre)); [discriminate | exact Hl].
Qed.

(** [s.split()] is the list of the whole words of [s]. *)
Lemma split_whole_words (w s : string) : In w (split s) <-> whole_word w s.
Proof.
  destruct (split_aux_spec s) as [Hw0 [[post0 [Hs0 Hpost0]] Hws]].
  unfold split, whole_word. destruct (split_aux s) as [w0 ws] eqn:E.
  simpl fst in *. simpl snd in *. rewrite In_cons_word. split.
  - intros [[-> Hne] | Hin].
    + split; [exact Hne|]. split; [exact Hw0|].
      exists EmptyString, post0. simpl. split; [exact Hs0|].
      split; [exact I | exact Hpost0].
    + apply Hws in Hin.
      destruct Hin as [Hne [Hns [pre [post [Heq [_ [Hl Hf]]]]]]].
      split; [exact Hne|]. split; [exact Hns|]. now exists pre, post.
  - intros [Hne [Hns [pre [post [Heq [Hl Hf]]]]]].
    destruct pre as [|d pre].
    + left. simpl in Heq. rewrite Hs0 in Heq.
      assert (w = w0)
        by (symmetry; apply (leading_word_unique w0 w post0 post); auto).
      subst w0. now split.
    + right. apply Hws. split; [exact Hne|]. split; [exact Hns|].
      exists (String d pre), post. split; [exact Heq|].
      split; [discriminate|]. now split.
Qed.

(* ================================================================== *)
(** ** Text-mode answer resolution *)

(** C1, as the code has it: when the lower-cased answer contains both "true"
    and "false", the text branch returns without raising, and the claim is
    supported exactly when the first "false" comes before the first "true":
    the word whose first occurrence comes later decides. *)
Theorem resolve_text_both_later_word_wins (answer : string) :
  contains "true" (lower answer) = true ->
  contains "false" (lower answer) = true ->
  exists i_true i_false,
    first_occurrence "true" (lower answer) i_true /\
    first_occurrence "false" (lower answer) i_false /\
    resolve_text answer = (Ok (i_false <? i_true)%nat, []).
Proof.
  intros Ht Hf.
  destruct (contains_find _ _ Ht) as [i Hi].
  destruct (contains_find _ _ Hf) as [j Hj].
  exists i, j. split; [now apply find_first_occurrence|].
  split; [now apply find_first_occurrence|].
  unfold resolve_text, index. rewrite Ht, Hf, Hi, Hj. reflexivity.
Qed.

Lemma resolve_text_both_later_word_wins_example :
  contains "true" (lower example4) = true /\
  contains "false" (lower example4) = true /\
  exists i_true i_false,
    first_occurrence "true" (lower example4) i_true /\
    first_occurrence "false" (lower example4) i_false /\
    resolve_text example4 = (Ok (i_false <? i_true)%nat, []).
Proof.
  split; [vm_compute; reflexivity|].
  split; [vm_compute; reflexivity|].
  apply (resolve_text_both_later_word_wins example4); vm_compute; reflexivity.
Defined.

(** C1, as the specification states it, fails on its own Example 4: in
    "I believe this is true, not false" the word "true" (position 18) comes
    before "false" (position 28), and the answer resolves to unsupported. *)
Lemma example4_true_first_unsupported :
  contains "true" (lower example4) = true /\
  contains "false" (lower example4) = true /\
  first_occurrence "true" (lower example4) 18 /\
  first_occurrence "false" (lower example4) 28 /\
  resolve_text example4 = (Ok false, []).
Proof.
  split; [vm_compute; reflexivity|].
  split; [vm_compute; reflexivity|].
  split; [apply find_first_occurrence; vm_compute; reflexivity|].
  split; [apply find_first_occurrence; vm_compute; reflexivity|].
  vm_compute; reflexivity.
Qed.

(** C8, as the code has it: when the lower-cased answer contains neither
    "true" nor "false", the text branch returns without raising, and the claim
    is unsupported exactly when one of the refusal keywords is a whole word
    (delimited by whitespace or by the ends) of the punctuation-stripped
    text. *)
Theorem resolve_text_neither_keyword_word (answer : string) :
  contains "true" (lower answer) = false ->
  contains "false" (lower answer) = false ->
  exists b,
    resolve_text answer = (Ok b, []) /\
    (b = false <->
     exists keyword,
       In keyword ["not"; "cannot"; "unknown"; "information"] /\
       whole_word keyword (strip_punctuation (lower answer))).
Proof.
  intros Ht Hf. unfold resolve_text. rewrite Ht, Hf. simpl orb. cbv iota.
  rewrite lower_idempotent. eexists. split; [reflexivity|].
  rewrite no_keyword_false. split.
  - intros [k [Hk Hin]]. exists k. split; [exact Hk|].
    now apply split_whole_words.
  - intros [k [Hk Hw]]. exists k. split; [exact Hk|].
    now apply split_whole_words.
Qed.

Lemma resolve_text_neither_keyword_word_example :
  contains "true" (lower example5) = false /\
  contains "false" (lower example5) = false /\
  exists b,
    resolve_text example5 = (Ok b, []) /\
    (b = false <->
     exists keyword,
       In keyword ["not"; "cannot"; "unknown"; "information"] /\
       whole_word keyword (strip_punctuation (lower example5))).
Proof.
  split; [vm_compute; reflexivity|].
  split; [vm_compute; reflexivity|].
  apply (resolve_text_neither_keyword_word example5); vm_compute; reflexivity.
Defined.

(** Example 5: neither keyword, and "information" among the words once the
    comma is stripped: unsupported. *)
Example example5_unsupported : resolve_text example5 = (Ok false, []).
Proof. vm_compute. reflexivity. Qed.

(** C8, read with "contains" as in the rest of the sentence (a substring
    test), fails: "It is noted in the passage." contains neither "true" nor
    "false", its punctuation-stripped text contains "not" (in "noted"), and yet
    the answer resolves to supported. *)
Lemma example_noted_contains_not_supported :
  contains "true" (lower example_noted) = false /\
  contains "false" (lower example_noted) = false /\
  contains "not" (strip_punctuation (lower example_noted)) = true /\
  resolve_text example_noted = (Ok true, []).
Proof.
  repeat split; vm_compute; reflexivity.
Qed.

(* ================================================================== *)
(** ** Lemmas on the monad *)

Lemma bind_Ok {A B : Type} (m : M A) (k : A -> M B) (a : A) (tr : list event) :
  m = (Ok a, tr) -> bind m k = (fst (k a), (tr ++ snd (k a))%list).
Proof.
  intros ->. unfold bind. now destruct (k a).
Qed.

Lemma bind_Raise {A B : Type} (m : M A) (k : A -> M B) (e : exn)
    (tr : list event) :
  m = (Raise e, tr) -> bind m k = (Raise e, tr).
Proof.
  now intros ->.
Qed.

Lemma bind_Ok_inv {A B : Type} (m : M A) (k : A -> M B) (b : B)
    (tr : list event) :
  bind m k = (Ok b, tr) ->
  exists a tr1 tr2,
    m = (Ok a, tr1) /\ k a = (Ok b, tr2) /\ tr = (tr1 ++ tr2)%list.
Proof.
  destruct m as [[a|e] tr1]; simpl; [|discriminate].
  destruct (k a) as [r tr2] eqn:E. intros H. inversion H; subst.
  now exists a, tr1, tr2.
Qed.

Lemma bind_ret_l {A B : Type} (a : A) (k : A -> M B) : bind (ret a) k = k a.
Proof.
  unfold bind, ret. now destruct (k a).
Qed.

Lemma bind_ext {A B : Type} (m : M A) (k1 k2 : A -> M B) :
  (forall a, k1 a = k2 a) -> bind m k1 = bind m k2.
Proof.
  intros Hk. destruct m as [[a|e] tr]; simpl; [now rewrite Hk | reflexivity].
Qed.

Lemma same_outcome_bind {A B : Type} (rel : A -> A -> Prop)
    (rel' : B -> B -> Prop) (m1 m2 : M A) (k1 k2 : A -> M B) :
  same_outcome rel m1 m2 ->
  (forall a b, rel a b -> same_outcome rel' (k1 a) (k2 b)) ->
  same_outcome rel' (bind m1 k1) (bind m2 k2).
Proof.
  unfold same_outcome.
  destruct m1 as [[a|e1] tr1], m2 as [[b|e2] tr2]; simpl; try tauto.
  intros Hab Hk. specialize (Hk a b Hab).
  destruct (k1 a) as [r1 t1], (k2 b) as [r2 t2]. exact Hk.
Qed.

Lemma same_outcome_refl {A : Type} (rel : A -> A -> Prop) (m : M A) :
  (forall a, rel a a) -> same_outcome rel m m.
Proof.
  intros Hrefl. unfold same_outcome. destruct (fst m); auto.
Qed.

(* ================================================================== *)
(** ** Score-vector mode *)

Lemma Qgtb_lt (a b : Q) : Qgtb a b = true <-> (b < a)%Q.
Proof.
  unfold Qgtb. rewrite negb_true_iff, <- not_true_iff_false, Qle_bool_iff.
  split; [apply Qnot_le_lt | apply Qlt_not_le].
Qed.

Lemma Qgtb_le (a b : Q) : Qgtb a b = false <-> (a <= b)%Q.
Proof.
  unfold Qgtb. rewrite negb_false_iff. apply Qle_bool_iff.
Qed.

(** C5, as the code has it: the scores of the first token decide exactly when
    the call returned a score vector and the model name does not contain
    "Llama-3.1-8B-Instruct"; otherwise the text decides. On a vector of 32000
    or 32001 scores the claim is supported iff the score of the token "True"
    (index 5852) is greater than that of "False" (index 7700); on any other
    length the resolution raises AssertionError. *)
Theorem resolve_answer_modes (self : FactScorer)
    (output : string * option (list Q)) :
  (forall logits,
      snd output = Some logits ->
      contains "Llama-3.1-8B-Instruct" (model_name self) = false ->
      resolve_answer self output = resolve_logits logits) /\
  (snd output = None \/
   contains "Llama-3.1-8B-Instruct" (model_name self) = true ->
   resolve_answer self output = resolve_text (fst output)) /\
  (forall logits,
      Z.of_nat (length logits) = 32000%Z \/ Z.of_nat (length logits) = 32001%Z ->
      exists b,
        resolve_logits logits = (Ok b, []) /\
        (b = true <->
         (nth (Z.to_nat 7700) logits 0 < nth (Z.to_nat 5852) logits 0)%Q)) /\
  (forall logits,
      Z.of_nat (length logits) <> 32000%Z ->
      Z.of_nat (length logits) <> 32001%Z ->
      resolve_logits logits = (Raise AssertionError, [])).
Proof.
  unfold resolve_answer, resolve_logits. repeat split.
  - intros logits -> ->. reflexivity.
  - intros [-> | Hname]; [reflexivity|].
    rewrite Hname. now destruct (snd output).
  - intros logits Hlen. eexists. split.
    + destruct Hlen as [-> | ->]; reflexivity.
    + apply Qgtb_lt.
  - intros logits H0 H1.
    apply Z.eqb_neq in H0, H1. now rewrite H0, H1.
Qed.

Lemma resolve_answer_modes_example :
  let self :=
    __init__ (toy_world "False" (Some logits_true) 1 (fun g => [g]) apology)
             "inst-llama-7B" "inst-llama-7B" false true None None in
  let output := ("False", Some logits_true) in
  contains "Llama-3.1-8B-Instruct" (model_name self) = false /\
  Z.of_nat (length logits_true) = 32000%Z /\
  resolve_answer self output = resolve_logits logits_true /\
  resolve_logits logits_true = (Ok true, []).
Proof.
  intros self output.
  assert (Hname : contains "Llama-3.1-8B-Instruct" (model_name self) = false)
    by (vm_compute; reflexivity).
  assert (Hlen : Z.of_nat (length logits_true) = 32000%Z)
    by (vm_compute; reflexivity).
  destruct (resolve_answer_modes self output) as [Hmode [_ [Hval _]]].
  split; [exact Hname|]. split; [exact Hlen|].
  split; [exact (Hmode logits_true eq_refl Hname)|].
  destruct (Hval logits_true (or_introl Hlen)) as [b [Hb Hiff]].
  rewrite Hb. f_equal. f_equal. apply Hiff. vm_compute. reflexivity.
Defined.

(** C5, as the specification states it, fails for the default scorer: its
    model name contains "Llama-3.1-8B-Instruct", so a returned score vector
    that prefers "True" is ignored and the text "False" decides. *)
Lemma default_scorer_ignores_scores :
  let W := toy_world "False" (Some logits_true) 1 (fun g => [g]) apology in
  let output := ("False", Some logits_true) in
  lm (default_scorer W) = Some (const_lm "False" (Some logits_true)) /\
  generate (const_lm "False" (Some logits_true)) "any prompt" = output /\
  resolve_logits logits_true = (Ok true, []) /\
  resolve_answer (default_scorer W) output = (Ok false, []).
Proof.
  intros W output. split.
  - subst W. generalize logits_true. intros v. vm_compute. reflexivity.
  - split; [reflexivity|]. split; vm_compute; reflexivity.
Qed.

(* ================================================================== *)
(** ** The loop of [_get_score] *)

Lemma cross_check_value (self : FactScorer) (topic ks atom : string) (b : bool) :
  cross_check self topic ks atom b =
  (Ok (vetoed self topic ks atom b),
   if b && npm_enabled self then [NpmGetProbabilty ks topic atom] else []).
Proof.
  unfold cross_check, vetoed. destruct (b && npm_enabled self); reflexivity.
Qed.

Lemma _get_score_step_verdict (self : FactScorer) (topic ks : string)
    (cost : option string) (ds : list decision) (tw : Z) (atom0 : string)
    (b : bool) (tr : list event) :
  verify self topic ks cost tw (strip atom0) = (Ok (inr b), tr) ->
  _get_score_step self topic ks cost (ds, tw) atom0 =
  (Ok ((ds ++ [{| atom := strip atom0;
                  is_supported := vetoed self topic ks (strip atom0) b |}])%list,
       tw),
   (tr ++ (if b && npm_enabled self
           then [NpmGetProbabilty ks topic (strip atom0)] else []))%list).
Proof.
  intros Hv. unfold _get_score_step. rewrite (bind_Ok _ _ _ _ Hv).
  rewrite (bind_Ok _ _ _ _ (cross_check_value self topic ks (strip atom0) b)).
  simpl. now rewrite app_nil_r.
Qed.

Lemma verify_no_model (self : FactScorer) (topic ks : string)
    (cost : option string) (tw : Z) (atom : string) :
  lm self = None -> verify self topic ks cost tw atom = (Ok (inr true), []).
Proof.
  unfold verify. now intros ->.
Qed.

Lemma _get_score_loop_no_model (self : FactScorer) (topic ks : string)
    (cost : option string) (facts : list string) :
  lm self = None ->
  forall (ds0 : list decision) (tw : Z),
  exists tr,
    _get_score_loop self topic ks cost facts (ds0, tw) =
    (Ok ((ds0 ++ map (fun atom0 =>
                        {| atom := strip atom0;
                           is_supported :=
                             vetoed self topic ks (strip atom0) true |})
                     facts)%list, tw), tr).
Proof.
  intros Hlm. induction facts as [|atom0 rest IH]; intros ds0 tw.
  - exists []. simpl. now rewrite app_nil_r.
  - simpl _get_score_loop.
    pose proof (_get_score_step_verdict self topic ks cost ds0 tw atom0 true []
                  (verify_no_model self topic ks cost tw (strip atom0) Hlm))
      as Hstep.
    rewrite (bind_Ok _ _ _ _ Hstep).
    destruct (IH (ds0 ++ [{| atom := strip atom0;
                            is_supported :=
                              vetoed self topic ks (strip atom0) true |}])%list
                 tw) as [tr Htr].
    rewrite Htr. simpl fst. simpl snd. rewrite <- app_assoc. simpl.
    eexists. reflexivity.
Qed.

(** C6, as the code has it: without a verification model [_get_score] returns
    one decision per atomic fact, in order, for the stripped fact; every
    decision is supported when the cross-checker is not enabled, and when it
    is enabled a decision is supported exactly when the cross-checker's
    probability for the fact is above 0.3. *)
Theorem no_model_decisions (self : FactScorer) (topic generation : string)
    (facts : list string) (knowledge_source : string) :
  lm self = None ->
  exists ds tr,
    _get_score self topic generation facts knowledge_source None =
      (Ok (inr ds), tr) /\
    map atom ds = map strip facts /\
    (npm_enabled self = false ->
     Forall (fun d => is_supported d = true) ds) /\
    (npm_enabled self = true ->
     Forall (fun d =>
               is_supported d = true <->
               (3 # 10 <
                get_probabilty (npm self knowledge_source) topic (atom d))%Q)
            ds).
Proof.
  intros Hlm.
  destruct (_get_score_loop_no_model self topic knowledge_source None facts Hlm
              [] 0%Z) as [tr Hloop].
  eexists. exists (GetScoreCall topic generation :: tr). split.
  - unfold _get_score. simpl bind. rewrite Hloop. simpl.
    rewrite app_nil_r. reflexivity.
  - split; [|split].
    + rewrite map_map. reflexivity.
    + intros Hoff. apply Forall_forall. intros d Hd.
      apply in_map_iff in Hd. destruct Hd as [a0 [<- _]].
      unfold vetoed. simpl. now rewrite Hoff.
    + intros Hon. apply Forall_forall. intros d Hd.
      apply in_map_iff in Hd. destruct Hd as [a0 [<- _]].
      unfold vetoed. simpl. rewrite Hon. apply Qgtb_lt.
Qed.

Lemma no_model_decisions_example :
  let W := toy_world "" None (1 # 10) (fun g => [g]) apology in
  let self := __init__ W "verifier" "generator" false true None None in
  lm self = None /\
  npm_enabled self = false /\
  exists ds tr,
    _get_score self "sky" "The sky is blue." ["The sky is blue. "] "enwiki" None =
      (Ok (inr ds), tr) /\
    map atom ds = ["The sky is blue."] /\
    Forall (fun d => is_supported d = true) ds.
Proof.
  intros W self.
  assert (Hlm : lm self = None) by (vm_compute; reflexivity).
  assert (Hoff : npm_enabled self = false) by (vm_compute; reflexivity).
  split; [exact Hlm|]. split; [exact Hoff|].
  destruct (no_model_decisions self "sky" "The sky is blue."
              ["The sky is blue. "] "enwiki" Hlm)
    as [ds [tr [Hrun [Hatoms [Hall _]]]]].
  exists ds, tr. split; [exact Hrun|]. split; [exact Hatoms|]. exact (Hall Hoff).
Defined.

(** C6, as the specification states it, fails when the cross-checker is
    enabled: a scorer built with unknown model names has no verification
    model, its model name "retrieval+generator+verifier+npm" enables the
    cross-checker, and a probability of 0.1 makes the decision unsupported. *)
Lemma no_model_npm_unsupported :
  let W := toy_world "" None (1 # 10) (fun g => [g]) apology in
  let self := __init__ W "verifier" "generator" true true None None in
  lm self = None /\
  _get_score self "sky" "The sky is blue." ["The sky is blue."] "enwiki" None =
    (Ok (inr [{| atom := "The sky is blue."; is_supported := false |}]),
     [GetScoreCall "sky" "The sky is blue.";
      NpmGetProbabilty "enwiki" "sky" "The sky is blue."]).
Proof.
  split; vm_compute; reflexivity.
Qed.

(* ================================================================== *)
(** ** Real-number lemmas: an enclosure of [exp (-9)] *)

Section ExpBounds.
Local Open Scope R_scope.

Lemma fp_scale_pos : 0 < IZR fp_scale.
Proof. apply IZR_lt. reflexivity. Qed.

Lemma square_lower (s a q r : R) :
  0 < s -> 0 <= a -> s * q <= a * a -> a / s <= r -> q / s <= r * r.
Proof.
  intros Hs Ha Hq Hr.
  assert (Has : 0 <= a / s).
  { apply Rmult_le_pos; [assumption | left; now apply Rinv_0_lt_compat]. }
  apply Rle_trans with ((a / s) * (a / s)).
  - apply Rmult_le_reg_r with (s * s); [now apply Rmult_lt_0_compat|].
    replace (q / s * (s * s)) with (s * q) by (field; lra).
    replace (a / s * (a / s) * (s * s)) with (a * a) by (field; lra).
    assumption.
  - apply Rmult_le_compat; assumption.
Qed.

Lemma square_upper (s a q r : R) :
  0 < s -> 0 <= r -> a * a <= s * q -> r <= a / s -> r * r <= q / s.
Proof.
  intros Hs Hr0 Hq Hr.
  apply Rle_trans with ((a / s) * (a / s)).
  - apply Rmult_le_compat; assumption.
  - apply Rmult_le_reg_r with (s * s); [now apply Rmult_lt_0_compat|].
    replace (q / s * (s * s)) with (s * q) by (field; lra).
    replace (a / s * (a / s) * (s * s)) with (a * a) by (field; lra).
    assumption.
Qed.

Lemma sq_down_nonneg (x : Z) : (0 <= sq_down x)%Z.
Proof.
  unfold sq_down. apply Z.div_pos; [nia | reflexivity].
Qed.

Lemma sq_down_sound (x : Z) (r : R) :
  (0 <= x)%Z -> IZR x / IZR fp_scale <= r ->
  IZR (sq_down x) / IZR fp_scale <= r * r.
Proof.
  intros Hx Hr.
  apply square_lower with (a := IZR x);
    [exact fp_scale_pos | now apply IZR_le | | exact Hr].
  rewrite <- !mult_IZR. apply IZR_le.
  unfold sq_down. apply Z.mul_div_le. reflexivity.
Qed.

Lemma sq_up_sound (x : Z) (r : R) :
  0 <= r -> r <= IZR x / IZR fp_scale ->
  r * r <= IZR (sq_up x) / IZR fp_scale.
Proof.
  intros Hr0 Hr.
  apply square_upper with (a := IZR x);
    [exact fp_scale_pos | exact Hr0 | | exact Hr].
  rewrite <- !mult_IZR. apply IZR_le.
  unfold sq_up. apply Z.lt_le_incl.
  apply (Z.mul_succ_div_gt (x * x) fp_scale). reflexivity.
Qed.

Lemma exp_double (t : R) : exp t * exp t = exp (t * 2).
Proof.
  rewrite <- exp_plus. f_equal. lra.
Qed.

Lemma iter_sq_down_sound (n : nat) (x : Z) (t : R) :
  (0 <= x)%Z -> IZR x / IZR fp_scale <= exp t ->
  (0 <= Nat.iter n sq_down x)%Z /\
  IZR (Nat.iter n sq_down x) / IZR fp_scale <= exp (t * 2 ^ n).
Proof.
  intros Hx Hb. induction n as [|n [IH0 IH]].
  - simpl. split; [assumption|]. now rewrite Rmult_1_r.
  - simpl Nat.iter. split; [apply sq_down_nonneg|].
    replace (t * 2 ^ S n) with (t * 2 ^ n * 2) by (simpl; lra).
    rewrite <- exp_double. now apply sq_down_sound.
Qed.

Lemma iter_sq_up_sound (n : nat) (x : Z) (t : R) :
  exp t <= IZR x / IZR fp_scale ->
  exp (t * 2 ^ n) <= IZR (Nat.iter n sq_up x) / IZR fp_scale.
Proof.
  intros Hb. induction n as [|n IH].
  - simpl. now rewrite Rmult_1_r.
  - simpl Nat.iter.
    replace (t * 2 ^ S n) with (t * 2 ^ n * 2) by (simpl; lra).
    rewrite <- exp_double. apply sq_up_sound; [left; apply exp_pos | exact IH].
Qed.

Lemma exp_small_lower_sound :
  IZR exp_small_lower / IZR fp_scale <= exp (- 9 / 2 ^ 30).
Proof.
  apply Rle_trans with (1 + - 9 / 2 ^ 30); [|apply exp_ineq1_le].
  assert (Hz : (2 ^ 30 * exp_small_lower <= fp_scale * (2 ^ 30 - 9))%Z)
    by (unfold exp_small_lower; apply Z.mul_div_le; reflexivity).
  apply IZR_le in Hz. rewrite !mult_IZR in Hz.
  pose proof fp_scale_pos as Hs.
  change (IZR (2 ^ 30 - 9)) with (IZR 1073741815) in Hz.
  change (IZR (2 ^ 30)) with (IZR 1073741824) in Hz.
  replace (2 ^ 30) with 1073741824 by lra.
  apply Rmult_le_reg_r with (IZR fp_scale * 1073741824); [lra|].
  replace (IZR exp_small_lower / IZR fp_scale * (IZR fp_scale * 1073741824))
    with (1073741824 * IZR exp_small_lower) by (field; lra).
  lra.
Qed.

Lemma exp_small_upper_sound :
  exp (- 9 / 2 ^ 30) <= IZR exp_small_upper / IZR fp_scale.
Proof.
  pose proof fp_scale_pos as Hs.
  assert (Hinv : exp (- 9 / 2 ^ 30) = / exp (9 / 2 ^ 30)).
  { rewrite <- exp_Ropp. f_equal. lra. }
  rewrite Hinv.
  assert (He : 1 + 9 / 2 ^ 30 <= exp (9 / 2 ^ 30)) by apply exp_ineq1_le.
  assert (Hz : (fp_scale * 2 ^ 30 < (2 ^ 30 + 9) * exp_small_upper)%Z).
  { unfold exp_small_upper.
    apply (Z.mul_succ_div_gt (fp_scale * 2 ^ 30) (2 ^ 30 + 9)). reflexivity. }
  apply IZR_lt in Hz. rewrite !mult_IZR in Hz.
  change (IZR (2 ^ 30 + 9)) with (IZR 1073741833) in Hz.
  change (IZR (2 ^ 30)) with (IZR 1073741824) in Hz.
  replace (2 ^ 30) with 1073741824 in * by lra.
  apply Rle_trans with (/ (1 + 9 / 1073741824)).
  - apply Rinv_le_contravar; lra.
  - apply Rmult_le_reg_r with (IZR fp_scale * (1 + 9 / 1073741824)); [nra|].
    replace (/ (1 + 9 / 1073741824) * (IZR fp_scale * (1 + 9 / 1073741824)))
      with (IZR fp_scale) by (field; lra).
    replace (IZR exp_small_upper / IZR fp_scale
             * (IZR fp_scale * (1 + 9 / 1073741824)))
      with (IZR exp_small_upper * (1 + 9 / 1073741824)) by (field; lra).
    lra.
Qed.

Lemma exp_m9_enclosure :
  IZR exp_m9_lower / IZR fp_scale <= exp (- 9) <=
  IZR exp_m9_upper / IZR fp_scale.
Proof.
  replace (- 9) with (- 9 / 2 ^ 30 * 2 ^ 30) by (field; lra).
  split.
  - apply iter_sq_down_sound; [|exact exp_small_lower_sound].
    vm_compute. discriminate.
  - apply iter_sq_up_sound. exact exp_small_upper_sound.
Qed.

Lemma ratio_lt_lower (a b q s r : R) :
  0 < s -> 0 < b -> a * s < b * q -> q / s <= r -> a / b < r.
Proof.
  intros Hs Hb Hlt Hr. apply Rlt_le_trans with (q / s); [|exact Hr].
  apply Rmult_lt_reg_r with (s * b); [now apply Rmult_lt_0_compat|].
  replace (a / b * (s * b)) with (a * s) by (field; lra).
  replace (q / s * (s * b)) with (b * q) by (field; lra).
  exact Hlt.
Qed.

Lemma ratio_lt_upper (a b q s r : R) :
  0 < s -> 0 < b -> b * q < a * s -> r <= q / s -> r < a / b.
Proof.
  intros Hs Hb Hlt Hr. apply Rle_lt_trans with (q / s); [exact Hr|].
  apply Rmult_lt_reg_r with (s * b); [now apply Rmult_lt_0_compat|].
  replace (a / b * (s * b)) with (a * s) by (field; lra).
  replace (q / s * (s * b)) with (b * q) by (field; lra).
  exact Hlt.
Qed.

(** [exp (-9)] agrees with 0.0001234 to the digits shown. *)
Lemma exp_m9_approx : 12340 / 100000000 < exp (- 9) < 12342 / 100000000.
Proof.
  assert (Hb : 0 < 100000000) by (apply IZR_lt; reflexivity).
  destruct exp_m9_enclosure as [Hl Hu].
  split.
  - apply ratio_lt_lower with (q := IZR exp_m9_lower) (s := IZR fp_scale);
      [exact fp_scale_pos | exact Hb | | exact Hl].
    rewrite <- !mult_IZR. apply IZR_lt. vm_compute. reflexivity.
  - apply ratio_lt_upper with (q := IZR exp_m9_upper) (s := IZR fp_scale);
      [exact fp_scale_pos | exact Hb | | exact Hu].
    rewrite <- !mult_IZR. apply IZR_lt. vm_compute. reflexivity.
Qed.

End ExpBounds.

(* ================================================================== *)
(** ** Means of decisions and the length penalty *)

Section Scores.
Local Open Scope R_scope.

Lemma sum_bools_from (ds : list decision) (a : R) :
  fold_left Np.add (map (fun d => Np.of_bool (is_supported d)) ds) (Np.Fin a) =
  Np.Fin (a + INR (num_supported ds)).
Proof.
  revert a. induction ds as [|d ds IH]; intros a.
  - unfold num_supported. simpl. f_equal. lra.
  - simpl fold_left. rewrite IH. f_equal. unfold num_supported. simpl filter.
    destruct (is_supported d).
    + change (length (d :: filter is_supported ds))
        with (S (length (filter is_supported ds))).
      rewrite S_INR. lra.
    + lra.
Qed.

Lemma mean_nonempty (xs : list Np.npfloat) :
  xs <> [] ->
  Np.mean xs = match Np.sum xs with
               | Np.Fin s => Np.Fin (s / INR (length xs))
               | Np.NaN => Np.NaN
               end.
Proof.
  destruct xs; [contradiction | reflexivity].
Qed.

(** The mean of the decisions of a response is the fraction of supported
    ones. *)
Lemma mean_bools (ds : list decision) :
  ds <> [] ->
  Np.mean (map (fun d => Np.of_bool (is_supported d)) ds) =
  Np.Fin (INR (num_supported ds) / INR (length ds)).
Proof.
  intros Hne. rewrite mean_nonempty by (destruct ds; [contradiction | discriminate]).
  unfold Np.sum. rewrite sum_bools_from, length_map, Rplus_0_l. reflexivity.
Qed.

Lemma num_supported_le_length (ds : list decision) :
  (num_supported ds <= length ds)%nat.
Proof.
  unfold num_supported. apply filter_length_le.
Qed.

Lemma penalty_exceeds (gamma : Z) (n : nat) :
  (gamma < Z.of_nat n)%Z -> penalty gamma n = (Ok 1, []).
Proof.
  intros H. unfold penalty. apply Z.ltb_lt in H. now rewrite H.
Qed.

Lemma penalty_within (gamma : Z) (n : nat) :
  (1 <= n)%nat -> (Z.of_nat n <= gamma)%Z ->
  penalty gamma n = (Ok (exp (1 - IZR gamma / INR n)), []).
Proof.
  intros Hn H. unfold penalty.
  assert (Hlt : (gamma <? Z.of_nat n)%Z = false) by (apply Z.ltb_ge; lia).
  rewrite Hlt. destruct n as [|n]; [lia|]. reflexivity.
Qed.

End Scores.

(* ================================================================== *)
(** ** One decision per atomic fact *)

Lemma verify_None_verdict (self : FactScorer) (topic ks : string) (tw : Z)
    (atom : string) (v : Z + bool) (tr : list event) :
  verify self topic ks None tw atom = (Ok v, tr) -> exists b, v = inr b.
Proof.
  unfold verify. destruct (lm self) as [model|].
  - intros H.
    apply bind_Ok_inv in H. destruct H as [[] [tr1 [tr2 [_ [H _]]]]].
    apply bind_Ok_inv in H. destruct H as [prompt [tr3 [tr4 [_ [H _]]]]].
    simpl truthy in H. cbv iota in H.
    apply bind_Ok_inv in H. destruct H as [[] [tr5 [tr6 [_ [H _]]]]].
    apply bind_Ok_inv in H. destruct H as [b [tr7 [tr8 [_ [H _]]]]].
    exists b. unfold ret in H. now inversion H.
  - intros H. exists true. unfold ret in H. now inversion H.
Qed.

Lemma _get_score_step_None (self : FactScorer) (topic ks : string)
    (ds : list decision) (tw : Z) (atom0 : string)
    (st' : list decision * Z) (tr : list event) :
  _get_score_step self topic ks None (ds, tw) atom0 = (Ok st', tr) ->
  exists b,
    st' = ((ds ++ [{| atom := strip atom0; is_supported := b |}])%list, tw).
Proof.
  intros H.
  destruct (verify self topic ks None tw (strip atom0)) as [[v|e] tr0] eqn:Hv.
  - destruct (verify_None_verdict _ _ _ _ _ _ _ Hv) as [b ->].
    rewrite (_get_score_step_verdict _ _ _ _ _ _ _ _ _ Hv) in H.
    inversion H. eexists. reflexivity.
  - unfold _get_score_step in H. rewrite (bind_Raise _ _ _ _ Hv) in H.
    discriminate.
Qed.

Lemma _get_score_loop_None (self : FactScorer) (topic ks : string)
    (facts : list string) :
  forall (ds0 : list decision) (tw : Z) (st : list decision * Z)
         (tr : list event),
    _get_score_loop self topic ks None facts (ds0, tw) = (Ok st, tr) ->
    exists ds, st = ((ds0 ++ ds)%list, tw) /\ map atom ds = map strip facts.
Proof.
  induction facts as [|atom0 rest IH]; intros ds0 tw st tr H.
  - simpl in H. unfold ret in H. inversion H. exists [].
    now rewrite app_nil_r.
  - simpl in H. apply bind_Ok_inv in H.
    destruct H as [st1 [tr1 [tr2 [Hstep [Hrest _]]]]].
    destruct (_get_score_step_None _ _ _ _ _ _ _ _ Hstep) as [b ->].
    destruct (IH _ _ _ _ Hrest) as [ds [-> Hatoms]].
    exists ({| atom := strip atom0; is_supported := b |} :: ds).
    rewrite <- app_assoc. simpl. split; [reflexivity | now f_equal].
Qed.

(** Without cost estimation [_get_score] returns, when it returns, one
    decision per atomic fact, in order, for the stripped fact. *)
Lemma _get_score_decisions (self : FactScorer) (topic generation : string)
    (facts : list string) (ks : string) (r : Z + list decision)
    (tr : list event) :
  _get_score self topic generation facts ks None = (Ok r, tr) ->
  exists ds, r = inr ds /\ map atom ds = map strip facts.
Proof.
  unfold _get_score. intros H.
  apply bind_Ok_inv in H. destruct H as [[] [tr1 [tr2 [_ [H _]]]]].
  apply bind_Ok_inv in H. destruct H as [st [tr3 [tr4 [Hloop [H _]]]]].
  destruct (_get_score_loop_None _ _ _ _ _ _ _ _ Hloop) as [ds [-> Hatoms]].
  simpl in H. unfold ret in H. inversion H. now exists ds.
Qed.

Lemma _get_score_length (self : FactScorer) (topic generation : string)
    (facts : list string) (ks : string) (ds : list decision)
    (tr : list event) :
  _get_score self topic generation facts ks None = (Ok (inr ds), tr) ->
  length ds = length facts.
Proof.
  intros H. destruct (_get_score_decisions _ _ _ _ _ _ _ H) as [ds' [E Hatoms]].
  inversion E; subst ds'.
  rewrite <- (length_map atom ds), Hatoms. apply length_map.
Qed.

(* ================================================================== *)
(** ** One turn of the scoring loop *)

Section ScoreStep.
Local Open Scope R_scope.

Variable self : FactScorer.
Variable gamma : Z.
Variable ks : string.

Lemma flush_tail (st : acc) :
  (if (length (scores st) mod 10 =? 0)%nat
   then call SaveCache ;;; ret st else ret st) =
  (Ok st, if (length (scores st) mod 10 =? 0)%nat then [SaveCache] else []).
Proof.
  destruct (length (scores st) mod 10 =? 0)%nat; reflexivity.
Qed.

Lemma record_score_unpenalised (st : acc) (facts : list string)
    (ds : list decision) :
  gamma = 0%Z ->
  let st' :=
    {| scores :=
         (scores st
          ++ [Np.mean (map (fun d => Np.of_bool (is_supported d)) ds)])%list;
       init_scores := init_scores st;
       acc_decisions := (acc_decisions st ++ [Some ds])%list |} in
  record_score gamma st facts ds =
  (Ok st', if (length (scores st') mod 10 =? 0)%nat then [SaveCache] else []).
Proof.
  intros -> st'. unfold record_score. simpl Z.eqb. cbv iota.
  rewrite bind_ret_l. cbv zeta. apply flush_tail.
Qed.

Lemma record_score_penalised (st : acc) (facts : list string)
    (ds : list decision) (p : R) :
  gamma <> 0%Z ->
  penalty gamma (length facts) = (Ok p, []) ->
  let st' :=
    {| scores :=
         (scores st
          ++ [Np.mul (Np.Fin p)
                (Np.mean (map (fun d => Np.of_bool (is_supported d)) ds))])%list;
       init_scores :=
         (init_scores st
          ++ [Np.mean (map (fun d => Np.of_bool (is_supported d)) ds)])%list;
       acc_decisions := (acc_decisions st ++ [Some ds])%list |} in
  record_score gamma st facts ds =
  (Ok st', if (length (scores st') mod 10 =? 0)%nat then [SaveCache] else []).
Proof.
  intros Hg Hp st'. unfold record_score. apply Z.eqb_neq in Hg. rewrite Hg.
  rewrite (Hp : penalty gamma (length facts) = ret p).
  rewrite !bind_ret_l. cbv zeta. apply flush_tail.
Qed.

Lemma record_score_raises (st : acc) (facts : list string)
    (ds : list decision) (e : exn) :
  gamma <> 0%Z ->
  penalty gamma (length facts) = (Raise e, []) ->
  record_score gamma st facts ds = (Raise e, []).
Proof.
  intros Hg Hp. unfold record_score. apply Z.eqb_neq in Hg. rewrite Hg.
  rewrite Hp. reflexivity.
Qed.

Lemma score_step_None (st : acc) (topic generation : string) :
  score_step self gamma ks st (topic, generation, None) =
  (Ok {| scores := scores st;
         init_scores := init_scores st;
         acc_decisions := (acc_decisions st ++ [None])%list |}, []).
Proof.
  reflexivity.
Qed.

Lemma score_step_Some (st : acc) (topic generation : string)
    (facts : list string) (ds : list decision) (tr : list event) :
  _get_score self topic generation facts ks None = (Ok (inr ds), tr) ->
  score_step self gamma ks st (topic, generation, Some facts) =
  (fst (record_score gamma st facts ds),
   (tr ++ snd (record_score gamma st facts ds))%list).
Proof.
  intros Hrun. unfold score_step. now rewrite (bind_Ok _ _ _ _ Hrun).
Qed.

Lemma score_step_unpenalised (st : acc) (topic generation : string)
    (facts : list string) (ds : list decision) (tr : list event) :
  _get_score self topic generation facts ks None = (Ok (inr ds), tr) ->
  gamma = 0%Z ->
  exists tr',
    score_step self gamma ks st (topic, generation, Some facts) =
    (Ok {| scores :=
             (scores st
              ++ [Np.mean (map (fun d => Np.of_bool (is_supported d)) ds)])%list;
           init_scores := init_scores st;
           acc_decisions := (acc_decisions st ++ [Some ds])%list |}, tr').
Proof.
  intros Hrun Hg. rewrite (score_step_Some _ _ _ _ _ _ Hrun).
  rewrite (record_score_unpenalised st facts ds Hg). eexists. reflexivity.
Qed.

Lemma score_step_penalised (st : acc) (topic generation : string)
    (facts : list string) (ds : list decision) (tr : list event) (p : R) :
  _get_score self topic generation facts ks None = (Ok (inr ds), tr) ->
  gamma <> 0%Z ->
  penalty gamma (length facts) = (Ok p, []) ->
  exists tr',
    score_step self gamma ks st (topic, generation, Some facts) =
    (Ok {| scores :=
             (scores st
              ++ [Np.mul (Np.Fin p)
                    (Np.mean (map (fun d => Np.of_bool (is_supported d)) ds))])%list;
           init_scores :=
             (init_scores st
              ++ [Np.mean (map (fun d => Np.of_bool (is_supported d)) ds)])%list;
           acc_decisions := (acc_decisions st ++ [Some ds])%list |}, tr').
Proof.
  intros Hrun Hg Hp. rewrite (score_step_Some _ _ _ _ _ _ Hrun).
  rewrite (record_score_penalised st facts ds p Hg Hp). eexists. reflexivity.
Qed.

Lemma score_step_division_by_zero (st : acc) (topic generation : string)
    (facts : list string) (ds : list decision) (tr : list event) (e : exn) :
  _get_score self topic generation facts ks None = (Ok (inr ds), tr) ->
  gamma <> 0%Z ->
  penalty gamma (length facts) = (Raise e, []) ->
  score_step self gamma ks st (topic, generation, Some facts) = (Raise e, tr).
Proof.
  intros Hrun Hg Hp. rewrite (score_step_Some _ _ _ _ _ _ Hrun).
  rewrite (record_score_raises st facts ds e Hg Hp). simpl.
  now rewrite app_nil_r.
Qed.

Lemma score_step_raises (st : acc) (topic generation : string)
    (facts : list string) (e : exn) (tr : list event) :
  _get_score self topic generation facts ks None = (Raise e, tr) ->
  score_step self gamma ks st (topic, generation, Some facts) = (Raise e, tr).
Proof.
  intros Hrun. unfold score_step. now rewrite (bind_Raise _ _ _ _ Hrun).
Qed.

End ScoreStep.

(* ================================================================== *)
(** ** The score of a response *)

Section ResponseScore.
Local Open Scope R_scope.



(** Example 2: twelve claims, all supported, gamma = 10: the penalty is 1 and
    both [scores] and [init_scores] receive 1. *)
Lemma example2_no_penalty :
  let W := toy_world "True" None 1 (fun g => [g]) apology in
  let self := default_scorer W in
  let facts := ["f1"; "f2"; "f3"; "f4"; "f5"; "f6";
                "f7"; "f8"; "f9"; "f10"; "f11"; "f12"] in
  penalty 10 (length facts) = (Ok 1, []) /\
  exists st' tr',
    score_step self 10 "enwiki-20230401" empty_acc
      ("topic", "generation", Some facts) = (Ok st', tr') /\
    init_scores st' = [Np.Fin (12 / 12)] /\
    scores st' = [Np.Fin (1 * (12 / 12))].
Proof.
  intros W self facts.
  assert (Hp : penalty 10 (length facts) = (Ok 1, []))
    by (apply penalty_exceeds; simpl; lia).
  split; [exact Hp|].
  assert (Hrun :
    _get_score self "topic" "generation" facts "enwiki-20230401" None =
    (Ok (inr (map (fun f => {| atom := f; is_supported := true |}) facts)),
     snd (_get_score self "topic" "generation" facts "enwiki-20230401" None)))
    by (vm_compute; reflexivity).
  destruct (score_step_penalised self 10 "enwiki-20230401" empty_acc
              "topic" "generation" facts _ _ 1 Hrun ltac:(lia) Hp)
    as [tr' Hstep].
  rewrite mean_bools in Hstep by (unfold facts; discriminate).
  unfold num_supported in Hstep.
  change (length (filter is_supported
            (map (fun f => {| atom := f; is_supported := true |}) facts)))
    with 12%nat in Hstep.
  change (length (map (fun f => {| atom := f; is_supported := true |}) facts))
    with 12%nat in Hstep.
  replace (INR 12) with 12 in Hstep by (simpl; lra).
  eexists. exists tr'. split; [exact Hstep|]. split; reflexivity.
Qed.

End ResponseScore.

(* ================================================================== *)
(** ** The veto of the cross-checker *)

Section Veto.
Local Open Scope R_scope.

Variables on off : FactScorer.
Hypothesis Hsame : same_verifier on off.
Hypothesis Hoff : npm_enabled off = false.

Lemma verify_same (topic ks : string) (tw : Z) (atom : string) :
  verify on topic ks None tw atom = verify off topic ks None tw atom.
Proof.
  destruct Hsame as [Hlm [Hret Hname]]. unfold verify.
  destruct (lm on) as [m1|], (lm off) as [m2|]; try contradiction;
    [|reflexivity].
  rewrite Hret. simpl truthy. cbv iota.
  unfold resolve_answer. rewrite Hname.
  apply bind_ext. intros _. apply bind_ext. intros prompt.
  now rewrite Hlm.
Qed.

Lemma vetoed_off (topic ks atom : string) (b : bool) :
  vetoed off topic ks atom b = b.
Proof.
  unfold vetoed. rewrite Hoff. now rewrite andb_false_r.
Qed.

Lemma vetoed_below (self : FactScorer) (topic ks atom : string) (b : bool) :
  vetoed self topic ks atom b = true -> b = true.
Proof.
  unfold vetoed. destruct b; [reflexivity | simpl; auto].
Qed.

Lemma _get_score_step_below (topic ks : string)
    (st1 st2 : list decision * Z) (atom0 : string) :
  loop_state_below st1 st2 ->
  same_outcome loop_state_below
    (_get_score_step on topic ks None st1 atom0)
    (_get_score_step off topic ks None st2 atom0).
Proof.
  destruct st1 as [ds1 tw1], st2 as [ds2 tw2]. intros [Hds Htw].
  simpl in Hds, Htw. subst tw2.
  destruct (verify off topic ks None tw1 (strip atom0)) as [[v|e] tr] eqn:Hv.
  - destruct (verify_None_verdict _ _ _ _ _ _ _ Hv) as [b ->].
    rewrite (_get_score_step_verdict off _ _ _ _ _ _ _ _ Hv).
    rewrite <- verify_same in Hv.
    rewrite (_get_score_step_verdict on _ _ _ _ _ _ _ _ Hv).
    unfold same_outcome, loop_state_below. simpl. split; [|reflexivity].
    apply Forall2_app; [exact Hds|]. constructor; [|constructor]. simpl.
    split; [reflexivity|]. rewrite vetoed_off. apply vetoed_below.
  - unfold _get_score_step. rewrite (bind_Raise _ _ _ _ Hv).
    rewrite <- verify_same in Hv. rewrite (bind_Raise _ _ _ _ Hv).
    reflexivity.
Qed.

Lemma _get_score_loop_below (topic ks : string) (facts : list string) :
  forall st1 st2,
    loop_state_below st1 st2 ->
    same_outcome loop_state_below
      (_get_score_loop on topic ks None facts st1)
      (_get_score_loop off topic ks None facts st2).
Proof.
  induction facts as [|atom0 rest IH]; intros st1 st2 Hst.
  - exact Hst.
  - simpl. apply same_outcome_bind with (rel := loop_state_below).
    + now apply _get_score_step_below.
    + exact IH.
Qed.

Lemma _get_score_below (topic generation : string) (facts : list string)
    (ks : string) :
  same_outcome answer_below
    (_get_score on topic generation facts ks None)
    (_get_score off topic generation facts ks None).
Proof.
  unfold _get_score.
  apply same_outcome_bind with (rel := eq);
    [apply same_outcome_refl; reflexivity|].
  intros _ _ _.
  apply same_outcome_bind with (rel := loop_state_below).
  - apply _get_score_loop_below. split; [constructor | reflexivity].
  - intros st1 st2 [Hds _]. exact Hds.
Qed.

End Veto.

Section VetoScores.
Local Open Scope R_scope.

Lemma decisions_below_counts (ds1 ds2 : list decision) :
  decisions_below ds1 ds2 ->
  (num_supported ds1 <= num_supported ds2)%nat /\ length ds1 = length ds2.
Proof.
  unfold num_supported. induction 1 as [|d1 d2 l1 l2 [_ Himp] _ [IHn IHl]].
  - split; reflexivity.
  - simpl. split; [|now f_equal].
    destruct (is_supported d1).
    + rewrite (Himp eq_refl). simpl. lia.
    + destruct (is_supported d2); simpl; lia.
Qed.

Lemma mean_below (ds1 ds2 : list decision) :
  decisions_below ds1 ds2 ->
  not_above (Np.mean (map (fun d => Np.of_bool (is_supported d)) ds1))
            (Np.mean (map (fun d => Np.of_bool (is_supported d)) ds2)).
Proof.
  intros Hds. destruct (decisions_below_counts _ _ Hds) as [Hn Hl].
  destruct ds1 as [|d1 l1], ds2 as [|d2 l2]; try discriminate.
  - exact I.
  - rewrite !mean_bools by discriminate. unfold not_above. rewrite Hl.
    apply Rmult_le_compat_r.
    + left. apply Rinv_0_lt_compat. apply lt_0_INR. simpl. lia.
    + now apply le_INR.
Qed.

Lemma penalty_trace (gamma : Z) (n : nat) : snd (penalty gamma n) = [].
Proof.
  unfold penalty. destruct (gamma <? Z.of_nat n)%Z; [reflexivity|].
  destruct (n =? 0)%nat; reflexivity.
Qed.

Lemma penalty_positive (gamma : Z) (n : nat) (p : R) (tr : list event) :
  penalty gamma n = (Ok p, tr) -> 0 < p.
Proof.
  unfold penalty. destruct (gamma <? Z.of_nat n)%Z.
  - intros H. inversion H. lra.
  - destruct (n =? 0)%nat; [discriminate|].
    intros H. inversion H. apply exp_pos.
Qed.

Lemma mul_below (p : R) (a b : Np.npfloat) :
  0 < p -> not_above a b -> not_above (Np.mul (Np.Fin p) a) (Np.mul (Np.Fin p) b).
Proof.
  intros Hp. destruct a, b; simpl; auto.
  intros H. apply Rmult_le_compat_l; lra.
Qed.

Variables on off : FactScorer.
Hypothesis Hsame : same_verifier on off.
Hypothesis Hoff : npm_enabled off = false.
Variable gamma : Z.
Variable ks : string.

Lemma score_step_below (st1 st2 : acc)
    (item : string * string * option (list string)) :
  acc_below st1 st2 ->
  same_outcome acc_below (score_step on gamma ks st1 item)
                         (score_step off gamma ks st2 item).
Proof.
  intros [Hs Hi]. destruct item as [[topic generation] [facts|]].
  - pose proof (_get_score_below on off Hsame Hoff topic generation facts ks)
      as Hrun.
    destruct (_get_score on topic generation facts ks None)
      as [[r1|e1] tr1] eqn:E1;
    destruct (_get_score off topic generation facts ks None)
      as [[r2|e2] tr2] eqn:E2;
    unfold same_outcome in Hrun; simpl in Hrun; try contradiction.
    + destruct (_get_score_decisions _ _ _ _ _ _ _ E1) as [ds1 [-> _]].
      destruct (_get_score_decisions _ _ _ _ _ _ _ E2) as [ds2 [-> _]].
      simpl in Hrun. pose proof (mean_below _ _ Hrun) as Hmean.
      destruct (Z.eq_dec gamma 0) as [Hg | Hg].
      * destruct (score_step_unpenalised on gamma ks st1 _ _ _ _ _ E1 Hg)
          as [t1 ->].
        destruct (score_step_unpenalised off gamma ks st2 _ _ _ _ _ E2 Hg)
          as [t2 ->].
        split; simpl; [|exact Hi].
        apply Forall2_app; [exact Hs | now repeat constructor].
      * destruct (penalty gamma (length facts)) as [[p|e] trp] eqn:Hp;
          pose proof (penalty_trace gamma (length facts)) as Htr;
          rewrite Hp in Htr; simpl in Htr; subst trp.
        -- destruct (score_step_penalised on gamma ks st1 _ _ _ _ _ p E1 Hg Hp)
             as [t1 ->].
           destruct (score_step_penalised off gamma ks st2 _ _ _ _ _ p E2 Hg Hp)
             as [t2 ->].
           pose proof (penalty_positive _ _ _ _ Hp) as Hpos.
           split; simpl.
           ++ apply Forall2_app; [exact Hs|].
              constructor; [now apply mul_below | constructor].
           ++ apply Forall2_app; [exact Hi | now repeat constructor].
        -- rewrite (score_step_division_by_zero on gamma ks st1 _ _ _ _ _ e
                      E1 Hg Hp).
           rewrite (score_step_division_by_zero off gamma ks st2 _ _ _ _ _ e
                      E2 Hg Hp).
           reflexivity.
    + rewrite (score_step_raises on gamma ks st1 _ _ _ _ _ E1).
      rewrite (score_step_raises off gamma ks st2 _ _ _ _ _ E2).
      exact Hrun.
  - rewrite !score_step_None. split; simpl; assumption.
Qed.

Lemma score_loop_below
    (items : list (string * string * option (list string))) :
  forall st1 st2,
    acc_below st1 st2 ->
    same_outcome acc_below (score_loop on gamma ks items st1)
                           (score_loop off gamma ks items st2).
Proof.
  induction items as [|item rest IH]; intros st1 st2 Hst.
  - exact Hst.
  - simpl. apply same_outcome_bind with (rel := acc_below).
    + now apply score_step_below.
    + exact IH.
Qed.

End VetoScores.

(* ================================================================== *)
(** ** The calls to the cross-checker *)

Lemma snd_bind {A B : Type} (m : M A) (k : A -> M B) :
  snd (bind m k) =
  (snd m ++ match fst m with Ok a => snd (k a) | Raise _ => [] end)%list.
Proof.
  destruct m as [[a|e] tr]; simpl.
  - now destruct (k a).
  - now rewrite app_nil_r.
Qed.

Lemma build_prompt_trace (topic atom : string) (passages : list passage) :
  snd (build_prompt topic atom passages) = [].
Proof.
  unfold build_prompt.
  match goal with |- context [last_char ?s] => destruct (last_char s) end;
    reflexivity.
Qed.

Lemma resolve_text_trace (output0 : string) : snd (resolve_text output0) = [].
Proof.
  unfold resolve_text, index.
  destruct (contains "true" (lower output0) || contains "false" (lower output0));
    [|reflexivity].
  destruct (contains "true" (lower output0)
            && negb (contains "false" (lower output0))); [reflexivity|].
  destruct (contains "false" (lower output0)
            && negb (contains "true" (lower output0))); [reflexivity|].
  destruct (find "true" (lower output0)); [|reflexivity].
  destruct (find "false" (lower output0)); reflexivity.
Qed.

Lemma resolve_logits_trace (logits : list Q) : snd (resolve_logits logits) = [].
Proof.
  unfold resolve_logits.
  destruct ((Z.of_nat (length logits) =? 32000)%Z
            || (Z.of_nat (length logits) =? 32001)%Z); reflexivity.
Qed.

Lemma resolve_answer_trace (self : FactScorer)
    (output : string * option (list Q)) :
  snd (resolve_answer self output) = [].
Proof.
  unfold resolve_answer. destruct (snd output) as [logits|].
  - destruct (negb (contains "Llama-3.1-8B-Instruct" (model_name self)));
      [apply resolve_logits_trace | apply resolve_text_trace].
  - apply resolve_text_trace.
Qed.

(** The verification step calls the retriever and the model only. *)
Lemma verify_None_trace (self : FactScorer) (topic ks : string) (tw : Z)
    (atom : string) (ev : event) :
  In ev (snd (verify self topic ks None tw atom)) ->
  ev = GetPassages ks topic atom \/ exists prompt, ev = LmGenerate prompt.
Proof.
  unfold verify. destruct (lm self) as [model|]; [|simpl; tauto].
  rewrite snd_bind. simpl fst. cbv iota. rewrite snd_bind.
  rewrite build_prompt_trace. simpl truthy.
  destruct (fst (build_prompt topic atom
                   (get_passages (retrieval self ks) topic atom 5)))
    as [prompt|e].
  - cbv iota. rewrite snd_bind. simpl fst. cbv iota. rewrite snd_bind.
    rewrite resolve_answer_trace.
    destruct (fst (resolve_answer self (generate model prompt))); simpl;
      intros [<- | [<- | []]]; eauto.
  - simpl. intros [<- | []]. now left.
Qed.

Lemma _get_score_loop_cons (self : FactScorer) (topic ks : string)
    (cost : option string) (atom0 : string) (rest : list string)
    (st : list decision * Z) :
  _get_score_loop self topic ks cost (atom0 :: rest) st =
  bind (_get_score_step self topic ks cost st atom0)
       (fun st' => _get_score_loop self topic ks cost rest st').
Proof.
  reflexivity.
Qed.

Lemma _get_score_loop_npm_calls (self : FactScorer) (topic ks : string)
    (facts : list string) :
  forall (ds : list decision) (tw : Z) (ks' t a : string),
    In (NpmGetProbabilty ks' t a)
       (snd (_get_score_loop self topic ks None facts (ds, tw))) ->
    ks' = ks /\ t = topic /\
    exists atom0,
      In atom0 facts /\ a = strip atom0 /\
      fst (verify self topic ks None tw a) = Ok (inr true).
Proof.
  induction facts as [|atom0 rest IH]; intros ds tw ks' t a Hin.
  - simpl in Hin. contradiction.
  - rewrite _get_score_loop_cons, snd_bind in Hin.
    apply in_app_or in Hin.
    destruct (verify self topic ks None tw (strip atom0)) as [[v|e] tr] eqn:Hv.
    + destruct (verify_None_verdict _ _ _ _ _ _ _ Hv) as [b ->].
      rewrite (_get_score_step_verdict _ _ _ _ _ _ _ _ _ Hv) in Hin.
      simpl fst in Hin. simpl snd in Hin. destruct Hin as [Hin | Hin].
      * apply in_app_or in Hin. destruct Hin as [Hin | Hin].
        -- pose proof (verify_None_trace self topic ks tw (strip atom0)
                         (NpmGetProbabilty ks' t a)) as Hev.
           rewrite Hv in Hev. destruct (Hev Hin) as [H | [p H]]; discriminate.
        -- destruct b; simpl in Hin;
             [|contradiction].
           destruct (npm_enabled self); simpl in Hin; [|contradiction].
           destruct Hin as [Hin | []]. inversion Hin; subst.
           split; [reflexivity|]. split; [reflexivity|].
           exists atom0. split; [now left|]. split; [reflexivity|].
           now rewrite Hv.
      * destruct (IH _ _ _ _ _ Hin) as [-> [-> [a0 [Ha0 [-> Hver]]]]].
        split; [reflexivity|]. split; [reflexivity|].
        exists a0. split; [now right|]. now split.
    + unfold _get_score_step in Hin. rewrite (bind_Raise _ _ _ _ Hv) in Hin.
      simpl in Hin. destruct Hin as [Hin | []].
      pose proof (verify_None_trace self topic ks tw (strip atom0)
                    (NpmGetProbabilty ks' t a)) as Hev.
      rewrite Hv in Hev. destruct (Hev Hin) as [H | [p H]]; discriminate.
Qed.

(** Every call to the cross-checker made by [_get_score] is for a fact that
    the verification step has marked supported. *)
Lemma _get_score_npm_calls (self : FactScorer) (topic generation : string)
    (facts : list string) (ks ks' t a : string) :
  In (NpmGetProbabilty ks' t a)
     (snd (_get_score self topic generation facts ks None)) ->
  ks' = ks /\ t = topic /\
  exists atom0,
    In atom0 facts /\ a = strip atom0 /\
    fst (verify self topic ks None 0 a) = Ok (inr true).
Proof.
  unfold _get_score. rewrite snd_bind. simpl fst. cbv iota.
  rewrite snd_bind. intros Hin. apply in_app_or in Hin.
  destruct Hin as [[Hin | []] | Hin]; [discriminate|].
  apply in_app_or in Hin. destruct Hin as [Hin | Hin].
  - exact (_get_score_loop_npm_calls _ _ _ _ _ _ _ _ _ Hin).
  - destruct (fst (_get_score_loop self topic ks None facts ([], 0%Z)));
      simpl in Hin; contradiction.
Qed.



(* ================================================================== *)
(** ** The corpus report *)

Section Report.
Local Open Scope R_scope.

Lemma sum_flags_from {A : Type} (f : A -> bool) (l : list A) (a : R) :
  fold_left Np.add (map (fun x => Np.of_bool (f x)) l) (Np.Fin a) =
  Np.Fin (a + INR (length (filter f l))).
Proof.
  revert a. induction l as [|x l IH]; intros a.
  - simpl. f_equal. lra.
  - simpl fold_left. rewrite IH. f_equal. simpl filter.
    destruct (f x).
    + change (length (x :: filter f l)) with (S (length (filter f l))).
      rewrite S_INR. lra.
    + lra.
Qed.

(** The mean of the flags [facts is not None] is the fraction of responses
    that have facts. *)
Lemma mean_responded {A : Type} (l : list (option A)) :
  l <> [] ->
  Np.mean (map (fun facts => Np.of_bool (is_not_None facts)) l) =
  Np.Fin (INR (num_responded l) / INR (length l)).
Proof.
  intros Hne. rewrite mean_nonempty by (destruct l; [contradiction | discriminate]).
  unfold Np.sum, num_responded.
  rewrite sum_flags_from, length_map, Rplus_0_l. reflexivity.
Qed.

Lemma zip3_snd {A B C : Type} (xs : list A) (ys : list B) (zs : list C) :
  length xs = length zs -> length ys = length zs ->
  map snd (zip3 xs ys zs) = zs.
Proof.
  revert ys zs. induction xs as [|x xs IH]; intros [|y ys] [|z zs] Hx Hy;
    try discriminate; [reflexivity|].
  simpl. f_equal. apply IH; simpl in *; lia.
Qed.

Lemma check_arguments_lengths (topics generations : str_or_list)
    (ts gs : list string) (tr : list event) :
  check_arguments topics generations = (Ok (ts, gs), tr) ->
  length ts = length gs /\ tr = [].
Proof.
  unfold check_arguments. destruct topics as [t|lt], generations as [g|lg];
    try discriminate.
  - intros H. inversion H. split; reflexivity.
  - destruct (length lt =? length lg)%nat eqn:E; [|discriminate].
    intros H. inversion H; subst. apply Nat.eqb_eq in E. split; [exact E | reflexivity].
Qed.

Lemma obtain_atomic_facts_length (W : World) (self : FactScorer)
    (ts gs : list string) (atomic_facts : option (list (option (list string))))
    (afs : list (option (list string))) (tr : list event) :
  obtain_atomic_facts W self ts gs atomic_facts = (Ok afs, tr) ->
  length afs = length ts.
Proof.
  unfold obtain_atomic_facts. destruct atomic_facts as [supplied|]; intros H.
  - apply bind_Ok_inv in H. destruct H as [[] [t1 [t2 [Hassert [H _]]]]].
    unfold ret in H. inversion H; subst.
    unfold assert in Hassert.
    destruct (length ts =? length afs)%nat eqn:E; [|discriminate].
    apply Nat.eqb_eq in E. now symmetry.
  - apply bind_Ok_inv in H. destruct H as [[] [t1 [t2 [_ [H _]]]]].
    apply bind_Ok_inv in H. destruct H as [afs' [t3 [t4 [_ [H _]]]]].
    apply bind_Ok_inv in H. destruct H as [[] [t5 [t6 [Hassert [H _]]]]].
    apply bind_Ok_inv in H. destruct H as [[] [t7 [t8 [_ [H _]]]]].
    apply bind_Ok_inv in H. destruct H as [[] [t9 [t10 [_ [H _]]]]].
    unfold ret in H. inversion H; subst.
    unfold assert in Hassert.
    destruct (length afs =? length ts)%nat eqn:E; [|discriminate].
    now apply Nat.eqb_eq in E.
Qed.

(** A turn of the scoring loop on a response with facts appends exactly one
    score, and one list of decisions as long as the list of facts. *)
Lemma score_step_Some_inv (self : FactScorer) (gamma : Z) (ks : string)
    (st st1 : acc) (topic generation : string) (facts : list string)
    (tr1 : list event) :
  score_step self gamma ks st (topic, generation, Some facts) = (Ok st1, tr1) ->
  exists ds s,
    length ds = length facts /\
    scores st1 = (scores st ++ [s])%list /\
    acc_decisions st1 = (acc_decisions st ++ [Some ds])%list.
Proof.
  intros H.
  destruct (_get_score self topic generation facts ks None) as [[r|e] tr] eqn:E.
  - destruct (_get_score_decisions _ _ _ _ _ _ _ E) as [ds [-> _]].
    pose proof (_get_score_length _ _ _ _ _ _ _ E) as Hlen.
    destruct (Z.eq_dec gamma 0) as [Hg | Hg].
    + destruct (score_step_unpenalised self gamma ks st _ _ _ _ _ E Hg)
        as [t Hstep].
      rewrite Hstep in H. inversion H; subst st1. simpl. eauto.
    + destruct (penalty gamma (length facts)) as [[p|e] trp] eqn:Hp;
        pose proof (penalty_trace gamma (length facts)) as Htr;
        rewrite Hp in Htr; simpl in Htr; subst trp.
      * destruct (score_step_penalised self gamma ks st _ _ _ _ _ p E Hg Hp)
          as [t Hstep].
        rewrite Hstep in H. inversion H; subst st1. simpl. eauto.
      * rewrite (score_step_division_by_zero self gamma ks st _ _ _ _ _ e
                   E Hg Hp) in H. discriminate.
  - rewrite (score_step_raises self gamma ks st _ _ _ _ _ E) in H. discriminate.
Qed.

Lemma score_loop_cons (self : FactScorer) (gamma : Z) (ks : string)
    (item : string * string * option (list string))
    (rest : list (string * string * option (list string))) (st : acc) :
  score_loop self gamma ks (item :: rest) st =
  bind (score_step self gamma ks st item)
       (fun st' => score_loop self gamma ks rest st').
Proof.
  reflexivity.
Qed.

Lemma score_loop_shape (self : FactScorer) (gamma : Z) (ks : string)
    (items : list (string * string * option (list string))) :
  forall (st st' : acc) (tr : list event),
    score_loop self gamma ks items st = (Ok st', tr) ->
    length (scores st') =
      (length (scores st) + num_responded (map snd items))%nat /\
    exists ds,
      acc_decisions st' = (acc_decisions st ++ ds)%list /\
      map is_not_None ds = map is_not_None (map snd items) /\
      decision_lengths ds = fact_counts (map snd items).
Proof.
  induction items as [|[[topic generation] facts] rest IH]; intros st st' tr H.
  - simpl in H. unfold ret in H. inversion H; subst.
    split; [unfold num_responded; simpl; lia|].
    exists []. now rewrite app_nil_r.
  - rewrite score_loop_cons in H. apply bind_Ok_inv in H.
    destruct H as [st1 [tr1 [tr2 [Hstep [Hrest _]]]]].
    destruct (IH _ _ _ Hrest) as [Hlen [ds [Hds [Hflags Hcounts]]]].
    destruct facts as [facts|].
    + destruct (score_step_Some_inv _ _ _ _ _ _ _ _ _ Hstep)
        as [d [s [Hd [Hs Hacc]]]].
      split.
      * rewrite Hlen, Hs, length_app. unfold num_responded. simpl. lia.
      * exists (Some d :: ds). rewrite Hds, Hacc, <- app_assoc.
        split; [reflexivity|]. simpl. rewrite Hflags, Hcounts, Hd.
        split; reflexivity.
    + rewrite score_step_None in Hstep. inversion Hstep; subst st1.
      simpl in *. split.
      * rewrite Hlen. unfold num_responded. simpl. lia.
      * exists (None :: ds). rewrite Hds, <- app_assoc.
        split; [reflexivity|]. simpl. rewrite Hflags, Hcounts.
        split; reflexivity.
Qed.

End Report.

Section GetScore.
Local Open Scope R_scope.

Variable W : World.
Variable self : FactScorer.

Lemma get_score_inv (topics generations : str_or_list) (gamma : Z)
    (atomic_facts : option (list (option (list string))))
    (knowledge_source : option string) (out : report) (tr : list event) :
  get_score W self topics generations gamma atomic_facts knowledge_source =
    (Ok out, tr) ->
  exists ts gs afs st tr0 tr1,
    check_arguments topics generations = (Ok (ts, gs), []) /\
    obtain_atomic_facts W self ts gs atomic_facts = (Ok afs, tr0) /\
    score_loop self gamma (source_or_default knowledge_source) (zip3 ts gs afs)
               empty_acc =
      (Ok st, tr1) /\
    out =
      {| score := Np.mean (scores st);
         respond_ratio :=
           Np.mean (map (fun facts => Np.of_bool (is_not_None facts)) afs);
         decisions := acc_decisions st;
         num_facts_per_response :=
           Np.mean (decision_lengths (acc_decisions st));
         init_score :=
           if (gamma =? 0)%Z then None else Some (Np.mean (init_scores st)) |}.
Proof.
  unfold get_score. intros H.
  apply bind_Ok_inv in H. destruct H as [[ts gs] [t1 [t2 [Hargs [H _]]]]].
  destruct (check_arguments_lengths _ _ _ _ _ Hargs) as [_ ->].
  apply bind_Ok_inv in H. destruct H as [afs [t3 [t4 [Hafs [H _]]]]].
  apply bind_Ok_inv in H. destruct H as [[] [t5 [t6 [_ [H _]]]]].
  apply bind_Ok_inv in H. destruct H as [st [t7 [t8 [Hloop [H _]]]]].
  apply bind_Ok_inv in H. destruct H as [[] [t9 [t10 [_ [H _]]]]].
  unfold ret in H. inversion H; subst.
  exists ts, gs, afs, st, t3, t7. repeat split; assumption.
Qed.

(** C4: when [get_score] returns a report, the list of per-response scores
    has exactly one entry per response whose atomic facts are not None (a None
    entry adds no score, only a None in [decisions]); [respond_ratio] is the
    fraction of entries that are not None (NaN for an empty batch); and
    [num_facts_per_response] is the mean of the numbers of facts of the
    entries that are not None. *)
Theorem report_excludes_abstained (topics generations : str_or_list)
    (gamma : Z) (atomic_facts : option (list (option (list string))))
    (knowledge_source : option string) (out : report) (tr : list event) :
  get_score W self topics generations gamma atomic_facts knowledge_source =
    (Ok out, tr) ->
  exists ts gs afs st tr0 tr1,
    check_arguments topics generations = (Ok (ts, gs), []) /\
    obtain_atomic_facts W self ts gs atomic_facts = (Ok afs, tr0) /\
    score_loop self gamma (source_or_default knowledge_source) (zip3 ts gs afs)
               empty_acc =
      (Ok st, tr1) /\
    score out = Np.mean (scores st) /\
    length (scores st) = num_responded afs /\
    map is_not_None (decisions out) = map is_not_None afs /\
    respond_ratio out =
      match afs with
      | [] => Np.NaN
      | _ :: _ => Np.Fin (INR (num_responded afs) / INR (length afs))
      end /\
    num_facts_per_response out = Np.mean (fact_counts afs).
Proof.
  intros H.
  destruct (get_score_inv _ _ _ _ _ _ _ H)
    as [ts [gs [afs [st [tr0 [tr1 [Hargs [Hafs [Hloop ->]]]]]]]]].
  exists ts, gs, afs, st, tr0, tr1.
  destruct (check_arguments_lengths _ _ _ _ _ Hargs) as [Hlen _].
  pose proof (obtain_atomic_facts_length _ _ _ _ _ _ _ Hafs) as Hlen'.
  destruct (score_loop_shape _ _ _ _ _ _ _ Hloop)
    as [Hscores [ds [Hds [Hflags Hcounts]]]].
  rewrite zip3_snd in Hscores, Hflags, Hcounts by lia.
  simpl in Hscores, Hds. subst ds.
  repeat split; try assumption; simpl.
  - destruct afs as [|f afs']; [reflexivity|].
    apply mean_responded. discriminate.
  - rewrite Hcounts. reflexivity.
Qed.

End GetScore.

Section ReportExamples.
Local Open Scope R_scope.

(** Example 3: a batch of three responses, the second abstained, the others
    with two supported facts each: the respond ratio is 2/3, two scores enter
    the mean, and the mean number of facts is 2. *)
Lemma report_excludes_abstained_example3 :
  let W := toy_world "True" None 1 (fun g => [g]) apology in
  let afs := [Some ["a"; "b"]; None; Some ["c"; "d"]] in
  exists out tr st tr1,
    get_score W (default_scorer W) (PList ["t1"; "t2"; "t3"])
              (PList ["g1"; "g2"; "g3"]) 10 (Some afs) None = (Ok out, tr) /\
    score_loop (default_scorer W) 10 "enwiki-20230401"
               (zip3 ["t1"; "t2"; "t3"] ["g1"; "g2"; "g3"] afs) empty_acc =
      (Ok st, tr1) /\
    score out = Np.mean (scores st) /\
    length (scores st) = 2%nat /\
    map is_not_None (decisions out) = [true; false; true] /\
    respond_ratio out = Np.Fin (2 / 3) /\
    num_facts_per_response out = Np.Fin 2.
Proof.
  intros W afs.
  destruct (get_score W (default_scorer W) (PList ["t1"; "t2"; "t3"])
              (PList ["g1"; "g2"; "g3"]) 10 (Some afs) None)
    as [[out|e] tr] eqn:E; [|vm_compute in E; discriminate].
  destruct (report_excludes_abstained W (default_scorer W) _ _ _ _ _ _ _ E)
    as [ts [gs [afs' [st [tr0 [tr1 [Hargs [Hafs [Hloop
        [Hscore [Hlen [Hdec [Hratio Hfacts]]]]]]]]]]]]].
  vm_compute in Hargs. inversion Hargs; subst ts gs.
  vm_compute in Hafs. inversion Hafs; subst afs'.
  exists out, tr, st, tr1.
  split; [reflexivity|]. split; [exact Hloop|]. split; [exact Hscore|].
  split; [exact Hlen|]. split; [exact Hdec|]. split.
  - rewrite Hratio. unfold num_responded. simpl. f_equal. field.
  - rewrite Hfacts. unfold fact_counts, Np.mean, Np.sum, Np.of_nat. simpl.
    f_equal. field.
Defined.

End ReportExamples.

(* ================================================================== *)
(** ** Batches without any scored response *)

Lemma zip3_all_None {A B C : Type} (xs : list A) (ys : list B)
    (zs : list (option C)) :
  Forall (fun z => z = None) zs ->
  Forall (fun item => snd item = None) (zip3 xs ys zs).
Proof.
  intros Hz. revert xs ys. induction Hz as [|z zs Hz _ IH]; intros xs ys.
  - destruct xs, ys; constructor.
  - destruct xs as [|x xs], ys as [|y ys]; try constructor; [exact Hz | apply IH].
Qed.

Lemma score_cost_loop_all_None (self : FactScorer) (ks : string)
    (items : list (string * string * option (list string))) (total_words : Z) :
  Forall (fun item => snd item = None) items ->
  score_cost_loop self ks items total_words = (Ok total_words, []).
Proof.
  induction 1 as [|[[t g] f] rest Hf _ IH]; [reflexivity|].
  simpl in Hf. subst f. exact IH.
Qed.

Lemma score_loop_all_None (self : FactScorer) (gamma : Z) (ks : string)
    (items : list (string * string * option (list string))) :
  Forall (fun item => snd item = None) items ->
  forall st,
    score_loop self gamma ks items st =
    (Ok {| scores := scores st;
           init_scores := init_scores st;
           acc_decisions :=
             (acc_decisions st ++ map (fun _ => None) items)%list |}, []).
Proof.
  induction 1 as [|[[t g] f] rest Hf _ IH]; intros st.
  - simpl. rewrite app_nil_r. now destruct st.
  - simpl in Hf. subst f. rewrite score_loop_cons, score_step_None.
    simpl bind. rewrite IH. simpl. rewrite <- app_assoc. reflexivity.
Qed.

Lemma decision_lengths_all_None {A : Type} (items : list A) :
  decision_lengths (map (fun _ => None) items) = [].
Proof.
  induction items; [reflexivity | exact IHitems].
Qed.

(** C10: when the arguments pass the checks and every entry of the atomic
    facts is None (every response abstained, or the batch is empty),
    [get_score] returns a report, it does not raise, and the fields [score]
    and [num_facts_per_response] of the report are NaN, the mean of an empty
    sequence. *)
Theorem all_abstained_report_is_nan (W : World) (self : FactScorer)
    (topics generations : str_or_list) (gamma : Z)
    (atomic_facts : option (list (option (list string))))
    (knowledge_source : option string) (ts gs : list string)
    (afs : list (option (list string))) (tr0 : list event) :
  check_arguments topics generations = (Ok (ts, gs), []) ->
  obtain_atomic_facts W self ts gs atomic_facts = (Ok afs, tr0) ->
  Forall (fun facts => facts = None) afs ->
  exists out tr,
    get_score W self topics generations gamma atomic_facts knowledge_source =
      (Ok out, tr) /\
    score out = Np.NaN /\
    num_facts_per_response out = Np.NaN.
Proof.
  intros Hargs Hafs Hnone.
  pose proof (zip3_all_None ts gs afs Hnone) as Hitems.
  unfold get_score. rewrite (bind_Ok _ _ _ _ Hargs). cbv beta iota.
  rewrite (bind_Ok _ _ _ _ Hafs). cbv beta.
  rewrite (score_cost_loop_all_None self _ _ 0%Z Hitems).
  rewrite (score_loop_all_None self gamma _ _ Hitems empty_acc).
  destruct (contains "ChatGPT" (model_name self)); simpl;
    rewrite decision_lengths_all_None; eexists; eexists;
    (split; [reflexivity | split; reflexivity]).
Qed.

Lemma all_abstained_report_is_nan_example :
  let W := toy_world "True" None 1 (fun g => [g]) apology in
  let self := __init__ W "Llama-3.1-8B-Instruct" "Llama-3.1-8B-Instruct"
                       true true (Some "consider_cache") (Some "generic") in
  (exists out tr,
      get_score W self (PList ["t1"; "t2"]) (PList [apology; apology]) 10 None None =
        (Ok out, tr) /\
      score out = Np.NaN /\ num_facts_per_response out = Np.NaN) /\
  (exists out tr,
      get_score W self (PList []) (PList []) 10 None None = (Ok out, tr) /\
      score out = Np.NaN /\ num_facts_per_response out = Np.NaN).
Proof.
  intros W self. split.
  - apply (all_abstained_report_is_nan W self (PList ["t1"; "t2"])
             (PList [apology; apology]) 10 None None ["t1"; "t2"] [apology; apology]
             [None; None] [AfgSaveCache; AfgUnloadModel]).
    + vm_compute. reflexivity.
    + vm_compute. reflexivity.
    + repeat constructor.
  - apply (all_abstained_report_is_nan W self (PList []) (PList []) 10 None
             None [] [] [] [AfgSaveCache; AfgUnloadModel]).
    + vm_compute. reflexivity.
    + vm_compute. reflexivity.
    + constructor.
Defined.

(* ================================================================== *)
(** ** The schedule of cache flushes *)

(** C9, the decomposition loop at a batch whose tenth and twentieth
    generations are abstentions: the loop returns the twenty entries after
    eighteen calls of the generator and no flush in between, so a stop just
    before the final flush leaves eighteen decompositions unflushed. *)
Theorem decomposition_flush_skipped_after_abstention :
  let W := toy_world "True" None 1 (fun g => [g]) apology in
  let self := __init__ W "Llama-3.1-8B-Instruct" "Llama-3.1-8B-Instruct"
                       true true (Some "consider_cache") (Some "generic") in
  exists afs,
    decompose_loop W self (combine batch20 batch20) [] =
      (Ok afs, map AfgRun (filter (fun g => negb (g =? apology)) batch20)) /\
    length afs = 20%nat /\
    nth 9 afs (Some []) = None /\
    obtain_atomic_facts W self batch20 batch20 None =
      (Ok afs,
       (map AfgRun (filter (fun g => negb (g =? apology)) batch20)
        ++ [AfgSaveCache; AfgUnloadModel])%list) /\
    unflushed_decompositions
      (map AfgRun (filter (fun g => negb (g =? apology)) batch20)) = 18%nat.
Proof.
  intros W self. eexists. split; [vm_compute; reflexivity|].
  repeat split; vm_compute; reflexivity.
Qed.

(** *** The scoring loop flushes after every tenth scored response *)

Lemma pending_from_app (work flush : event -> bool) (a b : list event) (n : nat) :
  pending_from work flush (a ++ b) n =
  pending_from work flush b (pending_from work flush a n).
Proof.
  revert n. induction a as [|ev a IH]; intros n; [reflexivity|].
  simpl. destruct (flush ev); [apply IH|]. destruct (work ev); apply IH.
Qed.

Lemma pending_from_quiet (l : list event) (n : nat) :
  Forall (fun ev => quiet ev = true) l ->
  pending_from is_GetScoreCall is_SaveCache l n = n.
Proof.
  induction 1 as [|ev l Hev _ IH]; [reflexivity|].
  simpl. unfold quiet in Hev. apply andb_true_iff in Hev.
  destruct Hev as [Hw Hf]. apply negb_true_iff in Hw, Hf.
  now rewrite Hf, Hw.
Qed.

Lemma prefix_of_app {A : Type} (p q a b : list A) :
  (a ++ b = p ++ q)%list ->
  (exists q', a = p ++ q')%list \/ (exists p', p = a ++ p' /\ b = p' ++ q)%list.
Proof.
  revert p. induction a as [|x a IH]; intros p H.
  - right. exists p. now split.
  - destruct p as [|y p].
    + left. now exists (x :: a).
    + simpl in H. inversion H; subst y.
      destruct (IH p H2) as [[q' ->] | [p' [-> ->]]].
      * left. now exists q'.
      * right. exists p'. now split.
Qed.

Lemma Forall_prefix {A : Type} (P : A -> Prop) (p q : list A) :
  Forall P (p ++ q) -> Forall P p.
Proof.
  intros H. apply Forall_app in H. tauto.
Qed.

Lemma verify_None_quiet (self : FactScorer) (topic ks : string) (tw : Z)
    (atom : string) :
  Forall (fun ev => quiet ev = true) (snd (verify self topic ks None tw atom)).
Proof.
  apply Forall_forall. intros ev Hin.
  destruct (verify_None_trace _ _ _ _ _ _ Hin) as [-> | [p ->]]; reflexivity.
Qed.

Lemma _get_score_step_quiet (self : FactScorer) (topic ks : string)
    (st : list decision * Z) (atom0 : string) :
  Forall (fun ev => quiet ev = true)
         (snd (_get_score_step self topic ks None st atom0)).
Proof.
  destruct st as [ds tw].
  pose proof (verify_None_quiet self topic ks tw (strip atom0)) as Hq.
  destruct (verify self topic ks None tw (strip atom0)) as [[v|e] tr] eqn:Hv.
  - destruct (verify_None_verdict _ _ _ _ _ _ _ Hv) as [b ->].
    rewrite (_get_score_step_verdict _ _ _ _ _ _ _ _ _ Hv). simpl in *.
    apply Forall_app. split; [exact Hq|].
    destruct (b && npm_enabled self); repeat constructor.
  - unfold _get_score_step. rewrite (bind_Raise _ _ _ _ Hv). exact Hq.
Qed.

Lemma _get_score_loop_quiet (self : FactScorer) (topic ks : string)
    (facts : list string) :
  forall st,
    Forall (fun ev => quiet ev = true)
           (snd (_get_score_loop self topic ks None facts st)).
Proof.
  induction facts as [|atom0 rest IH]; intros st; [constructor|].
  rewrite _get_score_loop_cons, snd_bind. apply Forall_app. split.
  - apply _get_score_step_quiet.
  - destruct (fst (_get_score_step self topic ks None st atom0));
      [apply IH | constructor].
Qed.

(** The trace of [_get_score] is its own call followed by quiet calls. *)
Lemma _get_score_trace (self : FactScorer) (topic generation : string)
    (facts : list string) (ks : string) :
  exists inner,
    snd (_get_score self topic generation facts ks None) =
      GetScoreCall topic generation :: inner /\
    Forall (fun ev => quiet ev = true) inner.
Proof.
  unfold _get_score. rewrite snd_bind. simpl fst. cbv iota.
  rewrite snd_bind. eexists. split; [reflexivity|].
  apply Forall_app. split; [apply _get_score_loop_quiet|].
  destruct (fst (_get_score_loop self topic ks None facts ([], 0%Z)));
    constructor.
Qed.

Lemma succ_mod_10 (len : nat) :
  (S len mod 10 =? 0)%nat = false -> S len mod 10 = S (len mod 10).
Proof.
  intros H. apply Nat.eqb_neq in H.
  pose proof (Nat.div_mod_eq len 10) as Hl.
  pose proof (Nat.mod_upper_bound len 10) as Hb.
  destruct (Nat.eq_dec (len mod 10) 9) as [H9 | H9].
  - exfalso. apply H.
    symmetry. apply (Nat.mod_unique (S len) 10 (S (len / 10)) 0); lia.
  - symmetry. apply (Nat.mod_unique (S len) 10 (len / 10) (S (len mod 10))); lia.
Qed.

Lemma pending_response (topic generation : string) (inner tail : list event)
    (n : nat) :
  Forall (fun ev => quiet ev = true) inner ->
  pending_from is_GetScoreCall is_SaveCache
    (GetScoreCall topic generation :: inner ++ tail) n =
  pending_from is_GetScoreCall is_SaveCache tail (S n).
Proof.
  intros Hq.
  change (pending_from is_GetScoreCall is_SaveCache (inner ++ tail) (S n) =
          pending_from is_GetScoreCall is_SaveCache tail (S n)).
  rewrite pending_from_app. rewrite (pending_from_quiet inner) by exact Hq.
  reflexivity.
Qed.

Lemma pending_prefix_response (topic generation : string)
    (inner tail p q : list event) (n : nat) :
  Forall (fun ev => quiet ev = true) inner ->
  tail = [] \/ tail = [SaveCache] ->
  (GetScoreCall topic generation :: inner ++ tail = p ++ q)%list ->
  (n < 10)%nat ->
  (pending_from is_GetScoreCall is_SaveCache p n <= 10)%nat.
Proof.
  intros Hq Htail Heq Hn. destruct p as [|ev p]; [simpl; lia|].
  simpl in Heq. inversion Heq as [[Hev Hrest]]. subst ev. simpl.
  destruct (prefix_of_app _ _ _ _ Hrest) as [[q' ->] | [p' [-> Ht]]].
  - apply Forall_prefix in Hq. rewrite (pending_from_quiet p) by exact Hq. lia.
  - rewrite pending_from_app, (pending_from_quiet inner) by exact Hq.
    destruct Htail as [-> | ->].
    + destruct p'; [simpl; lia | discriminate].
    + destruct p' as [|ev p']; [simpl; lia|].
      inversion Ht as [[Hev Hnil]]. subst ev.
      destruct p'; [simpl; lia | discriminate].
Qed.

Section FlushSchedule.

Variable self : FactScorer.
Variable gamma : Z.
Variable ks : string.

Lemma record_score_schedule (st : acc) (facts : list string)
    (ds : list decision) :
  match fst (record_score gamma st facts ds) with
  | Ok st1 =>
      length (scores st1) = S (length (scores st)) /\
      snd (record_score gamma st facts ds) =
        (if (length (scores st1) mod 10 =? 0)%nat then [SaveCache] else [])
  | Raise _ => snd (record_score gamma st facts ds) = []
  end.
Proof.
  destruct (Z.eq_dec gamma 0) as [Hg | Hg].
  - rewrite (record_score_unpenalised gamma st facts ds Hg). simpl.
    rewrite length_app. simpl. split; [lia | reflexivity].
  - destruct (penalty gamma (length facts)) as [[p|e] trp] eqn:Hp;
      pose proof (penalty_trace gamma (length facts)) as Htr;
      rewrite Hp in Htr; simpl in Htr; subst trp.
    + rewrite (record_score_penalised gamma st facts ds p Hg Hp). simpl.
      rewrite length_app. simpl. split; [lia | reflexivity].
    + rewrite (record_score_raises gamma st facts ds e Hg Hp). reflexivity.
Qed.

(** The trace of one turn: nothing for a response without facts; otherwise
    the call of [_get_score], its quiet calls, and a flush exactly when the
    number of scores has reached a multiple of ten. *)
Lemma score_step_trace (st : acc)
    (item : string * string * option (list string)) :
  (snd (score_step self gamma ks st item) = [] /\
   forall st1, fst (score_step self gamma ks st item) = Ok st1 ->
               length (scores st1) = length (scores st)) \/
  (exists topic generation inner tail,
      snd (score_step self gamma ks st item) =
        (GetScoreCall topic generation :: inner ++ tail)%list /\
      Forall (fun ev => quiet ev = true) inner /\
      (tail = [] \/ tail = [SaveCache]) /\
      forall st1, fst (score_step self gamma ks st item) = Ok st1 ->
                  length (scores st1) = S (length (scores st)) /\
                  tail = (if (length (scores st1) mod 10 =? 0)%nat
                          then [SaveCache] else [])).
Proof.
  destruct item as [[topic generation] [facts|]].
  - right.
    destruct (_get_score_trace self topic generation facts ks)
      as [inner [Htr Hq]].
    destruct (_get_score self topic generation facts ks None)
      as [[r|e] tr] eqn:E; simpl in Htr; subst tr.
    + destruct (_get_score_decisions _ _ _ _ _ _ _ E) as [ds [-> _]].
      rewrite (score_step_Some self gamma ks st _ _ _ _ _ E).
      pose proof (record_score_schedule st facts ds) as Hrec.
      exists topic, generation, inner, (snd (record_score gamma st facts ds)).
      split; [reflexivity|]. split; [exact Hq|].
      destruct (fst (record_score gamma st facts ds)) as [st1|e] eqn:Ef.
      * destruct Hrec as [Hlen Htail]. split.
        -- rewrite Htail.
           destruct (length (scores st1) mod 10 =? 0)%nat; auto.
        -- simpl. intros st2 H2. inversion H2; subst st2. now split.
      * split; [now left|]. simpl. intros st2 H2. discriminate.
    + rewrite (score_step_raises self gamma ks st _ _ _ _ _ E).
      exists topic, generation, inner, []. rewrite app_nil_r.
      split; [reflexivity|]. split; [exact Hq|]. split; [now left|].
      simpl. intros st2 H2. discriminate.
  - left. rewrite score_step_None. simpl. split; [reflexivity|].
    intros st1 H. inversion H. reflexivity.
Qed.

Lemma score_step_pending (st st1 : acc)
    (item : string * string * option (list string)) :
  fst (score_step self gamma ks st item) = Ok st1 ->
  pending_from is_GetScoreCall is_SaveCache
    (snd (score_step self gamma ks st item)) (length (scores st) mod 10) =
  length (scores st1) mod 10.
Proof.
  intros Hok.
  destruct (score_step_trace st item)
    as [[Htr Hlen] | [t [g [inner [tail [Htr [Hq [_ Hst]]]]]]]].
  - rewrite Htr, (Hlen st1 Hok). reflexivity.
  - destruct (Hst st1 Hok) as [Hlen Htail].
    rewrite Htr, pending_response by exact Hq. rewrite Htail.
    destruct (length (scores st1) mod 10 =? 0)%nat eqn:E.
    + change (0%nat = length (scores st1) mod 10).
      apply Nat.eqb_eq in E. now rewrite E.
    + change (S (length (scores st) mod 10) = length (scores st1) mod 10).
      rewrite Hlen in *. symmetry. now apply succ_mod_10.
Qed.

Lemma score_step_prefix (st : acc)
    (item : string * string * option (list string)) (p q : list event) :
  snd (score_step self gamma ks st item) = (p ++ q)%list ->
  (pending_from is_GetScoreCall is_SaveCache p (length (scores st) mod 10)
   <= 10)%nat.
Proof.
  intros Hpq.
  pose proof (Nat.mod_upper_bound (length (scores st)) 10) as Hb.
  destruct (score_step_trace st item)
    as [[Htr _] | [t [g [inner [tail [Htr [Hq [Htail _]]]]]]]].
  - rewrite Htr in Hpq. symmetry in Hpq. apply app_eq_nil in Hpq.
    destruct Hpq as [-> _].
    change (length (scores st) mod 10 <= 10)%nat. lia.
  - rewrite Htr in Hpq.
    apply (pending_prefix_response t g inner tail p q); auto; lia.
Qed.

(** After any number of turns the responses scored since the last flush are
    the number of scores modulo ten: at most nine. *)
Lemma score_loop_pending
    (items : list (string * string * option (list string))) :
  forall (st st' : acc) (tr : list event),
    score_loop self gamma ks items st = (Ok st', tr) ->
    pending_from is_GetScoreCall is_SaveCache tr (length (scores st) mod 10) =
    length (scores st') mod 10.
Proof.
  induction items as [|item rest IH]; intros st st' tr H.
  - simpl in H. unfold ret in H. inversion H; subst. reflexivity.
  - rewrite score_loop_cons in H. apply bind_Ok_inv in H.
    destruct H as [st1 [tr1 [tr2 [Hstep [Hrest ->]]]]].
    rewrite pending_from_app.
    pose proof (score_step_pending st st1 item) as Hp.
    rewrite Hstep in Hp. cbn [fst snd] in Hp. rewrite (Hp eq_refl).
    exact (IH _ _ _ Hrest).
Qed.

(** Wherever the scoring loop stops, at most ten responses have been handed to
    [_get_score] since the last flush, the tenth being the one in progress. *)
Lemma score_loop_prefix
    (items : list (string * string * option (list string))) :
  forall (st : acc) (p q : list event),
    snd (score_loop self gamma ks items st) = (p ++ q)%list ->
    (pending_from is_GetScoreCall is_SaveCache p (length (scores st) mod 10)
     <= 10)%nat.
Proof.
  induction items as [|item rest IH]; intros st p q Hpq.
  - simpl in Hpq. symmetry in Hpq. apply app_eq_nil in Hpq.
    destruct Hpq as [-> _].
    change (length (scores st) mod 10 <= 10)%nat.
    pose proof (Nat.mod_upper_bound (length (scores st)) 10). lia.
  - rewrite score_loop_cons, snd_bind in Hpq.
    destruct (prefix_of_app _ _ _ _ Hpq) as [[q' Hq'] | [p' [-> Hrest]]].
    + exact (score_step_prefix st item p q' Hq').
    + rewrite pending_from_app.
      destruct (fst (score_step self gamma ks st item)) as [st1|e] eqn:Ef.
      * rewrite (score_step_pending st st1 item Ef).
        exact (IH st1 p' q Hrest).
      * symmetry in Hrest. apply app_eq_nil in Hrest.
        destruct Hrest as [-> _].
        change (pending_from is_GetScoreCall is_SaveCache
                  (snd (score_step self gamma ks st item))
                  (length (scores st) mod 10) <= 10)%nat.
        apply (score_step_prefix st item
                 (snd (score_step self gamma ks st item)) []).
        now rewrite app_nil_r.
Qed.

(** The scoring loop, the sibling of the decomposition loop, keeps the
    schedule: from the empty accumulators, wherever the run stops at most ten
    responses are unflushed (nine finished and the one in progress), and
    after the loop at most nine. *)
Lemma score_loop_flush_schedule
    (items : list (string * string * option (list string))) :
  (forall p q,
      snd (score_loop self gamma ks items empty_acc) = (p ++ q)%list ->
      (unflushed_responses p <= 10)%nat) /\
  (forall st tr,
      score_loop self gamma ks items empty_acc = (Ok st, tr) ->
      (unflushed_responses tr <= 9)%nat).
Proof.
  split.
  - intros p q Hpq. exact (score_loop_prefix items empty_acc p q Hpq).
  - intros st tr H. unfold unflushed_responses.
    pose proof (score_loop_pending items empty_acc st tr H) as Hp.
    change (length (scores empty_acc) mod 10) with 0%nat in Hp. rewrite Hp.
    pose proof (Nat.mod_upper_bound (length (scores st)) 10). lia.
Qed.

End FlushSchedule.


(* ================================================================== *)
(** ** Whitespace stripping *)

Lemma last_char_Some (c : ascii) (s : string) :
  exists d, last_char (String c s) = Some d.
Proof.
  revert c. induction s as [|e s IH]; intros c.
  - now exists c.
  - destruct (IH e) as [d Hd]. exists d. exact Hd.
Qed.

Lemma last_char_append (s : string) (c : ascii) :
  last_char (s ++ String c EmptyString) = Some c.
Proof.
  induction s as [|d s IH]; [reflexivity|].
  simpl append. destruct (s ++ String c EmptyString) eqn:E.
  - destruct s; discriminate.
  - exact IH.
Qed.

Lemma punctuation_not_space (c : ascii) :
  in_punctuation c = true -> isspace c = false.
Proof.
  destruct c as [[] [] [] [] [] [] [] []]; vm_compute; congruence.
Qed.

Lemma rstrip_keeps (s : string) (c : ascii) :
  last_char s = Some c -> isspace c = false -> rstrip s = s.
Proof.
  induction s as [|d s IH]; intros Hl Hc; [discriminate|].
  destruct s as [|e s].
  - simpl in Hl. inversion Hl; subst d. simpl. now rewrite Hc.
  - change (last_char (String e s) = Some c) in Hl.
    simpl rstrip. specialize (IH Hl Hc).
    change (match rstrip (String e s) with
            | EmptyString =>
                if isspace d then EmptyString else String d EmptyString
            | String a r => String d (String a r)
            end = String d (String e s)).
    now rewrite IH.
Qed.

Lemma rstrip_idempotent (s : string) : rstrip (rstrip s) = rstrip s.
Proof.
  induction s as [|c s IH]; [reflexivity|].
  simpl. destruct (rstrip s) as [|d r] eqn:E.
  - destruct (isspace c) eqn:Hc; [reflexivity|]. simpl. now rewrite Hc.
  - change (rstrip (String c (String d r)) = String c (String d r)).
    simpl rstrip.
    change (match rstrip (String d r) with
            | EmptyString =>
                if isspace c then EmptyString else String c EmptyString
            | String a r0 => String c (String a r0)
            end = String c (String d r)).
    now rewrite IH.
Qed.

Lemma lstrip_head (s : string) :
  match lstrip s with
  | EmptyString => True
  | String c _ => isspace c = false
  end.
Proof.
  induction s as [|c s IH]; [exact I|].
  simpl. destruct (isspace c) eqn:Hc; [exact IH | exact Hc].
Qed.

Lemma rstrip_head (c : ascii) (s : string) :
  isspace c = false -> exists r, rstrip (String c s) = String c r.
Proof.
  intros Hc. simpl. destruct (rstrip s).
  - rewrite Hc. now eexists.
  - now eexists.
Qed.

Lemma strip_idempotent (s : string) : strip (strip s) = strip s.
Proof.
  unfold strip. pose proof (lstrip_head s) as Hh.
  destruct (lstrip s) as [|c t] eqn:E; [reflexivity|].
  destruct (rstrip_head c t Hh) as [r Hr]. rewrite Hr.
  simpl lstrip. rewrite Hh. rewrite <- Hr. apply rstrip_idempotent.
Qed.

Lemma strip_keeps (c : ascii) (s : string) (d : ascii) :
  isspace c = false -> last_char (String c s) = Some d -> isspace d = false ->
  strip (String c s) = String c s.
Proof.
  intros Hc Hl Hd. unfold strip. simpl lstrip. rewrite Hc.
  now apply (rstrip_keeps _ d).
Qed.

(* ================================================================== *)
(** ** The prompt of the verification step *)

Lemma append_assoc (a b c : string) : (a ++ b) ++ c = a ++ b ++ c.
Proof.
  induction a as [|x a IH]; [reflexivity|]. simpl. now rewrite IH.
Qed.

Lemma append_nil_r (a : string) : a ++ EmptyString = a.
Proof.
  induction a as [|x a IH]; [reflexivity|]. simpl. now rewrite IH.
Qed.

Lemma substring_append (p s : string) :
  substring 0 (String.length p) (p ++ s) = p.
Proof.
  induction p as [|x p IH]; simpl.
  - now destruct s.
  - now rewrite IH.
Qed.

Lemma prefix_append (p s : string) : String.prefix p (p ++ s) = true.
Proof.
  apply prefix_correct. apply substring_append.
Qed.

Lemma build_prompt_shape (topic atom : string) (passages : list passage) :
  exists grounding c,
    build_prompt topic atom passages = (Ok (grounding ++ question atom), []) /\
    String.prefix ("Answer the question about " ++ topic) grounding = true /\
    last_char grounding = Some c /\
    in_punctuation c = true.
Proof.
  unfold build_prompt.
  set (context := fold_left (fun context psg => context ++ format_passage psg)
                            (rev passages) EmptyString).
  set (rest := " based on the given context." ++ nl ++ nl).
  assert (Hd : ("Answer the question about " ++ topic ++ rest) ++ strip context
               = ("Answer the question about " ++ topic)
                 ++ rest ++ strip context).
  { rewrite <- !append_assoc. reflexivity. }
  rewrite Hd. clear Hd.
  set (body := rest ++ strip context).
  set (D := ("Answer the question about " ++ topic) ++ body).
  assert (HA : exists t, D = String "A" t) by (unfold D; simpl; eauto).
  destruct HA as [t Ht].
  destruct (last_char_Some "A" t) as [c Hc]. rewrite <- Ht in Hc.
  rewrite Hc. destruct (in_punctuation c) eqn:Hp.
  - exists D, c. split; [|split; [apply prefix_append | now split]].
    unfold ret, question. rewrite Ht, (strip_keeps "A" t c); try reflexivity.
    + now rewrite <- Ht.
    + now apply punctuation_not_space.
  - exists (D ++ "."), "."%char.
    assert (Hl : last_char (D ++ ".") = Some "."%char) by apply last_char_append.
    split; [|split; [|now split]].
    + unfold ret, question. rewrite Ht in *. simpl append in Hl |- *.
      rewrite (strip_keeps "A" (t ++ ".") "."); try reflexivity. exact Hl.
    + unfold D. rewrite append_assoc. apply prefix_append.
Qed.

Lemma _get_score_loop_strip (self : FactScorer) (topic ks : string)
    (cost : option string) (facts : list string) :
  forall st,
    _get_score_loop self topic ks cost (map strip facts) st =
    _get_score_loop self topic ks cost facts st.
Proof.
  induction facts as [|atom0 rest IH]; intros st; [reflexivity|].
  simpl map. rewrite !_get_score_loop_cons.
  assert (Hstep : _get_score_step self topic ks cost st (strip atom0) =
                  _get_score_step self topic ks cost st atom0).
  { unfold _get_score_step. destruct st as [ds tw].
    now rewrite strip_idempotent. }
  rewrite Hstep. apply bind_ext. exact IH.
Qed.

(** X1: building the prompt never raises (the last character read at line 253
    always exists); the prompt is a grounding text followed by the question
    about the stripped fact; the grounding text starts with the instruction
    naming the topic and always ends with a punctuation mark. *)
Theorem build_prompt_grounded (topic atom : string) (passages : list passage) :
  exists grounding c,
    build_prompt topic atom passages = (Ok (grounding ++ question atom), []) /\
    String.prefix ("Answer the question about " ++ topic) grounding = true /\
    last_char grounding = Some c /\
    in_punctuation c = true.
Proof.
  exact (build_prompt_shape topic atom passages).
Qed.

(** X2: [_get_score] reads each atomic fact through [strip] only: stripping
    the facts beforehand changes neither the value returned nor the calls
    made, in either mode. *)
Theorem _get_score_ignores_outer_whitespace (self : FactScorer)
    (topic generation : string) (facts : list string) (ks : string)
    (cost : option string) :
  _get_score self topic generation (map strip facts) ks cost =
  _get_score self topic generation facts ks cost.
Proof.
  unfold _get_score. apply bind_ext. intros _.
  now rewrite _get_score_loop_strip.
Qed.

(* ================================================================== *)
(** ** What the verification step can raise and which calls it makes *)

Lemma build_prompt_returns (topic atom : string) (passages : list passage) :
  exists prompt, build_prompt topic atom passages = (Ok prompt, []).
Proof.
  destruct (build_prompt_shape topic atom passages) as [g [c [H _]]]. eauto.
Qed.

Lemma resolve_text_returns (output0 : string) :
  exists b, resolve_text output0 = (Ok b, []).
Proof.
  unfold resolve_text, index.
  destruct (contains "true" (lower output0)) eqn:Ht;
    destruct (contains "false" (lower output0)) eqn:Hf; simpl;
    try (eexists; reflexivity).
  destruct (contains_find _ _ Ht) as [i ->].
  destruct (contains_find _ _ Hf) as [j ->].
  eexists. reflexivity.
Qed.

Lemma resolve_answer_outcome (self : FactScorer)
    (output : string * option (list Q)) :
  (exists b, resolve_answer self output = (Ok b, [])) \/
  (resolve_answer self output = (Raise AssertionError, []) /\
   contains "Llama-3.1-8B-Instruct" (model_name self) = false /\
   exists logits,
     snd output = Some logits /\
     Z.of_nat (length logits) <> 32000%Z /\
     Z.of_nat (length logits) <> 32001%Z).
Proof.
  unfold resolve_answer. destruct (snd output) as [logits|].
  - destruct (contains "Llama-3.1-8B-Instruct" (model_name self)) eqn:Hn;
      simpl negb; cbv iota.
    + left. apply resolve_text_returns.
    + unfold resolve_logits.
      destruct (Z.of_nat (length logits) =? 32000)%Z eqn:E0;
        [left; eexists; reflexivity|].
      destruct (Z.of_nat (length logits) =? 32001)%Z eqn:E1;
        [left; eexists; reflexivity|].
      right. split; [reflexivity|]. split; [reflexivity|].
      exists logits. apply Z.eqb_neq in E0, E1. now repeat split.
  - left. apply resolve_text_returns.
Qed.

(** The two ways the verification step ends when a model is configured. *)
Lemma verify_with_model (self : FactScorer) (model : LM) (topic ks : string)
    (cost : option string) (tw : Z) (atom : string) :
  lm self = Some model ->
  exists prompt,
    build_prompt topic atom
      (get_passages (retrieval self ks) topic atom 5) = (Ok prompt, []) /\
    if truthy cost then
      exists w,
        verify self topic ks cost tw atom =
          (Ok (inl w), [GetPassages ks topic atom]) /\
        (tw <= w <= tw + word_count prompt)%Z /\
        (cost = Some "ignore_cache" -> w = (tw + word_count prompt)%Z) /\
        (cost = Some "consider_cache" ->
         w = if mem (strip prompt ++ "_0") (cache_dict model)
             then tw else (tw + word_count prompt)%Z) /\
        (cost <> Some "ignore_cache" -> cost <> Some "consider_cache" -> w = tw)
    else
      verify self topic ks cost tw atom =
        (match fst (resolve_answer self (generate model prompt)) with
         | Ok b => Ok (inr b)
         | Raise e => Raise e
         end,
         [GetPassages ks topic atom; LmGenerate prompt]).
Proof.
  intros Hlm.
  destruct (build_prompt_returns topic atom
              (get_passages (retrieval self ks) topic atom 5)) as [prompt Hp].
  exists prompt. split; [exact Hp|].
  assert (Hwc : (0 <= word_count prompt)%Z) by (unfold word_count; lia).
  unfold verify. rewrite Hlm. simpl bind at 1.
  destruct (truthy cost) eqn:Hc.
  - rewrite Hp. simpl bind.
    destruct cost as [c|]; [|discriminate].
    destruct (c =? "consider_cache") eqn:Econs.
    + apply String.eqb_eq in Econs. subst c.
      destruct (mem (strip prompt ++ "_0") (cache_dict model)); simpl.
      * eexists. split; [reflexivity|]. split; [lia|].
        split; [discriminate|]. split; [reflexivity|]. congruence.
      * eexists. split; [reflexivity|]. split; [lia|].
        split; [discriminate|]. split; [reflexivity|]. congruence.
    + simpl andb. cbv iota. destruct (c =? "ignore_cache") eqn:Eign.
      * apply String.eqb_eq in Eign. subst c. simpl.
        eexists. split; [reflexivity|]. split; [lia|].
        split; [reflexivity|]. split; [discriminate|]. congruence.
      * simpl. eexists. split; [reflexivity|]. split; [lia|].
        apply String.eqb_neq in Econs, Eign.
        split; [congruence|]. split; [congruence | reflexivity].
  - rewrite Hp. simpl bind.
    pose proof (resolve_answer_trace self (generate model prompt)) as Htr.
    destruct (resolve_answer self (generate model prompt)) as [[b|e] tr];
      simpl in Htr; subst tr; reflexivity.
Qed.

Lemma _get_score_step_continue (self : FactScorer) (topic ks : string)
    (cost : option string) (ds : list decision) (tw w : Z) (atom0 : string)
    (tr : list event) :
  verify self topic ks cost tw (strip atom0) = (Ok (inl w), tr) ->
  _get_score_step self topic ks cost (ds, tw) atom0 = (Ok (ds, w), tr).
Proof.
  intros Hv. unfold _get_score_step. rewrite (bind_Ok _ _ _ _ Hv).
  simpl. now rewrite app_nil_r.
Qed.

Lemma _get_score_step_fails (self : FactScorer) (topic ks : string)
    (cost : option string) (ds : list decision) (tw : Z) (atom0 : string)
    (e : exn) (tr : list event) :
  verify self topic ks cost tw (strip atom0) = (Raise e, tr) ->
  _get_score_step self topic ks cost (ds, tw) atom0 = (Raise e, tr).
Proof.
  intros Hv. unfold _get_score_step. now rewrite (bind_Raise _ _ _ _ Hv).
Qed.

Lemma _get_score_unfold (self : FactScorer) (topic generation : string)
    (facts : list string) (ks : string) (cost : option string) :
  _get_score self topic generation facts ks cost =
  (match fst (_get_score_loop self topic ks cost facts ([], 0%Z)) with
   | Ok st => Ok (if truthy cost then inl (snd st) else inr (fst st))
   | Raise e => Raise e
   end,
   GetScoreCall topic generation
   :: snd (_get_score_loop self topic ks cost facts ([], 0%Z))).
Proof.
  unfold _get_score.
  destruct (_get_score_loop self topic ks cost facts ([], 0%Z))
    as [[st|e] tr]; simpl.
  - destruct (truthy cost); simpl; now rewrite app_nil_r.
  - reflexivity.
Qed.

Lemma _get_score_loop_cost (self : FactScorer) (model : LM)
    (topic ks : string) (cost : option string) (facts : list string) :
  lm self = Some model -> truthy cost = true ->
  forall ds tw,
  exists w,
    _get_score_loop self topic ks cost facts (ds, tw) =
      (Ok (ds, w), map (fun a => GetPassages ks topic (strip a)) facts) /\
    (tw <= w)%Z.
Proof.
  intros Hlm Hc. induction facts as [|atom0 rest IH]; intros ds tw.
  - exists tw. split; [reflexivity | lia].
  - destruct (verify_with_model self model topic ks cost tw (strip atom0) Hlm)
      as [prompt [_ Hv]].
    rewrite Hc in Hv. destruct Hv as [w [Hv [Hw _]]].
    destruct (IH ds w) as [w' [Hloop Hw']].
    exists w'. split; [|lia].
    rewrite _get_score_loop_cons.
    rewrite (bind_Ok _ _ _ _ (_get_score_step_continue _ _ _ _ _ _ _ _ _ Hv)).
    rewrite Hloop. reflexivity.
Qed.

(** X3: with a model configured, cost estimation never raises and calls
    neither the model nor the cross-checker: [_get_score] returns a
    non-negative word count after its own call and exactly one retrieval per
    atomic fact, in order. *)
Theorem cost_estimate_calls_retriever_only (self : FactScorer) (model : LM)
    (topic generation : string) (facts : list string) (ks : string)
    (cost : option string) :
  lm self = Some model ->
  truthy cost = true ->
  exists words,
    _get_score self topic generation facts ks cost =
      (Ok (inl words),
       GetScoreCall topic generation
       :: map (fun a => GetPassages ks topic (strip a)) facts) /\
    (0 <= words)%Z.
Proof.
  intros Hlm Hc.
  destruct (_get_score_loop_cost self model topic ks cost facts Hlm Hc [] 0%Z)
    as [w [Hloop Hw]].
  exists w. split; [|exact Hw].
  rewrite _get_score_unfold, Hloop, Hc. reflexivity.
Qed.

Lemma cost_estimate_calls_retriever_only_example :
  let W := toy_world "True" None 1 (fun g => [g]) apology in
  let self := default_scorer W in
  lm self = Some (const_lm "True" None) /\
  truthy (Some "ignore_cache") = true /\
  exists words,
    _get_score self "sky" "The sky is blue." ["The sky is blue. "]
               "enwiki-20230401" (Some "ignore_cache") =
      (Ok (inl words),
       [GetScoreCall "sky" "The sky is blue.";
        GetPassages "enwiki-20230401" "sky" "The sky is blue."]) /\
    (0 <= words)%Z.
Proof.
  intros W self.
  assert (Hlm : lm self = Some (const_lm "True" None))
    by (vm_compute; reflexivity).
  split; [exact Hlm|]. split; [reflexivity|].
  exact (cost_estimate_calls_retriever_only self _ "sky" "The sky is blue."
           ["The sky is blue. "] "enwiki-20230401" (Some "ignore_cache")
           Hlm eq_refl).
Defined.

Lemma _get_score_loop_estimates (self : FactScorer) (model : LM)
    (topic ks : string) (facts : list string) :
  lm self = Some model ->
  forall ds tw1 tw2,
    (tw1 <= tw2)%Z ->
    exists w1 w2 tr,
      _get_score_loop self topic ks (Some "consider_cache") facts (ds, tw1) =
        (Ok (ds, w1), tr) /\
      _get_score_loop self topic ks (Some "ignore_cache") facts (ds, tw2) =
        (Ok (ds, w2), tr) /\
      (w1 <= w2)%Z /\
      (cache_dict model = [] -> tw1 = tw2 -> w1 = w2).
Proof.
  intros Hlm. induction facts as [|atom0 rest IH]; intros ds tw1 tw2 Htw.
  - exists tw1, tw2, []. repeat split; auto.
  - destruct (verify_with_model self model topic ks (Some "consider_cache")
                tw1 (strip atom0) Hlm) as [prompt [Hp Hv1]].
    destruct (verify_with_model self model topic ks (Some "ignore_cache")
                tw2 (strip atom0) Hlm) as [prompt' [Hp' Hv2]].
    rewrite Hp in Hp'. inversion Hp'; subst prompt'.
    simpl truthy in Hv1, Hv2. cbv iota in Hv1, Hv2.
    destruct Hv1 as [w1 [Hv1 [Hb1 [_ [Hc1 _]]]]].
    destruct Hv2 as [w2 [Hv2 [_ [Hi2 _]]]].
    specialize (Hc1 eq_refl). specialize (Hi2 eq_refl).
    assert (Hle : (w1 <= w2)%Z) by lia.
    destruct (IH ds w1 w2 Hle) as [v1 [v2 [tr [H1 [H2 [Hv Heq]]]]]].
    exists v1, v2, (GetPassages ks topic (strip atom0) :: tr).
    rewrite !_get_score_loop_cons.
    rewrite (bind_Ok _ _ _ _ (_get_score_step_continue _ _ _ _ _ _ _ _ _ Hv1)).
    rewrite (bind_Ok _ _ _ _ (_get_score_step_continue _ _ _ _ _ _ _ _ _ Hv2)).
    rewrite H1, H2. repeat split; auto.
    intros Hempty ->. apply Heq; [exact Hempty|].
    rewrite Hc1, Hi2, Hempty. reflexivity.
Qed.

Lemma _get_score_loop_unknown_mode (self : FactScorer) (model : LM)
    (topic ks : string) (mode : string) (facts : list string) :
  lm self = Some model ->
  mode <> EmptyString -> mode <> "consider_cache" -> mode <> "ignore_cache" ->
  forall ds tw,
    fst (_get_score_loop self topic ks (Some mode) facts (ds, tw)) = Ok (ds, tw).
Proof.
  intros Hlm Hne Hc Hi. induction facts as [|atom0 rest IH]; intros ds tw.
  - reflexivity.
  - destruct (verify_with_model self model topic ks (Some mode) tw
                (strip atom0) Hlm) as [prompt [_ Hv]].
    assert (Ht : truthy (Some mode) = true)
      by (destruct mode; [contradiction | reflexivity]).
    rewrite Ht in Hv. destruct Hv as [w [Hv [_ [_ [_ Hw]]]]].
    rewrite Hw in Hv by congruence.
    rewrite _get_score_loop_cons.
    rewrite (bind_Ok _ _ _ _ (_get_score_step_continue _ _ _ _ _ _ _ _ _ Hv)).
    simpl fst. apply IH.
Qed.

(** X4: with a model configured the estimate that considers the cache is at
    most the estimate that ignores it, both make the same calls, and they
    coincide when the cache is empty; a mode that is neither
    "consider_cache" nor "ignore_cache" silently estimates zero words. *)
Theorem cost_estimate_modes (self : FactScorer) (model : LM)
    (topic generation : string) (facts : list string) (ks : string) :
  lm self = Some model ->
  (exists w1 w2 tr,
      _get_score self topic generation facts ks (Some "consider_cache") =
        (Ok (inl w1), tr) /\
      _get_score self topic generation facts ks (Some "ignore_cache") =
        (Ok (inl w2), tr) /\
      (0 <= w1 <= w2)%Z /\
      (cache_dict model = [] -> w1 = w2)) /\
  (forall mode,
      mode <> EmptyString -> mode <> "consider_cache" ->
      mode <> "ignore_cache" ->
      fst (_get_score self topic generation facts ks (Some mode)) =
        Ok (inl 0%Z)).
Proof.
  intros Hlm. split.
  - destruct (_get_score_loop_estimates self model topic ks facts Hlm [] 0%Z
                0%Z (Z.le_refl 0)) as [w1 [w2 [tr [H1 [H2 [Hle Heq]]]]]].
    destruct (_get_score_loop_cost self model topic ks (Some "consider_cache")
                facts Hlm eq_refl [] 0%Z) as [w [Hw Hpos]].
    rewrite H1 in Hw. inversion Hw; subst w.
    exists w1, w2, (GetScoreCall topic generation :: tr).
    rewrite !_get_score_unfold, H1, H2. simpl.
    repeat split; auto; lia.
  - intros mode Hne Hc Hi.
    pose proof (_get_score_loop_unknown_mode self model topic ks mode facts
                  Hlm Hne Hc Hi [] 0%Z) as Hloop.
    rewrite _get_score_unfold. simpl fst. rewrite Hloop.
    destruct mode; [contradiction | reflexivity].
Qed.

Lemma cost_estimate_modes_example :
  let W := toy_world "True" None 1 (fun g => [g]) apology in
  let self := default_scorer W in
  lm self = Some (const_lm "True" None) /\
  (exists w1 w2 tr,
      _get_score self "sky" "The sky is blue." ["The sky is blue."]
                 "enwiki-20230401" (Some "consider_cache") = (Ok (inl w1), tr) /\
      _get_score self "sky" "The sky is blue." ["The sky is blue."]
                 "enwiki-20230401" (Some "ignore_cache") = (Ok (inl w2), tr) /\
      (0 <= w1 <= w2)%Z /\
      (cache_dict (const_lm "True" None) = [] -> w1 = w2)) /\
  fst (_get_score self "sky" "The sky is blue." ["The sky is blue."]
                  "enwiki-20230401" (Some "none")) = Ok (inl 0%Z).
Proof.
  intros W self.
  assert (Hlm : lm self = Some (const_lm "True" None))
    by (vm_compute; reflexivity).
  destruct (cost_estimate_modes self _ "sky" "The sky is blue."
              ["The sky is blue."] "enwiki-20230401" Hlm) as [H1 H2].
  split; [exact Hlm|]. split; [exact H1|].
  apply H2; discriminate.
Defined.

(** The turn of the loop of [_get_score] in verification mode, by cases. *)
Lemma _get_score_step_cases (self : FactScorer) (topic ks : string)
    (ds : list decision) (tw : Z) (atom0 : string) :
  (exists b tr,
      _get_score_step self topic ks None (ds, tw) atom0 =
        (Ok ((ds ++ [{| atom := strip atom0;
                        is_supported := vetoed self topic ks (strip atom0) b |}])%list,
             tw),
         (tr ++ (if b && npm_enabled self
                 then [NpmGetProbabilty ks topic (strip atom0)] else []))%list) /\
      match lm self with
      | None => tr = []
      | Some _ =>
          exists prompt, tr = [GetPassages ks topic (strip atom0);
                               LmGenerate prompt]
      end) \/
  (exists model prompt logits,
      _get_score_step self topic ks None (ds, tw) atom0 =
        (Raise AssertionError,
         [GetPassages ks topic (strip atom0); LmGenerate prompt]) /\
      lm self = Some model /\
      contains "Llama-3.1-8B-Instruct" (model_name self) = false /\
      snd (generate model prompt) = Some logits /\
      Z.of_nat (length logits) <> 32000%Z /\
      Z.of_nat (length logits) <> 32001%Z).
Proof.
  destruct (lm self) as [model|] eqn:Hlm.
  - destruct (verify_with_model self model topic ks None tw (strip atom0) Hlm)
      as [prompt [_ Hv]].
    simpl truthy in Hv. cbv iota in Hv.
    destruct (resolve_answer_outcome self (generate model prompt))
      as [[b Hb] | [Hr [Hname [logits [Hl [H0 H1]]]]]].
    + left. rewrite Hb in Hv. simpl in Hv.
      exists b. eexists. split.
      * exact (_get_score_step_verdict _ _ _ _ _ _ _ _ _ Hv).
      * now exists prompt.
    + right. rewrite Hr in Hv. simpl in Hv.
      exists model, prompt, logits. split.
      * exact (_get_score_step_fails _ _ _ _ _ _ _ _ _ Hv).
      * now repeat split.
  - left. exists true, []. split; [|reflexivity].
    exact (_get_score_step_verdict _ _ _ _ _ _ _ _ _
             (verify_no_model self topic ks None tw (strip atom0) Hlm)).
Qed.

Lemma filter_length_app {A : Type} (f : A -> bool) (l1 l2 : list A) :
  length (filter f (l1 ++ l2)) =
  (length (filter f l1) + length (filter f l2))%nat.
Proof.
  now rewrite filter_app, length_app.
Qed.

Lemma _get_score_loop_calls (self : FactScorer) (topic ks : string)
    (facts : list string) :
  forall ds tw st tr,
    _get_score_loop self topic ks None facts (ds, tw) = (Ok st, tr) ->
    length (filter is_LmGenerate tr) =
      match lm self with Some _ => length facts | None => 0%nat end /\
    length (filter is_GetPassages tr) =
      match lm self with Some _ => length facts | None => 0%nat end /\
    (length (filter is_NpmGetProbabilty tr) <= length facts)%nat /\
    (npm_enabled self = false -> filter is_NpmGetProbabilty tr = []).
Proof.
  induction facts as [|atom0 rest IH]; intros ds tw st tr H.
  - simpl in H. unfold ret in H. inversion H. simpl.
    destruct (lm self); repeat split; auto.
  - rewrite _get_score_loop_cons in H. apply bind_Ok_inv in H.
    destruct H as [st1 [tr1 [tr2 [Hstep [Hrest ->]]]]].
    destruct (_get_score_step_cases self topic ks ds tw atom0)
      as [[b [t [Hs Ht]]] | [m [p [l [Hs _]]]]];
      rewrite Hs in Hstep; [|discriminate].
    inversion Hstep; subst st1 tr1. clear Hstep.
    destruct (IH _ _ _ _ Hrest) as [Hl [Hg [Hn Hoff]]].
    rewrite !filter_length_app, !filter_app, Hl, Hg.
    destruct (lm self) as [model|].
    + destruct Ht as [prompt ->].
      destruct (b && npm_enabled self) eqn:Hb; simpl; repeat split; try lia.
      * intros Hoff'. rewrite Hoff' in Hb. rewrite andb_false_r in Hb.
        discriminate.
      * intros Hoff'. now apply Hoff.
    + subst t.
      destruct (b && npm_enabled self) eqn:Hb; simpl; repeat split; try lia.
      * intros Hoff'. rewrite Hoff' in Hb. rewrite andb_false_r in Hb.
        discriminate.
      * intros Hoff'. now apply Hoff.
Qed.

(** X5: when [_get_score] returns its decisions, it has called the retriever
    and the model exactly once per atomic fact (never, when no model is
    configured), and the cross-checker at most once per fact (never, when it
    is not enabled). *)
Theorem one_model_call_per_fact (self : FactScorer)
    (topic generation : string) (facts : list string) (ks : string)
    (r : Z + list decision) (tr : list event) :
  _get_score self topic generation facts ks None = (Ok r, tr) ->
  length (filter is_LmGenerate tr) =
    match lm self with Some _ => length facts | None => 0%nat end /\
  length (filter is_GetPassages tr) =
    match lm self with Some _ => length facts | None => 0%nat end /\
  (length (filter is_NpmGetProbabilty tr) <= length facts)%nat /\
  (npm_enabled self = false -> filter is_NpmGetProbabilty tr = []).
Proof.
  rewrite _get_score_unfold. intros H.
  destruct (_get_score_loop self topic ks None facts ([], 0%Z))
    as [[st|e] tr0] eqn:E; simpl in H; [|discriminate].
  inversion H; subst tr.
  destruct (_get_score_loop_calls self topic ks facts _ _ _ _ E)
    as [Hl [Hg [Hn Hoff]]].
  simpl. repeat split; assumption.
Qed.

Lemma one_model_call_per_fact_example :
  let W := toy_world "True" None 1 (fun g => [g]) apology in
  let self := default_scorer W in
  let tr := snd (_get_score self "sky" "gen" ["a"; "b"; "c"]
                            "enwiki-20230401" None) in
  _get_score self "sky" "gen" ["a"; "b"; "c"] "enwiki-20230401" None =
    (Ok (inr [{| atom := "a"; is_supported := true |};
              {| atom := "b"; is_supported := true |};
              {| atom := "c"; is_supported := true |}]), tr) /\
  length (filter is_LmGenerate tr) = 3%nat /\
  length (filter is_GetPassages tr) = 3%nat.
Proof.
  intros W self tr.
  assert (Hrun :
    _get_score self "sky" "gen" ["a"; "b"; "c"] "enwiki-20230401" None =
    (Ok (inr [{| atom := "a"; is_supported := true |};
              {| atom := "b"; is_supported := true |};
              {| atom := "c"; is_supported := true |}]), tr))
    by (vm_compute; reflexivity).
  split; [exact Hrun|].
  destruct (one_model_call_per_fact self _ _ _ _ _ _ Hrun) as [Hl [Hg _]].
  assert (Hlm : lm self = Some (const_lm "True" None))
    by (vm_compute; reflexivity).
  rewrite Hlm in Hl, Hg. split; assumption.
Defined.

Lemma _get_score_loop_raises (self : FactScorer) (topic ks : string)
    (cost : option string) (facts : list string) :
  forall st e tr,
    _get_score_loop self topic ks cost facts st = (Raise e, tr) ->
    e = AssertionError /\
    truthy cost = false /\
    contains "Llama-3.1-8B-Instruct" (model_name self) = false /\
    exists model prompt logits tr',
      lm self = Some model /\
      snd (generate model prompt) = Some logits /\
      Z.of_nat (length logits) <> 32000%Z /\
      Z.of_nat (length logits) <> 32001%Z /\
      tr = (tr' ++ [LmGenerate prompt])%list.
Proof.
  induction facts as [|atom0 rest IH]; intros st e tr H.
  - discriminate.
  - rewrite _get_score_loop_cons in H.
    destruct (_get_score_step self topic ks cost st atom0)
      as [[st1|e1] tr1] eqn:Hstep.
    + rewrite (bind_Ok _ _ _ _ eq_refl) in H.
      destruct (_get_score_loop self topic ks cost rest st1)
        as [[st2|e2] tr2] eqn:Hrest; simpl in H; [discriminate|].
      inversion H; subst e tr.
      destruct (IH _ _ _ Hrest)
        as [He [Hc [Hn [m [p [l [tr' [Hm [Hs [H0 [H1 ->]]]]]]]]]]].
      split; [exact He|]. split; [exact Hc|]. split; [exact Hn|].
      exists m, p, l, (tr1 ++ tr')%list.
      rewrite app_assoc. now repeat split.
    + rewrite (bind_Raise _ _ _ _ eq_refl) in H. inversion H; subst e1 tr1.
      destruct st as [ds tw].
      destruct (lm self) as [model|] eqn:Hlm.
      * destruct (verify_with_model self model topic ks cost tw (strip atom0)
                    Hlm) as [prompt [_ Hv]].
        destruct (truthy cost) eqn:Hc.
        -- destruct Hv as [w [Hv _]].
           rewrite (_get_score_step_continue _ _ _ _ _ _ _ _ _ Hv) in Hstep.
           discriminate.
        -- destruct (resolve_answer_outcome self (generate model prompt))
             as [[b Hb] | [Hr [Hname [logits [Hl [H0 H1]]]]]].
           ++ rewrite Hb in Hv. simpl in Hv.
              rewrite (_get_score_step_verdict _ _ _ _ _ _ _ _ _ Hv) in Hstep.
              discriminate.
           ++ rewrite Hr in Hv. simpl in Hv.
              rewrite (_get_score_step_fails _ _ _ _ _ _ _ _ _ Hv) in Hstep.
              inversion Hstep; subst e tr.
              split; [reflexivity|]. split; [reflexivity|].
              split; [exact Hname|].
              exists model, prompt, logits,
                     [GetPassages ks topic (strip atom0)].
              now repeat split.
      * rewrite (_get_score_step_verdict _ _ _ _ _ _ _ _ _
                   (verify_no_model self topic ks cost tw (strip atom0) Hlm))
          in Hstep.
        discriminate.
Qed.

(** X6: the only exception [_get_score] raises is AssertionError, and only in
    verification mode, for a scorer whose model name does not contain
    "Llama-3.1-8B-Instruct", right after a model call that returned a score
    vector whose length is neither 32000 nor 32001. *)
Theorem _get_score_raises_only_on_score_vector (self : FactScorer)
    (topic generation : string) (facts : list string) (ks : string)
    (cost : option string) (e : exn) (tr : list event) :
  _get_score self topic generation facts ks cost = (Raise e, tr) ->
  e = AssertionError /\
  truthy cost = false /\
  contains "Llama-3.1-8B-Instruct" (model_name self) = false /\
  exists model prompt logits tr',
    lm self = Some model /\
    snd (generate model prompt) = Some logits /\
    Z.of_nat (length logits) <> 32000%Z /\
    Z.of_nat (length logits) <> 32001%Z /\
    tr = (tr' ++ [LmGenerate prompt])%list.
Proof.
  rewrite _get_score_unfold. intros H.
  destruct (_get_score_loop self topic ks cost facts ([], 0%Z))
    as [[st|e0] tr0] eqn:E; simpl in H; [discriminate|].
  inversion H; subst e0 tr.
  destruct (_get_score_loop_raises self topic ks cost facts _ _ _ E)
    as [He [Hc [Hn [m [p [l [tr' [Hm [Hs [H0 [H1 ->]]]]]]]]]]].
  split; [exact He|]. split; [exact Hc|]. split; [exact Hn|].
  exists m, p, l, (GetScoreCall topic generation :: tr'). now repeat split.
Qed.

Lemma _get_score_raises_only_on_score_vector_example :
  let W := toy_world "True" (Some [1; 0]) 1 (fun g => [g]) apology in
  let self := __init__ W "inst-llama-7B" "inst-llama-7B" false true None None in
  let tr := snd (_get_score self "sky" "gen" ["a"] "enwiki-20230401" None) in
  _get_score self "sky" "gen" ["a"] "enwiki-20230401" None =
    (Raise AssertionError, tr) /\
  contains "Llama-3.1-8B-Instruct" (model_name self) = false /\
  exists model prompt logits tr',
    lm self = Some model /\
    snd (generate model prompt) = Some logits /\
    Z.of_nat (length logits) <> 32000%Z /\
    Z.of_nat (length logits) <> 32001%Z /\
    tr = (tr' ++ [LmGenerate prompt])%list.
Proof.
  intros W self tr.
  assert (Hrun :
    _get_score self "sky" "gen" ["a"] "enwiki-20230401" None =
    (Raise AssertionError, tr)) by (vm_compute; reflexivity).
  split; [exact Hrun|].
  destruct (_get_score_raises_only_on_score_vector self _ _ _ _ _ _ _ Hrun)
    as [_ [_ [Hn H]]].
  split; assumption.
Defined.

(* ================================================================== *)
(** ** The arguments of [get_score] *)


(* ================================================================== *)
(** ** The decomposition stage *)

(** The entry the decomposition loop appends for a generation. *)
Lemma decompose_step_entry (W : World) (self : FactScorer)
    (afs : list (option (list string))) (topic gen : string) :
  exists tr,
    decompose_step W self afs (topic, gen) =
    (Ok (afs ++ [if is_response_abstained W gen (abstain_detection_type self)
                 then None
                 else match flatten_facts (run (af_generator self) gen) with
                      | [] => None
                      | fact :: facts => Some (fact :: facts)
                      end])%list, tr) /\
    Forall (fun ev => is_afg ev = true) tr.
Proof.
  unfold decompose_step. simpl snd.
  destruct (is_response_abstained W gen (abstain_detection_type self)).
  - exists []. split; [reflexivity | constructor].
  - simpl bind at 1.
    destruct (flatten_facts (run (af_generator self) gen)) as [|f fs];
      simpl length; simpl Nat.eqb; cbv iota;
      match goal with
      | |- context [if ?c then _ else _] => destruct c
      end; eexists; (split; [reflexivity | repeat constructor]).
Qed.

Lemma decompose_loop_entries (W : World) (self : FactScorer)
    (items : list (string * string)) :
  forall afs0,
  exists tr,
    decompose_loop W self items afs0 =
    (Ok (afs0
         ++ map (fun item =>
                   if is_response_abstained W (snd item)
                        (abstain_detection_type self)
                   then None
                   else match flatten_facts (run (af_generator self) (snd item))
                        with
                        | [] => None
                        | fact :: facts => Some (fact :: facts)
                        end) items)%list, tr) /\
    Forall (fun ev => is_afg ev = true) tr.
Proof.
  induction items as [|[topic gen] rest IH]; intros afs0.
  - exists []. simpl. rewrite app_nil_r. split; [reflexivity | constructor].
  - destruct (decompose_step_entry W self afs0 topic gen) as [tr1 [Hs Ht1]].
    simpl decompose_loop. rewrite (bind_Ok _ _ _ _ Hs).
    match goal with
    | |- context [decompose_loop W self rest ?a] =>
        destruct (IH a) as [tr2 [Hl Ht2]]
    end.
    rewrite Hl. simpl fst. simpl snd. rewrite <- app_assoc. simpl.
    eexists. split; [reflexivity|]. apply Forall_app. now split.
Qed.

Lemma afg_cost_loop_returns (self : FactScorer) (generations : list string) :
  forall w,
  exists w' tr,
    afg_cost_loop self generations w = (Ok w', tr) /\
    Forall (fun ev => is_afg ev = true) tr.
Proof.
  induction generations as [|gen rest IH]; intros w.
  - exists w, []. split; [reflexivity | constructor].
  - simpl afg_cost_loop. simpl bind.
    match goal with
    | |- context [afg_cost_loop self rest ?a] =>
        destruct (IH a) as [w' [tr [Hl Ht]]]
    end.
    rewrite Hl. exists w'. eexists. split; [reflexivity|].
    constructor; [reflexivity | exact Ht].
Qed.

(** The atomic facts generated for a batch, and the calls of the stage. *)
Lemma obtain_generated (W : World) (self : FactScorer)
    (topics generations : list string) :
  length topics = length generations ->
  exists tr,
    obtain_atomic_facts W self topics generations None =
    (Ok (map (fun gen =>
                if is_response_abstained W gen (abstain_detection_type self)
                then None
                else match flatten_facts (run (af_generator self) gen) with
                     | [] => None
                     | fact :: facts => Some (fact :: facts)
                     end) generations),
     (tr ++ [AfgSaveCache; AfgUnloadModel])%list) /\
    Forall (fun ev => is_afg ev = true) tr.
Proof.
  intros Hlen. unfold obtain_atomic_facts.
  destruct (decompose_loop_entries W self (combine topics generations) [])
    as [tr2 [Hl Ht2]].
  assert (Hmap :
    map (fun item : string * string =>
           if is_response_abstained W (snd item) (abstain_detection_type self)
           then None
           else match flatten_facts (run (af_generator self) (snd item)) with
                | [] => None
                | fact :: facts => Some (fact :: facts)
                end) (combine topics generations) =
    map (fun gen =>
           if is_response_abstained W gen (abstain_detection_type self)
           then None
           else match flatten_facts (run (af_generator self) gen) with
                | [] => None
                | fact :: facts => Some (fact :: facts)
                end) generations).
  { clear Hl. revert generations Hlen.
    induction topics as [|t ts IH]; intros [|g gs] Hlen; try discriminate;
      [reflexivity|].
    simpl. f_equal. apply IH. simpl in Hlen. lia. }
  rewrite Hmap in Hl. simpl app in Hl.
  assert (Hpre : exists tr1,
    (if contains "ChatGPT" (model_name self)
     then afg_cost_loop self generations 0%Z ;;; ret tt
     else ret tt) = (Ok tt, tr1) /\
    Forall (fun ev => is_afg ev = true) tr1).
  { destruct (contains "ChatGPT" (model_name self)).
    - destruct (afg_cost_loop_returns self generations 0%Z)
        as [w' [tr [Hc Ht]]].
      rewrite Hc. simpl. rewrite app_nil_r. eauto.
    - exists []. split; [reflexivity | constructor]. }
  destruct Hpre as [tr1 [Hpre Ht1]].
  rewrite (bind_Ok _ _ _ _ Hpre). rewrite (bind_Ok _ _ _ _ Hl).
  rewrite length_map, <- Hlen, Nat.eqb_refl. simpl.
  exists (tr1 ++ tr2)%list. rewrite <- app_assoc.
  split; [reflexivity|]. apply Forall_app. now split.
Qed.

(** X8: without supplied atomic facts and with as many generations as
    topics, the decomposition stage never raises; it yields one entry per
    generation: None for an abstained response or an empty decomposition,
    otherwise the flattened facts, so an entry is never an empty list; and
    its calls are calls to the generator only, the last two being the final
    flush and the unloading of its model. *)
Theorem decomposition_entries (W : World) (self : FactScorer)
    (topics generations : list string) :
  length topics = length generations ->
  exists afs tr,
    obtain_atomic_facts W self topics generations None =
      (Ok afs, (tr ++ [AfgSaveCache; AfgUnloadModel])%list) /\
    Forall (fun ev => is_afg ev = true) tr /\
    length afs = length generations /\
    ~ In (Some []) afs /\
    Forall2 (fun gen entry =>
               (is_response_abstained W gen (abstain_detection_type self) = true
                -> entry = None) /\
               (is_response_abstained W gen (abstain_detection_type self) = false
                -> flatten_facts (run (af_generator self) gen) = []
                -> entry = None) /\
               (is_response_abstained W gen (abstain_detection_type self) = false
                -> flatten_facts (run (af_generator self) gen) <> []
                -> entry = Some (flatten_facts (run (af_generator self) gen))))
            generations afs.
Proof.
  intros Hlen.
  destruct (obtain_generated W self topics generations Hlen) as [tr [H Ht]].
  eexists. exists tr. split; [exact H|]. split; [exact Ht|].
  split; [apply length_map|]. split.
  - intros Hin. apply in_map_iff in Hin. destruct Hin as [gen [Hg _]].
    destruct (is_response_abstained W gen (abstain_detection_type self));
      [discriminate|].
    destruct (flatten_facts (run (af_generator self) gen)); discriminate.
  - clear H Hlen. induction generations as [|gen rest IH]; constructor.
    + destruct (is_response_abstained W gen (abstain_detection_type self)).
      * repeat split; congruence.
      * destruct (flatten_facts (run (af_generator self) gen)) eqn:E;
          repeat split; congruence.
    + exact IH.
Qed.

Lemma decomposition_entries_example :
  let W := toy_world "True" None 1
             (fun g => if g =? "empty" then [] else [g]) apology in
  let self := __init__ W "Llama-3.1-8B-Instruct" "Llama-3.1-8B-Instruct"
                       true true (Some "consider_cache") (Some "generic") in
  let generations := ["The sky is blue."; apology; "empty"] in
  length ["sky"; "topic"; "topic"] = length generations /\
  exists afs tr,
    obtain_atomic_facts W self ["sky"; "topic"; "topic"] generations None =
      (Ok afs, (tr ++ [AfgSaveCache; AfgUnloadModel])%list) /\
    afs = [Some ["The sky is blue."]; None; None] /\
    ~ In (Some []) afs.
Proof.
  intros W self generations. split; [reflexivity|].
  destruct (decomposition_entries W self ["sky"; "topic"; "topic"] generations
              eq_refl) as [afs [tr [H [_ [_ [Hno _]]]]]].
  exists afs, tr. split; [exact H|]. split; [|exact Hno].
  vm_compute in H. now inversion H.
Defined.

(* ================================================================== *)
(** ** The calls of the scoring stage *)

Lemma verify_falsy (self : FactScorer) (topic ks : string)
    (cost : option string) (tw : Z) (atom : string) :
  truthy cost = false ->
  verify self topic ks cost tw atom = verify self topic ks None tw atom.
Proof.
  intros Hc. unfold verify. destruct (lm self); [|reflexivity].
  rewrite Hc. reflexivity.
Qed.

Lemma _get_score_step_no_afg (self : FactScorer) (topic ks : string)
    (cost : option string) (st : list decision * Z) (atom0 : string) :
  Forall (fun ev => is_afg ev = false)
         (snd (_get_score_step self topic ks cost st atom0)).
Proof.
  destruct st as [ds tw].
  destruct (truthy cost) eqn:Hc.
  - destruct (lm self) as [model|] eqn:Hlm.
    + destruct (verify_with_model self model topic ks cost tw (strip atom0) Hlm)
        as [prompt [_ Hv]].
      rewrite Hc in Hv. destruct Hv as [w [Hv _]].
      rewrite (_get_score_step_continue _ _ _ _ _ _ _ _ _ Hv).
      repeat constructor.
    + rewrite (_get_score_step_verdict _ _ _ _ _ _ _ _ _
                 (verify_no_model self topic ks cost tw (strip atom0) Hlm)).
      simpl. destruct (npm_enabled self); repeat constructor.
  - assert (Hs : _get_score_step self topic ks cost (ds, tw) atom0 =
                 _get_score_step self topic ks None (ds, tw) atom0).
    { unfold _get_score_step. now rewrite (verify_falsy _ _ _ _ _ _ Hc). }
    rewrite Hs.
    destruct (_get_score_step_cases self topic ks ds tw atom0)
      as [[b [t [H Ht]]] | [m [p [l [H _]]]]]; rewrite H; simpl.
    + apply Forall_app. split.
      * destruct (lm self); [destruct Ht as [p ->] | subst t];
          repeat constructor.
      * destruct (b && npm_enabled self); repeat constructor.
    + repeat constructor.
Qed.

Lemma _get_score_no_afg (self : FactScorer) (topic generation : string)
    (facts : list string) (ks : string) (cost : option string) :
  Forall (fun ev => is_afg ev = false)
         (snd (_get_score self topic generation facts ks cost)).
Proof.
  rewrite _get_score_unfold. simpl snd. constructor; [reflexivity|].
  generalize (@nil decision, 0%Z).
  induction facts as [|atom0 rest IH]; intros st; [constructor|].
  rewrite _get_score_loop_cons, snd_bind. apply Forall_app. split.
  - apply _get_score_step_no_afg.
  - destruct (fst (_get_score_step self topic ks cost st atom0));
      [apply IH | constructor].
Qed.

Lemma score_cost_loop_no_afg (self : FactScorer) (ks : string)
    (items : list (string * string * option (list string))) :
  forall w,
    Forall (fun ev => is_afg ev = false)
           (snd (score_cost_loop self ks items w)).
Proof.
  induction items as [|[[topic generation] [facts|]] rest IH]; intros w.
  - constructor.
  - simpl score_cost_loop. rewrite snd_bind. apply Forall_app. split.
    + apply _get_score_no_afg.
    + destruct (fst (_get_score self topic generation facts ks
                                (cost_estimate self))) as [[words|ds]|e];
        [apply IH | constructor | constructor].
  - apply IH.
Qed.

Lemma record_score_no_afg (gamma : Z) (st : acc) (facts : list string)
    (ds : list decision) :
  Forall (fun ev => is_afg ev = false) (snd (record_score gamma st facts ds)).
Proof.
  pose proof (record_score_schedule gamma st facts ds) as H.
  destruct (fst (record_score gamma st facts ds)) as [st1|e].
  - destruct H as [_ ->].
    destruct (length (scores st1) mod 10 =? 0)%nat; repeat constructor.
  - rewrite H. constructor.
Qed.

Lemma score_step_no_afg (self : FactScorer) (gamma : Z) (ks : string)
    (st : acc) (item : string * string * option (list string)) :
  Forall (fun ev => is_afg ev = false)
         (snd (score_step self gamma ks st item)).
Proof.
  destruct item as [[topic generation] [facts|]].
  - pose proof (_get_score_no_afg self topic generation facts ks None) as Hq.
    destruct (_get_score self topic generation facts ks None)
      as [[r|e] tr] eqn:E; simpl in Hq.
    + destruct (_get_score_decisions _ _ _ _ _ _ _ E) as [ds [-> _]].
      rewrite (score_step_Some self gamma ks st _ _ _ _ _ E). simpl.
      apply Forall_app. split; [exact Hq | apply record_score_no_afg].
    + rewrite (score_step_raises self gamma ks st _ _ _ _ _ E). exact Hq.
  - rewrite score_step_None. constructor.
Qed.

Lemma score_loop_no_afg (self : FactScorer) (gamma : Z) (ks : string)
    (items : list (string * string * option (list string))) :
  forall st,
    Forall (fun ev => is_afg ev = false)
           (snd (score_loop self gamma ks items st)).
Proof.
  induction items as [|item rest IH]; intros st; [constructor|].
  rewrite score_loop_cons, snd_bind. apply Forall_app. split.
  - apply score_step_no_afg.
  - destruct (fst (score_step self gamma ks st item));
      [apply IH | constructor].
Qed.


Lemma Forall_snd_bind {A B : Type} (P : event -> Prop) (m : M A)
    (k : A -> M B) :
  Forall P (snd m) ->
  (forall a, fst m = Ok a -> Forall P (snd (k a))) ->
  Forall P (snd (bind m k)).
Proof.
  intros Hm Hk. rewrite snd_bind. apply Forall_app. split; [exact Hm|].
  destruct (fst m) as [a|e]; [now apply Hk | constructor].
Qed.

Lemma fst_bind {A B : Type} (m : M A) (k : A -> M B) :
  fst (bind m k) =
  match fst m with Ok a => fst (k a) | Raise e => Raise e end.
Proof.
  destruct m as [[a|e] tr]; simpl; [now destruct (k a) | reflexivity].
Qed.

Lemma check_arguments_trace (topics generations : str_or_list) :
  snd (check_arguments topics generations) = [].
Proof.
  destruct topics as [t|ts], generations as [g|gs]; try reflexivity.
  simpl. destruct (length ts =? length gs)%nat; reflexivity.
Qed.

Lemma scoring_no_afg (self : FactScorer) (gamma : Z) (ks : string)
    (items : list (string * string * option (list string)))
    (k : acc -> report) :
  Forall (fun ev => is_afg ev = false)
    (snd ((if contains "ChatGPT" (model_name self)
           then score_cost_loop self ks items 0%Z ;;; ret tt
           else ret tt) ;;;
          st <- score_loop self gamma ks items empty_acc ;;
          call SaveCache ;;; ret (k st))).
Proof.
  apply Forall_snd_bind.
  - destruct (contains "ChatGPT" (model_name self)); [|constructor].
    apply Forall_snd_bind; [apply score_cost_loop_no_afg | constructor].
  - intros _ _. apply Forall_snd_bind; [apply score_loop_no_afg|].
    intros st _. repeat constructor.
Qed.

(** X9: when the atomic facts are supplied, [get_score] never calls the
    atomic fact generator: no decomposition, no cost estimate of it, no flush
    and no unloading of its model, whatever the outcome of the run. *)
Theorem supplied_facts_bypass_generator (W : World) (self : FactScorer)
    (topics generations : str_or_list) (gamma : Z)
    (afs : list (option (list string))) (knowledge_source : option string) :
  Forall (fun ev => is_afg ev = false)
         (snd (get_score W self topics generations gamma (Some afs)
                         knowledge_source)).
Proof.
  unfold get_score. apply Forall_snd_bind.
  - rewrite check_arguments_trace. constructor.
  - intros [ts gs] _. apply Forall_snd_bind.
    + unfold obtain_atomic_facts, assert.
      destruct (length ts =? length afs)%nat; constructor.
    + intros afs' _. apply scoring_no_afg.
Qed.

(** X10: without supplied atomic facts, every call to the atomic fact
    generator comes before every other call: when [get_score] returns, its
    trace is the calls of the decomposition stage, ending with the flush of
    the generator's cache and the unloading of its model, followed by calls
    that are not to the generator, the last one being the final flush. *)
Theorem decomposition_precedes_scoring (W : World) (self : FactScorer)
    (topics generations : str_or_list) (gamma : Z)
    (knowledge_source : option string) (out : report) (tr : list event) :
  get_score W self topics generations gamma None knowledge_source =
    (Ok out, tr) ->
  exists tr_afg tr_scoring,
    tr = (tr_afg ++ [AfgSaveCache; AfgUnloadModel]
          ++ tr_scoring ++ [SaveCache])%list /\
    Forall (fun ev => is_afg ev = true) tr_afg /\
    Forall (fun ev => is_afg ev = false) tr_scoring.
Proof.
  intros H. unfold get_score in H.
  apply bind_Ok_inv in H. destruct H as [[ts gs] [t1 [t2 [Hargs [H ->]]]]].
  destruct (check_arguments_lengths _ _ _ _ _ Hargs) as [Hlen ->].
  apply bind_Ok_inv in H. destruct H as [afs [t3 [t4 [Hafs [H ->]]]]].
  destruct (obtain_generated W self ts gs Hlen) as [tr_afg [Hgen Hafg]].
  rewrite Hgen in Hafs. inversion Hafs; subst afs t3. clear Hafs.
  apply bind_Ok_inv in H. destruct H as [[] [t5 [t6 [Hpre [H ->]]]]].
  apply bind_Ok_inv in H. destruct H as [st [t7 [t8 [Hloop [H ->]]]]].
  apply bind_Ok_inv in H. destruct H as [[] [t9 [t10 [Hcall [H ->]]]]].
  unfold ret in H. inversion H; subst t10. unfold call in Hcall.
  inversion Hcall; subst t9.
  exists tr_afg, (t5 ++ t7)%list. split.
  - simpl. rewrite <- !app_assoc. reflexivity.
  - split; [exact Hafg|]. apply Forall_app. split.
    + destruct (contains "ChatGPT" (model_name self)).
      * apply bind_Ok_inv in Hpre.
        destruct Hpre as [w [ta [tb [Hc [Hr ->]]]]].
        unfold ret in Hr. inversion Hr; subst tb. rewrite app_nil_r.
        match type of Hc with
        | ?m = _ => assert (Hs : ta = snd m) by now rewrite Hc
        end.
        rewrite Hs. apply score_cost_loop_no_afg.
      * unfold ret in Hpre. inversion Hpre. constructor.
    + match type of Hloop with
      | ?m = _ => assert (Hs : t7 = snd m) by now rewrite Hloop
      end.
      rewrite Hs. apply score_loop_no_afg.
Qed.

Lemma decomposition_precedes_scoring_example :
  let W := toy_world "True" None 1 (fun g => [g]) apology in
  let self := default_scorer W in
  exists out tr tr_afg tr_scoring,
    get_score W self (PStr "sky") (PStr "The sky is blue.") 10 None None =
      (Ok out, tr) /\
    tr = (tr_afg ++ [AfgSaveCache; AfgUnloadModel]
          ++ tr_scoring ++ [SaveCache])%list /\
    Forall (fun ev => is_afg ev = true) tr_afg /\
    Forall (fun ev => is_afg ev = false) tr_scoring.
Proof.
  intros W self.
  destruct (get_score W self (PStr "sky") (PStr "The sky is blue.") 10 None
                      None) as [[out|e] tr] eqn:E;
    [|vm_compute in E; discriminate].
  destruct (decomposition_precedes_scoring W self _ _ _ _ _ _ E)
    as [tr_afg [tr_scoring H]].
  exists out, tr, tr_afg, tr_scoring. split; [reflexivity | exact H].
Defined.

(* ================================================================== *)
(** ** What [get_score] can raise *)

Lemma _get_score_raise_kind (self : FactScorer) (topic generation : string)
    (facts : list string) (ks : string) (cost : option string) (e : exn) :
  fst (_get_score self topic generation facts ks cost) = Raise e ->
  e = AssertionError.
Proof.
  rewrite _get_score_unfold. simpl fst.
  destruct (_get_score_loop self topic ks cost facts ([], 0%Z))
    as [[st|e0] tr0] eqn:E; simpl; [discriminate|].
  intros H. inversion H; subst e0.
  now destruct (_get_score_loop_raises self topic ks cost facts _ _ _ E).
Qed.

Lemma _get_score_decisions_falsy (self : FactScorer)
    (topic generation : string) (facts : list string) (ks : string)
    (cost : option string) (ds : list decision) :
  fst (_get_score self topic generation facts ks cost) = Ok (inr ds) ->
  truthy cost = false.
Proof.
  rewrite _get_score_unfold. simpl fst.
  destruct (fst (_get_score_loop self topic ks cost facts ([], 0%Z)));
    [|discriminate].
  destruct (truthy cost); [discriminate | reflexivity].
Qed.

Lemma score_cost_loop_raises (self : FactScorer) (ks : string)
    (items : list (string * string * option (list string))) :
  forall w e,
    fst (score_cost_loop self ks items w) = Raise e ->
    e = AssertionError \/
    (e = TypeError /\ truthy (cost_estimate self) = false).
Proof.
  induction items as [|[[topic generation] [facts|]] rest IH]; intros w e H.
  - discriminate.
  - simpl score_cost_loop in H. rewrite fst_bind in H.
    destruct (fst (_get_score self topic generation facts ks
                              (cost_estimate self)))
      as [[words|ds]|e0] eqn:E.
    + exact (IH _ _ H).
    + simpl in H. inversion H. right. split; [reflexivity|].
      exact (_get_score_decisions_falsy _ _ _ _ _ _ _ E).
    + inversion H; subst e0. left.
      exact (_get_score_raise_kind _ _ _ _ _ _ _ E).
  - exact (IH _ _ H).
Qed.

Lemma penalty_raises (gamma : Z) (n : nat) (e : exn) :
  fst (penalty gamma n) = Raise e ->
  e = ZeroDivisionError /\ n = 0%nat /\ (0 <= gamma)%Z.
Proof.
  unfold penalty. destruct (gamma <? Z.of_nat n)%Z eqn:E; [discriminate|].
  destruct n as [|n]; simpl; [|discriminate].
  intros H. inversion H. apply Z.ltb_ge in E. simpl in E. now repeat split.
Qed.

Lemma record_score_raise_kind (gamma : Z) (st : acc) (facts : list string)
    (ds : list decision) (e : exn) :
  fst (record_score gamma st facts ds) = Raise e ->
  e = ZeroDivisionError /\ facts = [] /\ (0 < gamma)%Z.
Proof.
  destruct (Z.eq_dec gamma 0) as [Hg | Hg].
  - rewrite (record_score_unpenalised gamma st facts ds Hg). discriminate.
  - destruct (penalty gamma (length facts)) as [[p|e0] trp] eqn:Hp;
      pose proof (penalty_trace gamma (length facts)) as Htr;
      rewrite Hp in Htr; simpl in Htr; subst trp.
    + rewrite (record_score_penalised gamma st facts ds p Hg Hp). discriminate.
    + rewrite (record_score_raises gamma st facts ds e0 Hg Hp). simpl.
      intros H. inversion H; subst e0.
      assert (Hf : fst (penalty gamma (length facts)) = Raise e)
        by now rewrite Hp.
      destruct (penalty_raises _ _ _ Hf) as [-> [Hn Hpos]].
      split; [reflexivity|]. split; [|lia].
      now destruct facts.
Qed.

Lemma score_step_raise_kind (self : FactScorer) (gamma : Z) (ks : string)
    (st : acc) (item : string * string * option (list string)) (e : exn) :
  fst (score_step self gamma ks st item) = Raise e ->
  e = AssertionError \/
  (e = ZeroDivisionError /\ (0 < gamma)%Z /\ snd item = Some []).
Proof.
  destruct item as [[topic generation] [facts|]].
  - destruct (_get_score self topic generation facts ks None)
      as [[r|e0] tr] eqn:E.
    + destruct (_get_score_decisions _ _ _ _ _ _ _ E) as [ds [-> _]].
      rewrite (score_step_Some self gamma ks st _ _ _ _ _ E). simpl fst.
      intros H. right.
      destruct (record_score_raise_kind _ _ _ _ _ H) as [-> [-> Hg]].
      now repeat split.
    + rewrite (score_step_raises self gamma ks st _ _ _ _ _ E). simpl.
      intros H. inversion H; subst e0. left.
      apply (_get_score_raise_kind self topic generation facts ks None).
      now rewrite E.
  - rewrite score_step_None. discriminate.
Qed.

Lemma score_loop_raises (self : FactScorer) (gamma : Z) (ks : string)
    (items : list (string * string * option (list string))) :
  forall st e,
    fst (score_loop self gamma ks items st) = Raise e ->
    e = AssertionError \/
    (e = ZeroDivisionError /\ (0 < gamma)%Z /\ In (Some []) (map snd items)).
Proof.
  induction items as [|item rest IH]; intros st e H.
  - discriminate.
  - rewrite score_loop_cons, fst_bind in H.
    destruct (fst (score_step self gamma ks st item)) as [st1|e1] eqn:E.
    + destruct (IH _ _ H) as [He | [He [Hg Hin]]]; [now left|].
      right. split; [exact He|]. split; [exact Hg|]. now right.
    + inversion H; subst e1.
      destruct (score_step_raise_kind _ _ _ _ _ _ E) as [He | [He [Hg Hi]]];
        [now left|].
      right. split; [exact He|]. split; [exact Hg|]. now left.
Qed.

Lemma zip3_snd_incl {A B C : Type} (xs : list A) (ys : list B) (zs : list C)
    (z : C) :
  In z (map snd (zip3 xs ys zs)) -> In z zs.
Proof.
  revert ys zs. induction xs as [|x xs IH]; intros [|y ys] [|z0 zs] H;
    try contradiction.
  simpl in H. destruct H as [<- | H]; [now left|]. right. exact (IH _ _ H).
Qed.

(** X11: for a gamma below 2^1024 - 2^970, the least one for which the
    division of line 220 can raise OverflowError, [get_score] raises nothing
    but AssertionError (arguments, or a score vector of unexpected length),
    TypeError (only for a model name containing "ChatGPT" with no
    cost-estimate mode set, when the estimate of the verification cost adds a
    list of decisions to a number), and ZeroDivisionError (only for a positive
    gamma and a supplied entry that is an empty list of facts); with generated
    facts it never divides by zero. *)
Theorem get_score_exceptions (W : World) (self : FactScorer)
    (topics generations : str_or_list) (gamma : Z)
    (atomic_facts : option (list (option (list string))))
    (knowledge_source : option string) (e : exn) :
  (gamma < Binary64.overflow_threshold)%Z ->
  fst (get_score W self topics generations gamma atomic_facts knowledge_source)
    = Raise e ->
  e = AssertionError \/
  (e = TypeError /\
   contains "ChatGPT" (model_name self) = true /\
   truthy (cost_estimate self) = false) \/
  (e = ZeroDivisionError /\ (0 < gamma)%Z /\
   exists afs, atomic_facts = Some afs /\ In (Some []) afs).
Proof.
  intros _. unfold get_score. rewrite fst_bind.
  destruct (check_arguments topics generations) as [[[ts gs]|e0] t0] eqn:Hargs;
    simpl fst; cbv iota.
  2:{ intros H. inversion H; subst e0. left.
      unfold check_arguments in Hargs.
      destruct topics, generations; try (inversion Hargs; reflexivity).
      destruct (length l =? length l0)%nat; inversion Hargs; reflexivity. }
  destruct (check_arguments_lengths _ _ _ _ _ Hargs) as [Hlen _].
  rewrite fst_bind.
  destruct (fst (obtain_atomic_facts W self ts gs atomic_facts))
    as [afs|e1] eqn:Hafs.
  2:{ intros H. inversion H; subst e1. left.
      destruct atomic_facts as [supplied|].
      - unfold obtain_atomic_facts, assert in Hafs.
        destruct (length ts =? length supplied)%nat; inversion Hafs.
        reflexivity.
      - destruct (obtain_generated W self ts gs Hlen) as [tr [Hg _]].
        rewrite Hg in Hafs. discriminate. }
  rewrite fst_bind.
  destruct (contains "ChatGPT" (model_name self)) eqn:Hchat.
  - rewrite fst_bind.
    destruct (fst (score_cost_loop self (source_or_default knowledge_source)
                     (zip3 ts gs afs) 0%Z)) as [w|e2] eqn:Hcost.
    + simpl fst. cbv iota. rewrite fst_bind.
      destruct (fst (score_loop self gamma (source_or_default knowledge_source)
                       (zip3 ts gs afs) empty_acc)) as [st|e3] eqn:Hloop.
      * simpl. discriminate.
      * intros H. inversion H; subst e3.
        destruct (score_loop_raises _ _ _ _ _ _ Hloop)
          as [He | [He [Hg Hin]]]; [now left|].
        right. right. split; [exact He|]. split; [exact Hg|].
        apply zip3_snd_incl in Hin.
        destruct atomic_facts as [supplied|].
        -- exists supplied. split; [reflexivity|].
           unfold obtain_atomic_facts, assert in Hafs.
           destruct (length ts =? length supplied)%nat; inversion Hafs.
           now subst.
        -- exfalso.
           destruct (obtain_generated W self ts gs Hlen) as [tr [Hgen _]].
           rewrite Hgen in Hafs. inversion Hafs; subst afs.
           apply in_map_iff in Hin. destruct Hin as [gen [Hg' _]].
           destruct (is_response_abstained W gen (abstain_detection_type self));
             [discriminate|].
           destruct (flatten_facts (run (af_generator self) gen));
             discriminate.
    + intros H. inversion H; subst e2.
      destruct (score_cost_loop_raises _ _ _ _ _ Hcost) as [He | [He Hc]];
        [now left|].
      right. left. now repeat split.
  - simpl fst. cbv iota. rewrite fst_bind.
    destruct (fst (score_loop self gamma (source_or_default knowledge_source)
                     (zip3 ts gs afs) empty_acc)) as [st|e3] eqn:Hloop.
    + simpl. discriminate.
    + intros H. inversion H; subst e3.
      destruct (score_loop_raises _ _ _ _ _ _ Hloop)
        as [He | [He [Hg Hin]]]; [now left|].
      right. right. split; [exact He|]. split; [exact Hg|].
      apply zip3_snd_incl in Hin.
      destruct atomic_facts as [supplied|].
      * exists supplied. split; [reflexivity|].
        unfold obtain_atomic_facts, assert in Hafs.
        destruct (length ts =? length supplied)%nat; inversion Hafs.
        now subst.
      * exfalso.
        destruct (obtain_generated W self ts gs Hlen) as [tr [Hgen _]].
        rewrite Hgen in Hafs. inversion Hafs; subst afs.
        apply in_map_iff in Hin. destruct Hin as [gen [Hg' _]].
        destruct (is_response_abstained W gen (abstain_detection_type self));
          [discriminate|].
        destruct (flatten_facts (run (af_generator self) gen)); discriminate.
Qed.

Lemma get_score_exceptions_example :
  let W := toy_world "True" None 1 (fun g => [g]) apology in
  let self := default_scorer W in
  (10 < Binary64.overflow_threshold)%Z /\
  fst (get_score W self (PStr "sky") (PStr "gen") 10 (Some [Some []]) None) =
    Raise ZeroDivisionError /\
  (0 < 10)%Z /\
  exists afs, Some [Some []] = Some afs /\ In (@Some (list string) []) afs.
Proof.
  intros W self.
  assert (Hg : (10 < Binary64.overflow_threshold)%Z)
    by (vm_compute; reflexivity).
  assert (H : fst (get_score W self (PStr "sky") (PStr "gen") 10
                             (Some [Some []]) None) = Raise ZeroDivisionError)
    by (vm_compute; reflexivity).
  split; [exact Hg|]. split; [exact H|].
  destruct (get_score_exceptions W self _ _ _ _ _ _ Hg H)
    as [He | [[He _] | [_ Hz]]]; [discriminate | discriminate | exact Hz].
Defined.

(* ================================================================== *)
(** ** Edge cases and bounds of the scores *)

Lemma _get_score_no_facts (self : FactScorer) (topic generation ks : string) :
  _get_score self topic generation [] ks None =
  (Ok (inr []), [GetScoreCall topic generation]).
Proof.
  reflexivity.
Qed.

(** A turn of the scoring loop on an empty list of facts. *)
Lemma score_step_empty_facts (self : FactScorer) (gamma : Z) (ks : string)
    (st : acc) (topic generation : string) :
  ((0 < gamma)%Z ->
   score_step self gamma ks st (topic, generation, Some []) =
     (Raise ZeroDivisionError, [GetScoreCall topic generation])) /\
  ((gamma <= 0)%Z ->
   exists st' tr,
     score_step self gamma ks st (topic, generation, Some []) = (Ok st', tr) /\
     scores st' = (scores st ++ [Np.NaN])%list /\
     acc_decisions st' = (acc_decisions st ++ [Some []])%list).
Proof.
  pose proof (_get_score_no_facts self topic generation ks) as Hrun. split.
  - intros Hg.
    assert (Hp : penalty gamma (length (@nil string)) =
                 (Raise ZeroDivisionError, [])).
    { unfold penalty. simpl length.
      assert (H : (gamma <? Z.of_nat 0)%Z = false) by (apply Z.ltb_ge; simpl; lia).
      now rewrite H. }
    apply (score_step_division_by_zero self gamma ks st topic generation []
             [] _ ZeroDivisionError Hrun); [lia | exact Hp].
  - intros Hg. destruct (Z.eq_dec gamma 0) as [H0 | H0].
    + destruct (score_step_unpenalised self gamma ks st topic generation []
                  [] _ Hrun H0) as [tr Hs].
      eexists. exists tr. split; [exact Hs|]. split; reflexivity.
    + assert (Hp : penalty gamma (length (@nil string)) = (Ok 1%R, []))
        by (apply penalty_exceeds; simpl; lia).
      destruct (score_step_penalised self gamma ks st topic generation []
                  [] _ 1%R Hrun H0 Hp) as [tr Hs].
      eexists. exists tr. split; [exact Hs|]. split; reflexivity.
Qed.

Section Bounds.
Local Open Scope R_scope.

Lemma add_nan_l (xs : list Np.npfloat) : fold_left Np.add xs Np.NaN = Np.NaN.
Proof.
  induction xs as [|x xs IH]; [reflexivity | exact IH].
Qed.

Lemma sum_unit_from (xs : list Np.npfloat) :
  Forall unit_or_nan xs ->
  forall a,
    match fold_left Np.add xs (Np.Fin a) with
    | Np.Fin s => a <= s <= a + INR (length xs)
    | Np.NaN => True
    end.
Proof.
  induction 1 as [|x xs Hx _ IH]; intros a.
  - simpl. lra.
  - simpl fold_left. destruct x as [r|]; simpl Np.add.
    + specialize (IH (a + r)). simpl in Hx.
      destruct (fold_left Np.add xs (Np.Fin (a + r))); [|exact I].
      change (length (Np.Fin r :: xs)) with (S (length xs)).
      rewrite S_INR. lra.
    + now rewrite add_nan_l.
Qed.

Lemma mean_unit (xs : list Np.npfloat) :
  Forall unit_or_nan xs -> unit_or_nan (Np.mean xs).
Proof.
  intros H. destruct xs as [|x xs]; [exact I|].
  rewrite mean_nonempty by discriminate.
  pose proof (sum_unit_from _ H 0) as Hs. unfold Np.sum.
  destruct (fold_left Np.add (x :: xs) (Np.Fin 0)) as [s|]; [|exact I].
  simpl unit_or_nan.
  assert (Hn : 0 < INR (length (x :: xs))) by (apply lt_0_INR; simpl; lia).
  split.
  - apply Rmult_le_pos; [lra | left; now apply Rinv_0_lt_compat].
  - apply Rmult_le_reg_r with (INR (length (x :: xs))); [exact Hn|].
    unfold Rdiv. rewrite Rmult_assoc, Rinv_l by lra. lra.
Qed.

Lemma mean_bools_unit (ds : list decision) :
  unit_or_nan (Np.mean (map (fun d => Np.of_bool (is_supported d)) ds)).
Proof.
  apply mean_unit. apply Forall_forall. intros x Hx.
  apply in_map_iff in Hx. destruct Hx as [d [<- _]].
  destruct (is_supported d); simpl; lra.
Qed.

Lemma penalty_at_most_one (gamma : Z) (n : nat) (p : R) (tr : list event) :
  penalty gamma n = (Ok p, tr) -> 0 < p <= 1.
Proof.
  intros H. split; [exact (penalty_positive _ _ _ _ H)|].
  unfold penalty in H. destruct (gamma <? Z.of_nat n)%Z eqn:E.
  - inversion H. lra.
  - destruct n as [|n]; [discriminate|]. simpl Nat.eqb in H. cbv iota in H.
    inversion H. apply Z.ltb_ge in E. apply IZR_le in E.
    rewrite <- INR_IZR_INZ in E.
    assert (Hn : 0 < INR (S n)) by (apply lt_0_INR; lia).
    assert (Hq : 1 <= IZR gamma / INR (S n)).
    { apply Rmult_le_reg_r with (INR (S n)); [exact Hn|].
      unfold Rdiv. rewrite Rmult_assoc, Rinv_l by lra. lra. }
    assert (Hle : 1 - IZR gamma / INR (S n) <= 0) by lra.
    change (exp (1 - IZR gamma / INR (S n)) <= 1).
    rewrite <- exp_0 at 2.
    destruct Hle as [Hlt | Heq]; [left; now apply exp_increasing|].
    rewrite Heq. apply Rle_refl.
Qed.

Lemma mul_unit (p : R) (x : Np.npfloat) :
  0 < p <= 1 -> unit_or_nan x ->
  unit_or_nan (Np.mul (Np.Fin p) x) /\ not_above (Np.mul (Np.Fin p) x) x.
Proof.
  intros Hp Hx. destruct x as [r|]; simpl in *; [|tauto].
  assert (0 <= p * r) by (apply Rmult_le_pos; lra).
  assert (p * r <= 1 * r) by (apply Rmult_le_compat_r; lra).
  lra.
Qed.

Lemma not_above_refl (x : Np.npfloat) : not_above x x.
Proof.
  destruct x; simpl; [lra | exact I].
Qed.

Lemma mul_one (x : Np.npfloat) : Np.mul (Np.Fin 1) x = x.
Proof.
  destruct x; simpl; [f_equal; lra | reflexivity].
Qed.

(** What a turn of the scoring loop adds to the accumulators. *)
Lemma score_step_adds (self : FactScorer) (gamma : Z) (ks : string)
    (st st1 : acc) (item : string * string * option (list string))
    (tr : list event) :
  score_step self gamma ks st item = (Ok st1, tr) ->
  (snd item = None /\ scores st1 = scores st /\
   init_scores st1 = init_scores st /\
   acc_decisions st1 = (acc_decisions st ++ [None])%list) \/
  (exists facts ds p,
      snd item = Some facts /\
      map atom ds = map strip facts /\
      acc_decisions st1 = (acc_decisions st ++ [Some ds])%list /\
      scores st1 =
        (scores st
         ++ [Np.mul (Np.Fin p)
               (Np.mean (map (fun d => Np.of_bool (is_supported d)) ds))])%list /\
      ((gamma = 0%Z /\ p = 1 /\ init_scores st1 = init_scores st) \/
       (gamma <> 0%Z /\ penalty gamma (length facts) = (Ok p, []) /\
        init_scores st1 =
          (init_scores st
           ++ [Np.mean (map (fun d => Np.of_bool (is_supported d)) ds)])%list))).
Proof.
  destruct item as [[topic generation] [facts|]]; intros H.
  - right.
    destruct (_get_score self topic generation facts ks None)
      as [[r|e] tr0] eqn:E.
    + destruct (_get_score_decisions _ _ _ _ _ _ _ E) as [ds [-> Hatoms]].
      destruct (Z.eq_dec gamma 0) as [Hg | Hg].
      * destruct (score_step_unpenalised self gamma ks st _ _ _ _ _ E Hg)
          as [t Hs].
        rewrite Hs in H. inversion H; subst st1.
        exists facts, ds, 1. rewrite mul_one. simpl. repeat split; auto.
      * destruct (penalty gamma (length facts)) as [[p|e] trp] eqn:Hp;
          pose proof (penalty_trace gamma (length facts)) as Htr;
          rewrite Hp in Htr; simpl in Htr; subst trp.
        -- destruct (score_step_penalised self gamma ks st _ _ _ _ _ p E Hg Hp)
             as [t Hs].
           rewrite Hs in H. inversion H; subst st1.
           exists facts, ds, p. simpl. repeat split; auto.
        -- rewrite (score_step_division_by_zero self gamma ks st _ _ _ _ _ e
                      E Hg Hp) in H. discriminate.
    + rewrite (score_step_raises self gamma ks st _ _ _ _ _ E) in H.
      discriminate.
  - left. rewrite score_step_None in H. inversion H. simpl. now repeat split.
Qed.

Lemma score_loop_bounds (self : FactScorer) (gamma : Z) (ks : string)
    (items : list (string * string * option (list string))) :
  forall st st' tr,
    score_loop self gamma ks items st = (Ok st', tr) ->
    Forall unit_or_nan (scores st) ->
    Forall unit_or_nan (init_scores st) ->
    (gamma <> 0%Z -> Forall2 not_above (scores st) (init_scores st)) ->
    Forall unit_or_nan (scores st') /\
    Forall unit_or_nan (init_scores st') /\
    (gamma <> 0%Z -> Forall2 not_above (scores st') (init_scores st')).
Proof.
  induction items as [|item rest IH]; intros st st' tr H Hs Hi Hsi.
  - simpl in H. unfold ret in H. inversion H; subst. now repeat split.
  - rewrite score_loop_cons in H. apply bind_Ok_inv in H.
    destruct H as [st1 [tr1 [tr2 [Hstep [Hrest _]]]]].
    assert (Hinv : Forall unit_or_nan (scores st1) /\
                   Forall unit_or_nan (init_scores st1) /\
                   (gamma <> 0%Z ->
                    Forall2 not_above (scores st1) (init_scores st1))).
    { destruct (score_step_adds _ _ _ _ _ _ _ Hstep)
        as [[_ [Es [Ei _]]] |
            [facts [ds [p [_ [_ [_ [Es [[Hg [Ep Ei]] | [Hg [Hp Ei]]]]]]]]]]];
        rewrite Es, Ei.
      - now repeat split.
      - subst p. split; [|split].
        + apply Forall_app. split; [exact Hs|]. constructor; [|constructor].
          apply mul_unit; [lra | apply mean_bools_unit].
        + exact Hi.
        + intros Hg'. contradiction.
      - pose proof (penalty_at_most_one _ _ _ _ Hp) as Hp1.
        split; [|split].
        + apply Forall_app. split; [exact Hs|]. constructor; [|constructor].
          apply mul_unit; [exact Hp1 | apply mean_bools_unit].
        + apply Forall_app. split; [exact Hi|]. constructor; [|constructor].
          apply mean_bools_unit.
        + intros _. apply Forall2_app; [now apply Hsi|].
          constructor; [|constructor].
          apply mul_unit; [exact Hp1 | apply mean_bools_unit]. }
    destruct Hinv as [Hs1 [Hi1 Hsi1]]. exact (IH _ _ _ Hrest Hs1 Hi1 Hsi1).
Qed.

Lemma sum_below_from (xs ys : list Np.npfloat) :
  Forall2 not_above xs ys ->
  forall a b,
    a <= b ->
    not_above (fold_left Np.add xs (Np.Fin a)) (fold_left Np.add ys (Np.Fin b)).
Proof.
  induction 1 as [|x y xs ys Hxy _ IH]; intros a b Hab.
  - simpl. exact Hab.
  - simpl fold_left. destruct x as [r|], y as [s|]; simpl in Hxy;
      try contradiction; simpl Np.add.
    + apply IH. lra.
    + rewrite !add_nan_l. exact I.
Qed.

Lemma mean_below_pointwise (xs ys : list Np.npfloat) :
  Forall2 not_above xs ys -> not_above (Np.mean xs) (Np.mean ys).
Proof.
  intros H. pose proof (Forall2_length H) as Hlen.
  pose proof (sum_below_from xs ys H 0 0 (Rle_refl 0)) as Hs.
  destruct xs as [|x xs], ys as [|y ys]; try discriminate; [exact I|].
  rewrite !mean_nonempty by discriminate. unfold Np.sum. rewrite Hlen.
  assert (Hn : 0 < / INR (length (y :: ys))).
  { apply Rinv_0_lt_compat. apply lt_0_INR. simpl. lia. }
  destruct (fold_left Np.add (x :: xs) (Np.Fin 0)) as [s|],
           (fold_left Np.add (y :: ys) (Np.Fin 0)) as [t|];
    cbn [not_above] in Hs |- *; try contradiction; [|exact I].
  apply Rmult_le_compat_r; [left; exact Hn | exact Hs].
Qed.

(** X13: in the report of [get_score], the score and the respond ratio are
    between 0 and 1 (or NaN, the mean of nothing), and so is the score before
    the length penalty when it is reported, which the score never exceeds:
    the penalty only lowers a score. *)
Theorem report_scores_between_0_and_1 (W : World) (self : FactScorer)
    (topics generations : str_or_list) (gamma : Z)
    (atomic_facts : option (list (option (list string))))
    (knowledge_source : option string) (out : report) (tr : list event) :
  get_score W self topics generations gamma atomic_facts knowledge_source =
    (Ok out, tr) ->
  unit_or_nan (score out) /\
  unit_or_nan (respond_ratio out) /\
  (forall init, init_score out = Some init ->
                unit_or_nan init /\ not_above (score out) init).
Proof.
  intros H.
  destruct (get_score_inv _ _ _ _ _ _ _ _ _ H)
    as [ts [gs [afs [st [tr0 [tr1 [_ [_ [Hloop ->]]]]]]]]].
  assert (Hb := score_loop_bounds _ _ _ _ _ _ _ Hloop
                  (Forall_nil _) (Forall_nil _) (fun _ => Forall2_nil _)).
  destruct Hb as [Hs [Hi Hsi]]. simpl. split; [now apply mean_unit|]. split.
  - apply mean_unit. apply Forall_forall. intros x Hx.
    apply in_map_iff in Hx. destruct Hx as [f [<- _]].
    destruct (is_not_None f); simpl; lra.
  - intros init Hinit. destruct (gamma =? 0)%Z eqn:Hg; [discriminate|].
    inversion Hinit; subst init. split; [now apply mean_unit|].
    apply mean_below_pointwise. apply Hsi. now apply Z.eqb_neq.
Qed.

Lemma report_scores_between_0_and_1_example :
  let W := toy_world "True" None 1 (fun g => [g]) apology in
  exists out tr,
    get_score W (default_scorer W) (PStr "sky") (PStr "The sky is blue.") 10
              None None = (Ok out, tr) /\
    unit_or_nan (score out) /\
    unit_or_nan (respond_ratio out) /\
    (forall init, init_score out = Some init ->
                  unit_or_nan init /\ not_above (score out) init).
Proof.
  intros W.
  destruct (get_score W (default_scorer W) (PStr "sky")
                      (PStr "The sky is blue.") 10 None None)
    as [[out|e] tr] eqn:E; [|vm_compute in E; discriminate].
  exists out, tr. split; [reflexivity|].
  exact (report_scores_between_0_and_1 W (default_scorer W) _ _ _ _ _ _ _ E).
Defined.

End Bounds.

(* ================================================================== *)
(** ** The decisions and the scores of the report *)

Lemma score_loop_audit (self : FactScorer) (gamma : Z) (ks : string)
    (items : list (string * string * option (list string))) :
  forall st st' tr,
    score_loop self gamma ks items st = (Ok st', tr) ->
    exists ds,
      acc_decisions st' = (acc_decisions st ++ ds)%list /\
      Forall2 audits (map snd items) ds.
Proof.
  induction items as [|item rest IH]; intros st st' tr H.
  - simpl in H. unfold ret in H. inversion H; subst.
    exists []. rewrite app_nil_r. split; [reflexivity | constructor].
  - rewrite score_loop_cons in H. apply bind_Ok_inv in H.
    destruct H as [st1 [tr1 [tr2 [Hstep [Hrest _]]]]].
    destruct (IH _ _ _ Hrest) as [ds [Hds Hall]].
    destruct (score_step_adds _ _ _ _ _ _ _ Hstep)
      as [[Hitem [_ [_ Hd]]] | [facts [d [p [Hitem [Hatoms [Hd _]]]]]]];
      rewrite Hd, <- app_assoc in Hds; simpl in Hds.
    + exists (None :: ds). split; [exact Hds|]. simpl. constructor; [|exact Hall].
      rewrite Hitem. exact I.
    + exists (Some d :: ds). split; [exact Hds|]. simpl.
      constructor; [|exact Hall]. rewrite Hitem. exact Hatoms.
Qed.

(** X14: with supplied atomic facts, the [decisions] of the report answer the
    supplied list entry by entry: None for a None entry, and for a list of
    facts one decision per fact, in the order of the facts, each on the fact
    with its outer white space stripped. *)
Theorem decisions_follow_supplied_facts (W : World) (self : FactScorer)
    (topics generations : str_or_list) (gamma : Z)
    (afs : list (option (list string)))
    (knowledge_source : option string) (out : report) (tr : list event) :
  get_score W self topics generations gamma (Some afs) knowledge_source =
    (Ok out, tr) ->
  Forall2 audits afs (decisions out).
Proof.
  intros H.
  destruct (get_score_inv _ _ _ _ _ _ _ _ _ H)
    as [ts [gs [afs' [st [tr0 [tr1 [Hargs [Hafs [Hloop ->]]]]]]]]].
  destruct (check_arguments_lengths _ _ _ _ _ Hargs) as [Hlen _].
  pose proof (obtain_atomic_facts_length _ _ _ _ _ _ _ Hafs) as Hlen'.
  assert (afs' = afs) as ->.
  { simpl in Hafs. destruct (length ts =? length afs)%nat; [|discriminate].
    simpl in Hafs. now inversion Hafs. }
  destruct (score_loop_audit _ _ _ _ _ _ _ Hloop) as [ds [Hds Hall]].
  rewrite zip3_snd in Hall by lia. simpl in Hds |- *. now subst ds.
Qed.

Lemma decisions_follow_supplied_facts_example :
  let W := toy_world "True" None 1 (fun g => [g]) apology in
  exists out tr,
    get_score W (default_scorer W) (PList ["sky"; "sea"])
              (PList ["The sky is blue."; "I cannot say."]) 10
              (Some [Some [" The sky is blue. "]; None]) None = (Ok out, tr) /\
    Forall2 audits [Some [" The sky is blue. "]; None] (decisions out).
Proof.
  intros W.
  destruct (get_score W (default_scorer W) (PList ["sky"; "sea"])
              (PList ["The sky is blue."; "I cannot say."]) 10
              (Some [Some [" The sky is blue. "]; None]) None)
    as [[out|e] tr] eqn:E; [|vm_compute in E; discriminate].
  exists out, tr. split; [reflexivity|].
  exact (decisions_follow_supplied_facts W (default_scorer W) _ _ _ _ _ _ _ E).
Defined.

Lemma score_loop_negative_gamma (self : FactScorer) (gamma : Z) (ks : string)
    (items : list (string * string * option (list string))) :
  (gamma < 0)%Z ->
  forall st st' tr,
    score_loop self gamma ks items st = (Ok st', tr) ->
    scores st = init_scores st ->
    scores st' = init_scores st'.
Proof.
  intros Hneg. induction items as [|item rest IH]; intros st st' tr H Heq.
  - simpl in H. unfold ret in H. inversion H; now subst.
  - rewrite score_loop_cons in H. apply bind_Ok_inv in H.
    destruct H as [st1 [tr1 [tr2 [Hstep [Hrest _]]]]].
    apply (IH _ _ _ Hrest).
    destruct (score_step_adds _ _ _ _ _ _ _ Hstep)
      as [[_ [Es [Ei _]]] |
          [facts [ds [p [_ [_ [_ [Es [[Hg _] | [_ [Hp Ei]]]]]]]]]]].
    + now rewrite Es, Ei.
    + lia.
    + rewrite (penalty_exceeds gamma (length facts)) in Hp by lia.
      inversion Hp; subst p. rewrite Es, Ei, mul_one. now rewrite Heq.
Qed.

(** X15: a negative gamma counts as set (it is truthy) but never penalises:
    the report carries an [init_score], and it equals [score]. *)
Theorem negative_gamma_never_penalises (W : World) (self : FactScorer)
    (topics generations : str_or_list) (gamma : Z)
    (atomic_facts : option (list (option (list string))))
    (knowledge_source : option string) (out : report) (tr : list event) :
  (gamma < 0)%Z ->
  get_score W self topics generations gamma atomic_facts knowledge_source =
    (Ok out, tr) ->
  init_score out = Some (score out).
Proof.
  intros Hneg H.
  destruct (get_score_inv _ _ _ _ _ _ _ _ _ H)
    as [ts [gs [afs [st [tr0 [tr1 [_ [_ [Hloop ->]]]]]]]]].
  simpl. destruct (gamma =? 0)%Z eqn:Hg; [apply Z.eqb_eq in Hg; lia|].
  now rewrite (score_loop_negative_gamma _ _ _ _ Hneg _ _ _ Hloop eq_refl).
Qed.

Lemma negative_gamma_never_penalises_example :
  let W := toy_world "True" None 1 (fun g => [g]) apology in
  (-1 < 0)%Z /\
  exists out tr,
    get_score W (default_scorer W) (PStr "sky") (PStr "The sky is blue.") (-1)
              None None = (Ok out, tr) /\
    init_score out = Some (score out).
Proof.
  intros W. split; [lia|].
  destruct (get_score W (default_scorer W) (PStr "sky")
                      (PStr "The sky is blue.") (-1) None None)
    as [[out|e] tr] eqn:E; [|vm_compute in E; discriminate].
  exists out, tr. split; [reflexivity|].
  refine (negative_gamma_never_penalises W (default_scorer W) _ _ (-1) _ _ _ _
            _ E).
  lia.
Defined.

(* ================================================================== *)
(** ** An empty list of facts *)

Lemma score_loop_scores_grow (self : FactScorer) (gamma : Z) (ks : string)
    (items : list (string * string * option (list string))) :
  forall st st' tr,
    score_loop self gamma ks items st = (Ok st', tr) ->
    exists more, scores st' = (scores st ++ more)%list.
Proof.
  induction items as [|x rest IH]; intros st st' tr H.
  - simpl in H. unfold ret in H. inversion H; subst.
    exists []. now rewrite app_nil_r.
  - rewrite score_loop_cons in H. apply bind_Ok_inv in H.
    destruct H as [st1 [tr1 [tr2 [Hstep [Hrest _]]]]].
    destruct (IH _ _ _ Hrest) as [more Hmore].
    destruct (score_step_adds _ _ _ _ _ _ _ Hstep)
      as [[_ [Es _]] | [facts [ds [p [_ [_ [_ [Es _]]]]]]]];
      rewrite Es in Hmore.
    + now exists more.
    + rewrite <- app_assoc in Hmore. eexists. exact Hmore.
Qed.

Lemma score_loop_member (self : FactScorer) (gamma : Z) (ks : string)
    (items : list (string * string * option (list string))) :
  forall st st' tr item,
    score_loop self gamma ks items st = (Ok st', tr) ->
    In item items ->
    exists st0 st1 tr1 more,
      score_step self gamma ks st0 item = (Ok st1, tr1) /\
      scores st' = (scores st1 ++ more)%list.
Proof.
  induction items as [|x rest IH]; intros st st' tr item H Hin;
    [contradiction|].
  rewrite score_loop_cons in H. apply bind_Ok_inv in H.
  destruct H as [st1 [tr1 [tr2 [Hstep [Hrest _]]]]].
  destruct Hin as [-> | Hin].
  - destruct (score_loop_scores_grow _ _ _ _ _ _ _ Hrest) as [more Hmore].
    exists st, st1, tr1, more. now split.
  - exact (IH _ _ _ _ Hrest Hin).
Qed.

Lemma sum_nan_from (xs : list Np.npfloat) :
  In Np.NaN xs -> forall a, fold_left Np.add xs a = Np.NaN.
Proof.
  induction xs as [|x xs IH]; intros Hin a; [contradiction|].
  simpl. destruct Hin as [-> | Hin].
  - destruct a; simpl; apply add_nan_l.
  - now apply IH.
Qed.

Lemma mean_nan (xs : list Np.npfloat) : In Np.NaN xs -> Np.mean xs = Np.NaN.
Proof.
  intros Hin. destruct xs as [|x xs]; [reflexivity|].
  unfold Np.mean, Np.sum. now rewrite (sum_nan_from _ Hin).
Qed.

(** X12: when the supplied atomic facts hold an empty list for some response
    (None is the entry the code expects for a response without facts),
    [get_score] returns no report if gamma is positive, the penalty dividing
    by the number of facts; and if gamma is zero or negative, the score of any
    report it returns is NaN. *)
Theorem empty_fact_list_spoils_report (W : World) (self : FactScorer)
    (topics generations : str_or_list) (gamma : Z)
    (afs : list (option (list string))) (knowledge_source : option string)
    (out : report) (tr : list event) :
  In (Some []) afs ->
  get_score W self topics generations gamma (Some afs) knowledge_source =
    (Ok out, tr) ->
  (gamma <= 0)%Z /\ score out = Np.NaN.
Proof.
  intros Hin H.
  destruct (get_score_inv _ _ _ _ _ _ _ _ _ H)
    as [ts [gs [afs' [st [tr0 [tr1 [Hargs [Hafs [Hloop ->]]]]]]]]].
  destruct (check_arguments_lengths _ _ _ _ _ Hargs) as [Hlen _].
  pose proof (obtain_atomic_facts_length _ _ _ _ _ _ _ Hafs) as Hlen'.
  assert (afs' = afs) as ->.
  { simpl in Hafs. destruct (length ts =? length afs)%nat; [|discriminate].
    simpl in Hafs. now inversion Hafs. }
  assert (Hitem : exists t g, In (t, g, Some []) (zip3 ts gs afs)).
  { rewrite <- (zip3_snd ts gs afs) in Hin by lia.
    apply in_map_iff in Hin. destruct Hin as [[[t g] f] [Hf Hin]].
    simpl in Hf. subst f. now exists t, g. }
  destruct Hitem as [t [g Hitem]].
  destruct (score_loop_member _ _ _ _ _ _ _ _ Hloop Hitem)
    as [st0 [st1 [tr2 [more [Hstep Hmore]]]]].
  destruct (score_step_empty_facts self gamma
              (source_or_default knowledge_source) st0 t g) as [Hpos Hneg].
  destruct (Z_lt_le_dec 0 gamma) as [Hg | Hg].
  - rewrite (Hpos Hg) in Hstep. discriminate.
  - split; [exact Hg|]. destruct (Hneg Hg) as [st2 [tr3 [Hs [Hsc _]]]].
    rewrite Hs in Hstep. inversion Hstep; subst st2. simpl.
    apply mean_nan. rewrite Hmore, Hsc. apply in_or_app. left.
    apply in_or_app. right. now left.
Qed.

Lemma empty_fact_list_spoils_report_example :
  let W := toy_world "True" None 1 (fun g => [g]) apology in
  In (Some []) [Some ["The sky is blue."]; Some []] /\
  exists out tr,
    get_score W (default_scorer W) (PList ["sky"; "sea"])
              (PList ["The sky is blue."; "The sea."]) 0
              (Some [Some ["The sky is blue."]; Some []]) None = (Ok out, tr) /\
    (0 <= 0)%Z /\ score out = Np.NaN.
Proof.
  intros W. split; [right; now left|].
  destruct (get_score W (default_scorer W) (PList ["sky"; "sea"])
              (PList ["The sky is blue."; "The sea."]) 0
              (Some [Some ["The sky is blue."]; Some []]) None)
    as [[out|e] tr] eqn:E; [|vm_compute in E; discriminate].
  exists out, tr. split; [reflexivity|].
  refine (empty_fact_list_spoils_report W (default_scorer W) _ _ 0 _ _ _ _
            _ E).
  right. now left.
Defined.

(* ================================================================== *)
(** ** The model name and what it switches on *)

Lemma substring_skip (pre s : string) (i n : nat) :
  substring (String.length pre + i) n (pre ++ s) = substring i n s.
Proof.
  induction pre as [|c pre IH]; [reflexivity | exact IH].
Qed.

Lemma substring_none (i : nat) (s : string) : substring i 0 s = EmptyString.
Proof.
  revert i. induction s as [|c s IH]; intros [|i]; try reflexivity.
  simpl. apply IH.
Qed.

Lemma substring_within (s post : string) :
  forall i n sub,
    substring i n s = sub -> String.length sub = n ->
    substring i n (s ++ post) = sub.
Proof.
  induction s as [|c s IH]; intros i n sub Hsub Hlen.
  - assert (Hnil : sub = EmptyString)
      by (destruct i, n; simpl in Hsub; congruence).
    rewrite Hnil in Hlen |- *. simpl in Hlen. rewrite <- Hlen.
    apply substring_none.
  - destruct i as [|i].
    + destruct n as [|n]; [exact Hsub|]. simpl in Hsub |- *.
      destruct sub as [|d sub]; [discriminate|].
      inversion Hsub; subst d. f_equal.
      rewrite H1. apply IH; [exact H1 | simpl in Hlen; lia].
    + simpl in Hsub |- *. now apply IH.
Qed.

Lemma occurs_at_within (sub pre s post : string) (i : nat) :
  occurs_at sub s i -> occurs_at sub (pre ++ s ++ post) (String.length pre + i).
Proof.
  unfold occurs_at. intros H. rewrite substring_skip.
  now apply substring_within.
Qed.

Lemma contains_occurrence (sub s : string) (i : nat) :
  sub <> EmptyString -> occurs_at sub s i -> contains sub s = true.
Proof.
  intros Hne Hocc. destruct (contains sub s) eqn:E; [reflexivity|].
  exfalso. exact (contains_false_no_occurrence sub s i Hne E Hocc).
Qed.

Lemma contains_within (sub pre s post : string) :
  sub <> EmptyString ->
  contains sub s = true -> contains sub (pre ++ s ++ post) = true.
Proof.
  intros Hne H. destruct (contains_find _ _ H) as [i Hi].
  destruct (find_first_occurrence _ _ _ Hi) as [Hocc _].
  exact (contains_occurrence _ _ _ Hne (occurs_at_within sub pre s post i Hocc)).
Qed.

Lemma generate_model_name_shape (afg afv : string) (npm_flag retrieval_flag : bool) :
  generate_model_name afg afv npm_flag retrieval_flag =
  (if retrieval_flag then "retrieval+" else EmptyString)
  ++ afg ++ "+" ++ afv ++ (if npm_flag then "+npm" else EmptyString).
Proof.
  unfold generate_model_name.
  destruct npm_flag, retrieval_flag; simpl; rewrite ?append_nil_r; reflexivity.
Qed.

Lemma afg_in_model_name (sub afg afv : string) (n r : bool) :
  sub <> EmptyString -> contains sub afg = true ->
  contains sub (generate_model_name afg afv n r) = true.
Proof.
  intros Hne H. rewrite generate_model_name_shape. now apply contains_within.
Qed.

Lemma afv_in_model_name (sub afg afv : string) (n r : bool) :
  sub <> EmptyString -> contains sub afv = true ->
  contains sub (generate_model_name afg afv n r) = true.
Proof.
  intros Hne H. rewrite generate_model_name_shape.
  rewrite <- (append_assoc afg "+" (afv ++ _)), <- append_assoc.
  now apply contains_within.
Qed.

Lemma flag_in_model_name (afg afv : string) (r : bool) :
  contains "npm" (generate_model_name afg afv true r) = true.
Proof.
  rewrite generate_model_name_shape.
  rewrite <- (append_assoc afg "+" (afv ++ _)), <- (append_assoc _ afv).
  rewrite <- append_assoc.
  replace "+npm" with ("+" ++ "npm" ++ EmptyString) by reflexivity.
  rewrite <- (append_assoc _ "+"). now apply contains_within.
Qed.

(** X16: the verifier is chosen by substrings of the joined model name, in
    which the name of the generation model takes part: "inst-llama" in either
    model name selects the CLM backend whatever else the names hold, and a
    scorer is left without a verifier only if neither name contains
    "inst-llama", "ChatGPT" or "Llama-3.1". *)
Theorem verifier_chosen_by_joined_name (W : World) (afv afg : string)
    (npm_flag retrieval_flag : bool) (cost abstain : option string) :
  let self := __init__ W afv afg npm_flag retrieval_flag cost abstain in
  (contains "inst-llama" afg = true \/ contains "inst-llama" afv = true ->
   lm self = Some (CLM W "inst-llama-7B")) /\
  (lm self = None ->
   forall name key,
     In name [afg; afv] -> In key ["inst-llama"; "ChatGPT"; "Llama-3.1"] ->
     contains key name = false).
Proof.
  intros self. split.
  - intros H. unfold self, __init__. cbn [lm].
    assert (Hc : contains "inst-llama"
                   (generate_model_name afg afv npm_flag retrieval_flag) = true).
    { destruct H as [H | H];
        [apply afg_in_model_name | apply afv_in_model_name];
        (discriminate || exact H). }
    now rewrite Hc.
  - unfold self, __init__. cbn [lm]. intros Hnone name key Hname Hkey.
    destruct (contains key name) eqn:E; [exfalso | reflexivity].
    assert (Hne : key <> EmptyString).
    { destruct Hkey as [<- | [<- | [<- | []]]]; discriminate. }
    assert (Hc : contains key
                   (generate_model_name afg afv npm_flag retrieval_flag) = true).
    { destruct Hname as [<- | [<- | []]];
        [now apply afg_in_model_name | now apply afv_in_model_name]. }
    destruct Hkey as [<- | [<- | [<- | []]]];
      destruct (contains "inst-llama" _); try discriminate;
      destruct (contains "ChatGPT" _); try discriminate;
      destruct (contains "Llama-3.1" _); discriminate.
Qed.

Lemma verifier_chosen_by_joined_name_example :
  let W := toy_world "True" None 1 (fun g => [g]) apology in
  contains "inst-llama" "inst-llama-7B" = true /\
  lm (__init__ W "Llama-3.1-8B-Instruct" "inst-llama-7B" true true None None) =
    Some (CLM W "inst-llama-7B").
Proof.
  intros W. split; [reflexivity|].
  apply (verifier_chosen_by_joined_name W "Llama-3.1-8B-Instruct"
           "inst-llama-7B" true true None None).
  left. reflexivity.
Defined.

(** X17: the cross-checker is switched on by "npm" in the joined model name:
    setting [is_npm] enables it, and clearing [is_npm] does not disable it
    when one of the two model names contains "npm". *)
Theorem npm_enabled_by_joined_name (W : World) (afv afg : string)
    (npm_flag retrieval_flag : bool) (cost abstain : option string) :
  npm_flag = true \/ contains "npm" afg = true \/ contains "npm" afv = true ->
  npm_enabled (__init__ W afv afg npm_flag retrieval_flag cost abstain) = true.
Proof.
  unfold npm_enabled, __init__. cbn [model_name].
  intros [-> | [H | H]].
  - apply flag_in_model_name.
  - apply afg_in_model_name; [discriminate | exact H].
  - apply afv_in_model_name; [discriminate | exact H].
Qed.

Lemma npm_enabled_by_joined_name_example :
  let W := toy_world "True" None 1 (fun g => [g]) apology in
  contains "npm" "npm-single" = true /\
  npm_enabled (__init__ W "npm-single" "Llama-3.1-8B-Instruct" false true
                        None None) = true.
Proof.
  intros W. split; [reflexivity|].
  apply (npm_enabled_by_joined_name W "npm-single" "Llama-3.1-8B-Instruct"
           false true None None).
  right. right. reflexivity.
Defined.

(* ================================================================== *)
(** ** The reading loop of the script *)

Section ReadingLoop.
Local Open Scope script_scope.
Local Open Scope Z_scope.

Lemma and_then_Done {A B : Type} (m : outcome A) (k : A -> outcome B) (b : B) :
  and_then m k = Done b -> exists a, m = Done a /\ k a = Done b.
Proof.
  destruct m as [a|e]; [|discriminate]. intros H. now exists a.
Qed.

(** What a turn of the loop does to the variables. *)
Lemma read_line_adds (a : Main.args) (dp : Main.json) (st st' : Main.inputs)
    (at_end : bool) :
  Main.read_line a dp st = Done (st', at_end) ->
  Main.tot st' = Main.tot st + 1 /\
  ((at_end = false /\ Main.use_atomic_facts a = true /\
    Main.null_annotations dp /\
    Main.topics st' = Main.topics st /\
    Main.generations st' = Main.generations st /\
    Main.atomic_facts st' = Main.atomic_facts st) \/
   (at_end = true /\
    exists topic output,
      Main.getitem dp "topic" = Done topic /\
      Main.getitem dp "output" = Done output /\
      Main.topics st' = (Main.topics st ++ [topic])%list /\
      Main.generations st' = (Main.generations st ++ [output])%list /\
      ((Main.use_atomic_facts a = false /\
        Main.atomic_facts st' = Main.atomic_facts st) \/
       (Main.use_atomic_facts a = true /\
        exists annotations facts,
          Main.getitem dp "annotations" = Done annotations /\
          annotations <> Main.JNull /\
          Main.annotation_texts annotations = Done facts /\
          Main.atomic_facts st' = (Main.atomic_facts st ++ [facts])%list)))).
Proof.
  unfold Main.read_line. destruct (Main.use_atomic_facts a) eqn:Huse; intros H.
  - apply and_then_Done in H. destruct H as [present [_ H]].
    destruct (negb present); [discriminate|].
    apply and_then_Done in H. destruct H as [annotations [Hann H]].
    assert (Hnull : annotations = Main.JNull \/ annotations <> Main.JNull)
      by (destruct annotations; (now left) || (right; discriminate)).
    destruct Hnull as [-> | Hnot].
    + inversion H; subst. simpl. split; [reflexivity|]. left.
      now repeat split.
    + assert (H' :
        (topic <~ Main.getitem dp "topic" ;;
         output <~ Main.getitem dp "output" ;;
         facts <~ Main.annotation_texts annotations ;;
         Done ({| Main.topics := (Main.topics st ++ [topic])%list;
                  Main.generations := (Main.generations st ++ [output])%list;
                  Main.atomic_facts := (Main.atomic_facts st ++ [facts])%list;
                  Main.tot := Main.tot st + 1 |}, true)) = Done (st', at_end))
        by (destruct annotations; (exact H) || (now contradiction Hnot)).
      clear H. apply and_then_Done in H'. destruct H' as [topic [Ht H]].
      apply and_then_Done in H. destruct H as [output [Ho H]].
      apply and_then_Done in H. destruct H as [facts [Hf H]].
      inversion H; subst. simpl. split; [reflexivity|]. right.
      split; [reflexivity|]. exists topic, output. repeat split; auto.
      right. split; [reflexivity|]. exists annotations, facts.
      now repeat split.
  - apply and_then_Done in H. destruct H as [topic [Ht H]].
    apply and_then_Done in H. destruct H as [output [Ho H]].
    inversion H; subst. simpl. split; [reflexivity|]. right.
    split; [reflexivity|]. exists topic, output. repeat split; auto.
Qed.

Lemma read_cons (a : Main.args) (dp : Main.json) (rest : list Main.json)
    (st : Main.inputs) :
  Main.read a (dp :: rest) st =
  (r <~ Main.read_line a dp st ;;
   let (st', at_end) := r in
   if at_end && Main.limit_reached a st' then Done st'
   else Main.read a rest st').
Proof.
  reflexivity.
Qed.

Lemma read_invariant (a : Main.args) (lines : list Main.json) :
  forall st st',
    Main.read a lines st = Done st' ->
    (length (Main.topics st') - length (Main.topics st) =
     length (Main.generations st') - length (Main.generations st))%nat /\
    (length (Main.topics st) <= length (Main.topics st'))%nat /\
    (length (Main.generations st) <= length (Main.generations st'))%nat /\
    (Main.use_atomic_facts a = true ->
     (length (Main.atomic_facts st') - length (Main.atomic_facts st) =
      length (Main.topics st') - length (Main.topics st))%nat /\
     (length (Main.atomic_facts st) <= length (Main.atomic_facts st'))%nat) /\
    (Main.use_atomic_facts a = false ->
     Main.atomic_facts st' = Main.atomic_facts st) /\
    Main.tot st <= Main.tot st' <= Main.tot st + Z.of_nat (length lines) /\
    Z.of_nat (length (Main.topics st')) - Z.of_nat (length (Main.topics st))
      <= Main.tot st' - Main.tot st.
Proof.
  induction lines as [|dp rest IH]; intros st st' H.
  - simpl in H. inversion H; subst. repeat split; try lia; auto.
  - rewrite read_cons in H. apply and_then_Done in H.
    destruct H as [[st1 at_end] [Hline H]].
    destruct (read_line_adds _ _ _ _ _ Hline) as [Htot Hcases].
    assert (Hstep :
      (length (Main.topics st1) - length (Main.topics st) =
       length (Main.generations st1) - length (Main.generations st))%nat /\
      (length (Main.topics st) <= length (Main.topics st1))%nat /\
      (length (Main.generations st) <= length (Main.generations st1))%nat /\
      (Main.use_atomic_facts a = true ->
       (length (Main.atomic_facts st1) - length (Main.atomic_facts st) =
        length (Main.topics st1) - length (Main.topics st))%nat /\
       (length (Main.atomic_facts st) <= length (Main.atomic_facts st1))%nat) /\
      (Main.use_atomic_facts a = false ->
       Main.atomic_facts st1 = Main.atomic_facts st) /\
      Z.of_nat (length (Main.topics st1)) - Z.of_nat (length (Main.topics st))
        <= 1).
    { destruct Hcases as [[_ [Huse [_ [-> [-> ->]]]]] |
                          [_ [t [o [_ [_ [-> [-> Hfacts]]]]]]]].
      - repeat split; try lia; try congruence.
      - rewrite !length_app. simpl.
        destruct Hfacts as [[Huse ->] | [Huse [ann [fs [_ [_ [_ ->]]]]]]].
        + repeat split; try lia; try congruence.
        + rewrite !length_app. simpl. repeat split; try lia; try congruence. }
    assert (Hlen : length (dp :: rest) = S (length rest)) by reflexivity.
    rewrite Hlen, Nat2Z.inj_succ.
    destruct Hstep as [H1 [H2 [H3 [H4 [H5 H6]]]]].
    destruct (at_end && Main.limit_reached a st1).
    + inversion H; subst st'.
      split; [lia|]. split; [lia|]. split; [lia|].
      split; [intros Hu; destruct (H4 Hu); split; lia|].
      split; [exact H5 | lia].
    + destruct (IH _ _ H) as [I1 [I2 [I3 [I4 [I5 [I6 I7]]]]]].
      split; [lia|]. split; [lia|]. split; [lia|].
      split; [intros Hu; destruct (H4 Hu), (I4 Hu); split; lia|].
      split; [intros Hu; rewrite (I5 Hu); exact (H5 Hu) | lia].
Qed.

End ReadingLoop.

(** X18: when the reading loop of the script ends, it has collected as many
    topics as generations and, with [--use_atomic_facts], as many lists of
    facts, so the length assertions of [get_score] hold for what the script
    passes; without the flag no fact is collected and None is passed; and at
    most one response is collected per line read. *)
Theorem read_collects_aligned_lists (a : Main.args) (lines : list Main.json)
    (st : Main.inputs) :
  Main.read a lines Main.no_inputs = Done st ->
  length (Main.topics st) = length (Main.generations st) /\
  match Main.facts_argument a st with
  | Some facts => length (Main.topics st) = length facts
  | None => Main.atomic_facts st = []
  end /\
  (Z.of_nat (length (Main.topics st)) <= Main.tot st
   <= Z.of_nat (length lines))%Z.
Proof.
  intros H.
  destruct (read_invariant a lines _ _ H) as [I1 [I2 [I3 [I4 [I5 [I6 I7]]]]]].
  simpl in *. split; [lia|]. split; [|lia].
  unfold Main.facts_argument. destruct (Main.use_atomic_facts a).
  - destruct (I4 eq_refl). lia.
  - now apply I5.
Qed.

Lemma read_collects_aligned_lists_example :
  let a := {| Main.use_atomic_facts := true; Main.n_samples := Some 2%Z |} in
  exists st,
    Main.read a [annotated_line; null_line; annotated_line] Main.no_inputs =
      Done st /\
    length (Main.topics st) = length (Main.generations st) /\
    match Main.facts_argument a st with
    | Some facts => length (Main.topics st) = length facts
    | None => Main.atomic_facts st = []
    end /\
    (Z.of_nat (length (Main.topics st)) <= Main.tot st <= 3)%Z.
Proof.
  intros a.
  destruct (Main.read a [annotated_line; null_line; annotated_line]
                      Main.no_inputs) as [st|e] eqn:E;
    [|vm_compute in E; discriminate].
  exists st. split; [reflexivity|].
  exact (read_collects_aligned_lists a _ st E).
Defined.

Section SampleLimit.
Local Open Scope script_scope.
Local Open Scope Z_scope.

Variable a : Main.args.
Variable n : Z.
Hypothesis Hlimit : Main.n_samples a = Some n.

Lemma read_line_unlimited (dp : Main.json) (st : Main.inputs) :
  Main.read_line (Main.unlimited a) dp st = Main.read_line a dp st.
Proof.
  reflexivity.
Qed.

Lemma read_past_limit (lines : list Main.json) :
  forall st, n <= Main.tot st ->
             Main.read a lines st = Main.read (Main.unlimited a) lines st.
Proof.
  induction lines as [|dp rest IH]; intros st Hst; [reflexivity|].
  rewrite !read_cons, read_line_unlimited.
  destruct (Main.read_line a dp st) as [[st1 at_end]|e] eqn:Hline;
    [|reflexivity].
  destruct (read_line_adds _ _ _ _ _ Hline) as [Htot _]. simpl.
  unfold Main.limit_reached. rewrite Hlimit. simpl.
  assert (Hneq : (Main.tot st1 =? n) = false) by (apply Z.eqb_neq; lia).
  rewrite Hneq, !andb_false_r. apply IH. lia.
Qed.

Lemma read_up_to_limit (lines : list Main.json) :
  forall st,
    Main.tot st < n ->
    (forall dp,
        nth_error lines (Z.to_nat (n - Main.tot st) - 1) = Some dp ->
        Main.use_atomic_facts a = true /\ Main.null_annotations dp ->
        Main.read a lines st = Main.read (Main.unlimited a) lines st) /\
    ((forall dp,
         nth_error lines (Z.to_nat (n - Main.tot st) - 1) = Some dp ->
         ~ (Main.use_atomic_facts a = true /\ Main.null_annotations dp)) ->
     Main.read a lines st =
     Main.read (Main.unlimited a)
               (firstn (Z.to_nat (n - Main.tot st)) lines) st).
Proof.
  induction lines as [|dp rest IH]; intros st Hst.
  { split; [intros dp H; now destruct (Z.to_nat (n - Main.tot st) - 1)%nat|].
    intros _. now rewrite firstn_nil. }
  assert (Hk : exists k, Z.to_nat (n - Main.tot st) = S k).
  { exists (Z.to_nat (n - Main.tot st) - 1)%nat. lia. }
  destruct Hk as [k Hk]. rewrite Hk. simpl Nat.sub. rewrite Nat.sub_0_r.
  rewrite firstn_cons, !read_cons, read_line_unlimited.
  destruct (Main.read_line a dp st) as [[st1 at_end]|e] eqn:Hline;
    [|split; reflexivity].
  destruct (read_line_adds _ _ _ _ _ Hline) as [Htot Hcases]. simpl.
  unfold Main.limit_reached at 1 3. rewrite Hlimit. simpl.
  rewrite !andb_false_r.
  destruct k as [|k].
  - assert (Hn : (Main.tot st1 =? n) = true) by (apply Z.eqb_eq; lia).
    rewrite Hn, andb_true_r. split.
    + intros dp0 Hdp [Huse Hnull]. simpl in Hdp. inversion Hdp; subst dp0.
      assert (at_end = false) as ->.
      { destruct Hcases as [[-> _] | [_ [t [o [_ [_ [_ [_ Hf]]]]]]]];
          [reflexivity|].
        destruct Hf as [[Hu _] | [_ [ann [fs [Hann [Hnot _]]]]]]; [congruence|].
        unfold Main.null_annotations in Hnull. rewrite Hnull in Hann.
        inversion Hann. congruence. }
      apply read_past_limit. lia.
    + intros Hnot. assert (at_end = true) as ->.
      { destruct Hcases as [[_ [Huse [Hnull _]]] | [-> _]]; [|reflexivity].
        exfalso. apply (Hnot dp); [reflexivity | now split]. }
      reflexivity.
  - assert (Hn : (Main.tot st1 =? n) = false) by (apply Z.eqb_neq; lia).
    rewrite Hn, andb_false_r.
    assert (Hst1 : Main.tot st1 < n) by lia.
    destruct (IH st1 Hst1) as [IHskip IHstop].
    assert (Hk1 : Z.to_nat (n - Main.tot st1) = S k) by lia.
    rewrite Hk1 in IHskip, IHstop. simpl Nat.sub in IHskip, IHstop.
    rewrite Nat.sub_0_r in IHskip, IHstop.
    split; [exact IHskip | exact IHstop].
Qed.

End SampleLimit.

(** X19: [--n_samples n] with a positive n stops the reading after the n-th
    line of the file, unless that line is skipped for its null annotations:
    the loop then does what it does without a limit on the first n lines
    alone. A limit that is zero or negative never applies, and the whole file
    is read. *)
Theorem n_samples_reads_first_lines (a : Main.args) (n : Z)
    (lines : list Main.json) :
  Main.n_samples a = Some n ->
  ((n <= 0)%Z ->
   Main.read a lines Main.no_inputs =
   Main.read (Main.unlimited a) lines Main.no_inputs) /\
  ((0 < n)%Z ->
   (forall dp,
       nth_error lines (Z.to_nat n - 1) = Some dp ->
       ~ (Main.use_atomic_facts a = true /\ Main.null_annotations dp)) ->
   Main.read a lines Main.no_inputs =
   Main.read (Main.unlimited a) (firstn (Z.to_nat n) lines) Main.no_inputs).
Proof.
  intros Hlimit. split.
  - intros Hn. apply (read_past_limit a n Hlimit). simpl. exact Hn.
  - intros Hn Hnot.
    destruct (read_up_to_limit a n Hlimit lines Main.no_inputs Hn) as [_ H].
    simpl in H. rewrite Z.sub_0_r in H. exact (H Hnot).
Qed.

Lemma n_samples_reads_first_lines_example :
  let a := {| Main.use_atomic_facts := false; Main.n_samples := Some 1%Z |} in
  Main.n_samples a = Some 1%Z /\ (0 < 1)%Z /\
  Main.read a [plain_line; null_line; annotated_line] Main.no_inputs =
  Main.read (Main.unlimited a) [plain_line] Main.no_inputs.
Proof.
  intros a. split; [reflexivity|]. split; [lia|].
  destruct (n_samples_reads_first_lines a 1
              [plain_line; null_line; annotated_line] eq_refl) as [_ H].
  apply H; [lia|]. intros dp _ [Huse _]. discriminate Huse.
Defined.

(** X20: with [--use_atomic_facts], a line whose annotations are null is
    counted but skipped before the test of [--n_samples]; when it is the n-th
    line, the limit is never applied and the whole file is read. *)
Theorem null_line_disables_limit (a : Main.args) (n : Z)
    (lines : list Main.json) (dp : Main.json) :
  Main.n_samples a = Some n ->
  (0 < n)%Z ->
  Main.use_atomic_facts a = true ->
  nth_error lines (Z.to_nat n - 1) = Some dp ->
  Main.null_annotations dp ->
  Main.read a lines Main.no_inputs =
  Main.read (Main.unlimited a) lines Main.no_inputs.
Proof.
  intros Hlimit Hn Huse Hdp Hnull.
  destruct (read_up_to_limit a n Hlimit lines Main.no_inputs Hn) as [H _].
  simpl in H. rewrite Z.sub_0_r in H. apply (H dp Hdp). now split.
Qed.

Lemma null_line_disables_limit_example :
  let a := {| Main.use_atomic_facts := true; Main.n_samples := Some 1%Z |} in
  Main.null_annotations null_line /\
  Main.read a [null_line; annotated_line; annotated_line] Main.no_inputs =
  Main.read (Main.unlimited a) [null_line; annotated_line; annotated_line]
            Main.no_inputs /\
  exists st,
    Main.read a [null_line; annotated_line; annotated_line] Main.no_inputs =
      Done st /\
    length (Main.topics st) = 2%nat.
Proof.
  intros a. split; [reflexivity|]. split.
  - apply (null_line_disables_limit a 1
             [null_line; annotated_line; annotated_line] null_line);
      reflexivity || lia.
  - eexists. split; [vm_compute; reflexivity | reflexivity].
Defined.

Section Collected.
Local Open Scope script_scope.

Variable a : Main.args.
Hypothesis Hunlimited : Main.n_samples a = None.

Lemma read_collects (lines : list Main.json) :
  forall st st',
    Main.read a lines st = Done st' ->
    exists ts gs,
      Main.topics st' = (Main.topics st ++ ts)%list /\
      Main.generations st' = (Main.generations st ++ gs)%list /\
      Forall2 (fun dp t => Main.getitem dp "topic" = Done t)
              (filter (fun dp => negb (Main.skips a dp)) lines) ts /\
      Forall2 (fun dp g => Main.getitem dp "output" = Done g)
              (filter (fun dp => negb (Main.skips a dp)) lines) gs /\
      (Main.use_atomic_facts a = true ->
       exists fs,
         Main.atomic_facts st' = (Main.atomic_facts st ++ fs)%list /\
         Forall2 Main.facts_of_line
                 (filter (fun dp => negb (Main.skips a dp)) lines) fs).
Proof.
  induction lines as [|dp rest IH]; intros st st' H.
  - simpl in H. inversion H; subst. exists [], []. rewrite !app_nil_r.
    repeat split; try constructor.
    intros _. exists []. rewrite app_nil_r. split; constructor.
  - rewrite read_cons in H. apply and_then_Done in H.
    destruct H as [[st1 at_end] [Hline H]].
    unfold Main.limit_reached in H. rewrite Hunlimited, andb_false_r in H.
    destruct (IH _ _ H) as [ts [gs [Ht [Hg [Hts [Hgs Hfs]]]]]].
    destruct (read_line_adds _ _ _ _ _ Hline) as [_ Hcases].
    destruct Hcases as [[_ [Huse [Hnull [Et [Eg Ef]]]]] |
                        [_ [t [o [Htopic [Hout [Et [Eg Hfacts]]]]]]]].
    + assert (Hskip : Main.skips a dp = true).
      { unfold Main.skips. rewrite Huse. unfold Main.null_annotations in Hnull.
        now rewrite Hnull. }
      simpl filter. rewrite Hskip. simpl negb. cbv iota.
      rewrite Et in Ht. rewrite Eg in Hg. exists ts, gs.
      repeat split; auto. intros Hu. destruct (Hfs Hu) as [fs [Hf Hall]].
      exists fs. rewrite Ef in Hf. now split.
    + assert (Hskip : Main.skips a dp = false).
      { unfold Main.skips.
        destruct Hfacts as [[Huse _] | [_ [ann [fs [Hann [Hnot _]]]]]].
        - now rewrite Huse.
        - rewrite Hann. destruct ann; try apply andb_false_r.
          now contradiction Hnot. }
      simpl filter. rewrite Hskip. simpl negb. cbv iota.
      rewrite Et, <- app_assoc in Ht. rewrite Eg, <- app_assoc in Hg.
      exists (t :: ts), (o :: gs).
      split; [exact Ht|]. split; [exact Hg|].
      split; [now constructor|]. split; [now constructor|].
      intros Hu. destruct (Hfs Hu) as [fs [Hf Hall]].
      destruct Hfacts as [[Huse _] | [_ [ann [f [Hann [_ [Htexts Ef]]]]]]];
        [congruence|].
      exists (f :: fs). rewrite Ef, <- app_assoc in Hf.
      split; [exact Hf|]. constructor; [|exact Hall]. now exists ann.
Qed.

End Collected.

(** X21: without [--n_samples], when the reading loop ends it has collected,
    in the order of the file, the topic and the output of every line it does
    not skip, and with [--use_atomic_facts] the texts of all its atomic facts;
    the only lines skipped are those with null annotations under
    [--use_atomic_facts]. *)
Theorem read_keeps_file_order (a : Main.args) (lines : list Main.json)
    (st : Main.inputs) :
  Main.n_samples a = None ->
  Main.read a lines Main.no_inputs = Done st ->
  Forall2 (fun dp t => Main.getitem dp "topic" = Done t)
          (filter (fun dp => negb (Main.skips a dp)) lines) (Main.topics st) /\
  Forall2 (fun dp g => Main.getitem dp "output" = Done g)
          (filter (fun dp => negb (Main.skips a dp)) lines)
          (Main.generations st) /\
  (Main.use_atomic_facts a = true ->
   Forall2 Main.facts_of_line
           (filter (fun dp => negb (Main.skips a dp)) lines)
           (Main.atomic_facts st)).
Proof.
  intros Hn H.
  destruct (read_collects a Hn lines _ _ H)
    as [ts [gs [Ht [Hg [Hts [Hgs Hfs]]]]]].
  simpl in Ht, Hg. subst ts gs. split; [exact Hts|]. split; [exact Hgs|].
  intros Hu. destruct (Hfs Hu) as [fs [Hf Hall]]. simpl in Hf. now subst fs.
Qed.

Lemma read_keeps_file_order_example :
  let a := {| Main.use_atomic_facts := true; Main.n_samples := None |} in
  exists st,
    Main.read a [annotated_line; null_line; annotated_line] Main.no_inputs =
      Done st /\
    Forall2 (fun dp t => Main.getitem dp "topic" = Done t)
            [annotated_line; annotated_line] (Main.topics st) /\
    Forall2 Main.facts_of_line [annotated_line; annotated_line]
            (Main.atomic_facts st).
Proof.
  intros a.
  destruct (Main.read a [annotated_line; null_line; annotated_line]
                      Main.no_inputs) as [st|e] eqn:E;
    [|vm_compute in E; discriminate].
  exists st. split; [reflexivity|].
  destruct (read_keeps_file_order a _ st eq_refl E) as [Ht [_ Hf]].
  split; [exact Ht | exact (Hf eq_refl)].
Defined.

Section ReadFailures.
Local Open Scope script_scope.

Lemma and_then_Failed {A B : Type} (m : outcome A) (k : A -> outcome B)
    (e : error) :
  and_then m k = Failed e ->
  m = Failed e \/ exists x, m = Done x /\ k x = Failed e.
Proof.
  destruct m as [x|e']; simpl; intros H; [right; now exists x|].
  left. now inversion H.
Qed.

Lemma getitem_fails (dp : Main.json) (key : string) (e : error) :
  Main.getitem dp key = Failed e -> e = KeyError \/ e = Exn TypeError.
Proof.
  destruct dp; simpl; intros H; try (inversion H; now right).
  destruct (List.find (Main.has_key key) items); inversion H. now left.
Qed.

Lemma iterate_fails (j : Main.json) (e : error) :
  Main.iterate j = Failed e -> e = KeyError \/ e = Exn TypeError.
Proof.
  destruct j; simpl; intros H; inversion H; now right.
Qed.

Lemma traverse_fails {A B : Type} (f : A -> outcome B) (l : list A) (e : error) :
  (forall x e', f x = Failed e' -> e' = KeyError \/ e' = Exn TypeError) ->
  traverse f l = Failed e -> e = KeyError \/ e = Exn TypeError.
Proof.
  intros Hf. induction l as [|x rest IH]; simpl; intros H; [discriminate|].
  apply and_then_Failed in H. destruct H as [H | [y [_ H]]];
    [exact (Hf _ _ H)|].
  apply and_then_Failed in H. destruct H as [H | [ys [_ H]]];
    [exact (IH H) | discriminate].
Qed.

Lemma atom_texts_fails (sent : Main.json) (e : error) :
  Main.atom_texts sent = Failed e -> e = KeyError \/ e = Exn TypeError.
Proof.
  unfold Main.atom_texts. intros H.
  apply and_then_Failed in H. destruct H as [H | [facts [_ H]]];
    [exact (getitem_fails _ _ _ H)|].
  apply and_then_Failed in H. destruct H as [H | [atoms [_ H]]];
    [exact (iterate_fails _ _ H)|].
  apply (traverse_fails _ _ _ (fun atom e' => getitem_fails atom "text" e') H).
Qed.

Lemma annotation_texts_fails (annotations : Main.json) (e : error) :
  Main.annotation_texts annotations = Failed e ->
  e = KeyError \/ e = Exn TypeError.
Proof.
  unfold Main.annotation_texts. intros H.
  apply and_then_Failed in H. destruct H as [H | [sents [_ H]]];
    [exact (iterate_fails _ _ H)|].
  apply and_then_Failed in H. destruct H as [H | [texts [_ H]]];
    [|discriminate].
  exact (traverse_fails _ _ _ atom_texts_fails H).
Qed.

Lemma read_line_fails (a : Main.args) (dp : Main.json) (st : Main.inputs)
    (e : error) :
  Main.read_line a dp st = Failed e ->
  (e = Exn AssertionError /\ Main.use_atomic_facts a = true /\
   Main.json_in "annotations" dp = Done false) \/
  e = KeyError \/ e = Exn TypeError.
Proof.
  unfold Main.read_line. destruct (Main.use_atomic_facts a); intros H.
  - apply and_then_Failed in H. destruct H as [H | [present [Hin H]]].
    + right. destruct dp; simpl in H; inversion H; now right.
    + destruct present; simpl in H.
      * right. apply and_then_Failed in H.
        destruct H as [H | [ann [_ H]]]; [exact (getitem_fails _ _ _ H)|].
        assert (H' :
          (topic <~ Main.getitem dp "topic" ;;
           output <~ Main.getitem dp "output" ;;
           facts <~ Main.annotation_texts ann ;;
           Done ({| Main.topics := (Main.topics st ++ [topic])%list;
                    Main.generations := (Main.generations st ++ [output])%list;
                    Main.atomic_facts := (Main.atomic_facts st ++ [facts])%list;
                    Main.tot := (Main.tot st + 1)%Z |}, true)) = Failed e)
          by (destruct ann; (exact H) || discriminate).
        clear H. apply and_then_Failed in H'.
        destruct H' as [H | [t [_ H]]]; [exact (getitem_fails _ _ _ H)|].
        apply and_then_Failed in H.
        destruct H as [H | [o [_ H]]]; [exact (getitem_fails _ _ _ H)|].
        apply and_then_Failed in H.
        destruct H as [H | [fs [_ H]]];
          [exact (annotation_texts_fails _ _ H) | discriminate].
      * left. inversion H. now repeat split.
  - right. apply and_then_Failed in H.
    destruct H as [H | [t [_ H]]]; [exact (getitem_fails _ _ _ H)|].
    apply and_then_Failed in H.
    destruct H as [H | [o [_ H]]]; [exact (getitem_fails _ _ _ H)|].
    discriminate.
Qed.

End ReadFailures.

Section ReadFile.
Local Open Scope script_scope.

Lemma read_file_cons (a : Main.args) (l : Main.line) (rest : list Main.line)
    (st : Main.inputs) :
  Main.read_file a (l :: rest) st =
  (dp <~ Main.loads l ;;
   r <~ Main.read_line a dp st ;;
   let (st', at_end) := r in
   if at_end && Main.limit_reached a st' then Done st'
   else Main.read_file a rest st').
Proof.
  reflexivity.
Qed.

(** On a file whose lines all parse, the loop is [Main.read] on the parsed
    values. *)
Lemma read_file_parsed (a : Main.args) (dps : list Main.json) :
  forall st, Main.read_file a (map Main.Parsed dps) st = Main.read a dps st.
Proof.
  induction dps as [|dp rest IH]; intros st; [reflexivity|].
  change (map Main.Parsed (dp :: rest))
    with (Main.Parsed dp :: map Main.Parsed rest).
  rewrite read_file_cons, read_cons. simpl Main.loads. cbn [and_then].
  destruct (Main.read_line a dp st) as [[st1 at_end]|e]; [|reflexivity].
  cbn [and_then].
  destruct (at_end && Main.limit_reached a st1); [reflexivity | apply IH].
Qed.

Lemma read_file_fails (a : Main.args) (lines : list Main.line) :
  forall st e,
    Main.read_file a lines st = Failed e ->
    In (Main.Rejected e) lines \/
    (e = Exn AssertionError /\ Main.use_atomic_facts a = true /\
     exists dp, In (Main.Parsed dp) lines /\
                Main.json_in "annotations" dp = Done false) \/
    e = KeyError \/ e = Exn TypeError.
Proof.
  induction lines as [|l rest IH]; intros st e H; [discriminate|].
  rewrite read_file_cons in H. destruct l as [dp|e0].
  - simpl Main.loads in H. cbn [and_then] in H.
    apply and_then_Failed in H. destruct H as [H | [[st1 at_end] [_ H]]].
    + destruct (read_line_fails _ _ _ _ H) as [[He [Hu Hin]] | Hother];
        [|right; right; exact Hother].
      right. left. split; [exact He|]. split; [exact Hu|].
      exists dp. split; [now left | exact Hin].
    + destruct (at_end && Main.limit_reached a st1); [discriminate|].
      destruct (IH _ _ H)
        as [Hin | [[He [Hu [dp' [Hin Hdp]]]] | Hother]].
      * left. now right.
      * right. left. split; [exact He|]. split; [exact Hu|].
        exists dp'. split; [now right | exact Hdp].
      * right. right. exact Hother.
  - simpl in H. inversion H; subst e0. left. now left.
Qed.

End ReadFile.

(** X22: the reading loop, from the lines of the file on, fails in four
    ways only: with the exception of a line that is rejected when it is read
    and parsed (the JSONDecodeError of [json.loads], a ValueError, for a blank
    or malformed line); with AssertionError, only under [--use_atomic_facts]
    and on a parsed line that holds no annotations; and with the KeyError or
    the TypeError of a parsed line that has not the expected shape. *)
Theorem read_file_failures (a : Main.args) (lines : list Main.line)
    (e : error) :
  Main.read_file a lines Main.no_inputs = Failed e ->
  In (Main.Rejected e) lines \/
  (e = Exn AssertionError /\ Main.use_atomic_facts a = true /\
   exists dp, In (Main.Parsed dp) lines /\
              Main.json_in "annotations" dp = Done false) \/
  e = KeyError \/ e = Exn TypeError.
Proof.
  apply read_file_fails.
Qed.

Lemma read_file_failures_example :
  let a := {| Main.use_atomic_facts := true; Main.n_samples := None |} in
  let blank := Main.Rejected (Exn ValueError) in
  Main.read_file a [Main.Parsed annotated_line; blank; Main.Parsed plain_line]
                 Main.no_inputs = Failed (Exn ValueError) /\
  Main.read_file a [Main.Parsed annotated_line; Main.Parsed plain_line; blank]
                 Main.no_inputs = Failed (Exn AssertionError) /\
  In blank [Main.Parsed annotated_line; blank; Main.Parsed plain_line].
Proof.
  intros a blank.
  assert (E : Main.read_file a [Main.Parsed annotated_line; blank;
                                Main.Parsed plain_line] Main.no_inputs =
              Failed (Exn ValueError)) by (vm_compute; reflexivity).
  split; [exact E|]. split; [vm_compute; reflexivity|].
  destruct (read_file_failures a _ _ E)
    as [Hin | [[He _] | [He | He]]]; [exact Hin | | |]; discriminate He.
Defined.

(* ================================================================== *)
(** ** The path of the results *)

Section Replace.

Lemma index_cons (old : string) (c : ascii) (s : string) :
  String.index 0 old (String c s) =
  if String.prefix old (String c s) then Some 0%nat
  else match String.index 0 old s with
       | Some n => Some (S n)
       | None => None
       end.
Proof.
  reflexivity.
Qed.

Lemma contains_cons (old : string) (c : ascii) (s : string) :
  contains old (String c s) =
  String.prefix old (String c s) || contains old s.
Proof.
  unfold contains, find. rewrite index_cons.
  destruct (String.prefix old (String c s)); [reflexivity|].
  destruct (String.index 0 old s); reflexivity.
Qed.

Lemma replace_from_cons (old new : string) (c : ascii) (s : string) :
  replace_from 0 old new (String c s) =
  if String.prefix old (String c s)
  then new ++ replace_from (String.length old - 1) old new s
  else String c (replace_from 0 old new s).
Proof.
  reflexivity.
Qed.

Lemma length_append (s t : string) :
  String.length (s ++ t) = (String.length s + String.length t)%nat.
Proof.
  induction s as [|c s IH]; [reflexivity|]. simpl. now rewrite IH.
Qed.

Lemma replace_absent (old new s : string) :
  contains old s = false -> replace old new s = s.
Proof.
  unfold replace. induction s as [|c s IH]; intros H; [reflexivity|].
  rewrite contains_cons in H. apply orb_false_elim in H. destruct H as [Hp Hc].
  rewrite replace_from_cons, Hp. f_equal. now apply IH.
Qed.

Lemma replace_from_length (old new s : string) :
  (1 <= String.length old <= String.length new)%nat ->
  forall k,
    (String.length s <= String.length (replace_from k old new s) + k)%nat.
Proof.
  intros Hlen. induction s as [|c s IH]; intros k; [simpl; lia|].
  destruct k as [|k].
  - rewrite replace_from_cons. destruct (String.prefix old (String c s)).
    + rewrite length_append. specialize (IH (String.length old - 1)%nat).
      simpl String.length. lia.
    + specialize (IH 0%nat). simpl String.length. lia.
  - specialize (IH k). simpl. lia.
Qed.

Lemma replace_present_longer (old new s : string) :
  (1 <= String.length old < String.length new)%nat ->
  contains old s = true ->
  (String.length s < String.length (replace old new s))%nat.
Proof.
  intros Hlen. unfold replace. induction s as [|c s IH]; intros H.
  - destruct old; [simpl in Hlen; lia | discriminate].
  - rewrite contains_cons in H. rewrite replace_from_cons.
    destruct (String.prefix old (String c s)).
    + rewrite length_append.
      pose proof (replace_from_length old new s ltac:(lia)
                    (String.length old - 1)%nat).
      simpl String.length. lia.
    + simpl in H. specialize (IH H). simpl String.length. lia.
Qed.

(** A word without [c] that is no prefix of [s] is no prefix of [s] followed
    by [c] and more. *)
Lemma prefix_not_extended (c : ascii) (t : string) :
  forall p s,
    ~ In c (list_ascii_of_string p) ->
    String.prefix p s = false ->
    String.prefix p (s ++ String c t) = false.
Proof.
  induction p as [|a p IH]; intros s Hc H; [destruct s; discriminate|].
  destruct s as [|b s].
  - change (String.prefix (String a p) (String c t) = false).
    change (String.prefix (String a p) (String c t))
      with (if ascii_dec a c then String.prefix p t else false).
    destruct (ascii_dec a c) as [-> | _]; [|reflexivity].
    exfalso. apply Hc. now left.
  - change (String.prefix (String a p) (String b (s ++ String c t)) = false).
    change (String.prefix (String a p) (String b (s ++ String c t)))
      with (if ascii_dec a b then String.prefix p (s ++ String c t) else false).
    change (String.prefix (String a p) (String b s))
      with (if ascii_dec a b then String.prefix p s else false) in H.
    destruct (ascii_dec a b); [|reflexivity].
    apply IH; [|exact H]. intros Hin. apply Hc. now right.
Qed.

Lemma replace_suffix (c : ascii) (old new stem : string) :
  ~ In c (list_ascii_of_string old) ->
  contains (String c old) stem = false ->
  replace (String c old) new (stem ++ String c old) = stem ++ new.
Proof.
  intros Hc. unfold replace. induction stem as [|b stem IH]; intros H.
  - change (EmptyString ++ String c old) with (String c old).
    rewrite replace_from_cons.
    assert (Hp : String.prefix (String c old) (String c old) = true).
    { rewrite <- (append_nil_r (String c old)) at 2. apply prefix_append. }
    rewrite Hp.
    change (String.length (String c old) - 1)%nat with (String.length old - 0)%nat.
    rewrite Nat.sub_0_r.
    assert (Hskip : forall s, replace_from (String.length s) (String c old)
                                           new s = EmptyString).
    { induction s as [|x s IHs]; [reflexivity | exact IHs]. }
    rewrite Hskip. now rewrite append_nil_r.
  - rewrite contains_cons in H. apply orb_false_elim in H.
    destruct H as [Hp Hcont].
    change ((String b stem) ++ String c old)
      with (String b (stem ++ String c old)).
    rewrite replace_from_cons.
    assert (Hp' : String.prefix (String c old)
                                (String b (stem ++ String c old)) = false).
    { change (String.prefix (String c old) (String b (stem ++ String c old)))
        with (if ascii_dec c b then String.prefix old (stem ++ String c old)
              else false).
      change (String.prefix (String c old) (String b stem))
        with (if ascii_dec c b then String.prefix old stem else false) in Hp.
      destruct (ascii_dec c b); [|reflexivity].
      now apply prefix_not_extended. }
    rewrite Hp'. simpl. f_equal. now apply IH.
Qed.

End Replace.

(** X23: the results are written over the input file exactly when its path
    does not contain ".jsonl": the output path is then the input path. *)
Theorem output_path_overwrites_input (input_path : string) :
  Main.output_path input_path = input_path <->
  contains ".jsonl" input_path = false.
Proof.
  unfold Main.output_path. split.
  - intros H. destruct (contains ".jsonl" input_path) eqn:E; [|reflexivity].
    exfalso.
    assert (Hlt := replace_present_longer ".jsonl" "_factscore_output.json"
                     input_path ltac:(simpl; lia) E).
    rewrite H in Hlt. lia.
  - apply replace_absent.
Qed.

(** X24: for an input path that ends with ".jsonl" and does not contain it
    before, the output path is the input path with that ending replaced by
    "_factscore_output.json". *)
Theorem output_path_replaces_suffix (stem : string) :
  contains ".jsonl" stem = false ->
  Main.output_path (stem ++ ".jsonl") = stem ++ "_factscore_output.json".
Proof.
  intros H. unfold Main.output_path.
  apply (replace_suffix "."%char "jsonl" "_factscore_output.json" stem);
    [|exact H].
  cbn [list_ascii_of_string In].
  intros [E | [E | [E | [E | [E | E]]]]]; (discriminate E || contradiction).
Qed.

Lemma output_path_replaces_suffix_example :
  contains ".jsonl" "data/unlabeled/ChatGPT" = false /\
  Main.output_path "data/unlabeled/ChatGPT.jsonl" =
    "data/unlabeled/ChatGPT_factscore_output.json".
Proof.
  split; [reflexivity|].
  exact (output_path_replaces_suffix "data/unlabeled/ChatGPT" eq_refl).
Defined.

(* ================================================================== *)
(** ** [Llama3LM]: the chat format *)

Section Pieces.

Lemma prefix_cons (a b : ascii) (p s : string) :
  String.prefix (String a p) (String b s) =
  if ascii_dec a b then String.prefix p s else false.
Proof.
  reflexivity.
Qed.

Lemma prefix_nil (s : string) : String.prefix EmptyString s = true.
Proof.
  now destruct s.
Qed.

Lemma prefix_length (p s : string) :
  String.prefix p s = true -> (String.length p <= String.length s)%nat.
Proof.
  revert s. induction p as [|a p IH]; intros s H; [simpl; lia|].
  destruct s as [|b s]; [discriminate|]. rewrite prefix_cons in H.
  destruct (ascii_dec a b); [|discriminate]. specialize (IH _ H). simpl. lia.
Qed.

Lemma rsplit_on_aux_cons (sep : string) (c : ascii) (s : string) :
  rsplit_on_aux sep (String c s) =
  let (p, ps) := rsplit_on_aux sep s in
  if String.prefix sep (String c s)
     && (String.length sep - 1 <=? String.length p)%nat
  then (EmptyString, drop (String.length sep - 1) p :: ps)
  else (String c p, ps).
Proof.
  reflexivity.
Qed.

(** Without the separator there is one piece, the string itself. *)
Lemma rsplit_absent (sep s : string) :
  contains sep s = false -> rsplit_on_aux sep s = (s, []).
Proof.
  induction s as [|c s IH]; intros H; [reflexivity|].
  rewrite contains_cons in H. apply orb_false_elim in H. destruct H as [Hp Hc].
  rewrite rsplit_on_aux_cons, (IH Hc), Hp. reflexivity.
Qed.

(** With the separator there are at least two pieces. *)
Lemma rsplit_present (sep s : string) :
  sep <> EmptyString ->
  contains sep s = true -> snd (rsplit_on_aux sep s) <> [].
Proof.
  intros Hsep. induction s as [|c s IH]; intros H.
  - destruct sep; [now contradiction Hsep | discriminate].
  - rewrite contains_cons in H. rewrite rsplit_on_aux_cons.
    destruct (contains sep s) eqn:Hc.
    + specialize (IH eq_refl). destruct (rsplit_on_aux sep s) as [p ps].
      simpl in IH.
      destruct (String.prefix sep (String c s)
                && (String.length sep - 1 <=? String.length p)%nat);
        simpl; [discriminate | exact IH].
    + rewrite orb_false_r in H. rewrite (rsplit_absent _ _ Hc), H.
      pose proof (prefix_length _ _ H) as Hlen. simpl in Hlen.
      assert (Hle : (String.length sep - 1 <=? String.length s)%nat = true)
        by (apply Nat.leb_le; lia).
      rewrite Hle. simpl. discriminate.
Qed.

Lemma nl_prefix_cons (c : ascii) (s : string) :
  String.prefix nl (String c s) = if ascii_dec (chr 10) c then true else false.
Proof.
  unfold nl. now rewrite prefix_cons, prefix_nil.
Qed.

Lemma blank_line_prefix_cons (c : ascii) (s : string) :
  String.prefix Llama3.blank_line (String c s) =
  if ascii_dec (chr 10) c then String.prefix nl s else false.
Proof.
  reflexivity.
Qed.

Lemma contains_nl_cons (c : ascii) (s : string) :
  contains nl (String c s) =
  (if ascii_dec (chr 10) c then true else false) || contains nl s.
Proof.
  now rewrite contains_cons, nl_prefix_cons.
Qed.

Lemma contains_blank_line_cons (c : ascii) (s : string) :
  contains Llama3.blank_line (String c s) =
  (if ascii_dec (chr 10) c then String.prefix nl s else false)
  || contains Llama3.blank_line s.
Proof.
  now rewrite contains_cons, blank_line_prefix_cons.
Qed.

(** The first piece of a prompt is what precedes its first blank line, when
    it holds no blank line itself and what follows the blank line does not
    start with a newline. *)
Lemma rsplit_first_piece (a rest : string) :
  contains Llama3.blank_line a = false ->
  String.prefix nl rest = false ->
  rsplit_on_aux Llama3.blank_line (a ++ Llama3.blank_line ++ rest) =
  (a, rsplit_on Llama3.blank_line rest).
Proof.
  intros Ha Hrest. induction a as [|c a IH].
  - change (EmptyString ++ Llama3.blank_line ++ rest)
      with (String (chr 10) (String (chr 10) rest)).
    rewrite !rsplit_on_aux_cons. unfold rsplit_on.
    destruct (rsplit_on_aux Llama3.blank_line rest) as [p ps].
    rewrite !blank_line_prefix_cons, Hrest, nl_prefix_cons.
    destruct (ascii_dec (chr 10) (chr 10)) as [_ | Hne];
      [reflexivity | now contradiction Hne].
  - rewrite contains_blank_line_cons in Ha. apply orb_false_elim in Ha.
    destruct Ha as [Hc Ha].
    change (String c a ++ Llama3.blank_line ++ rest)
      with (String c (a ++ Llama3.blank_line ++ rest)).
    rewrite rsplit_on_aux_cons, (IH Ha), blank_line_prefix_cons.
    destruct (ascii_dec (chr 10) c) as [Hnl | Hnl]; [|reflexivity].
    destruct a as [|d a].
    + now rewrite andb_false_r.
    + change (String d a ++ Llama3.blank_line ++ rest)
        with (String d (a ++ Llama3.blank_line ++ rest)).
      rewrite nl_prefix_cons. rewrite nl_prefix_cons in Hc.
      destruct (ascii_dec (chr 10) d); [discriminate Hc | reflexivity].
Qed.

End Pieces.

Section ChatFormatter.
Local Open Scope script_scope.

Variable B : Llama3.Backend.
Variable self : Llama3.Llama3LM.

Lemma traverse_Done {A C : Type} (f : A -> outcome C) (l : list A) :
  Forall (fun x => exists y, f x = Done y) l ->
  exists ys, traverse f l = Done ys /\ length ys = length l.
Proof.
  induction 1 as [|x rest [y Hy] _ [ys [Hys Hlen]]].
  - exists []. now split.
  - exists (y :: ys). simpl. rewrite Hy, Hys. simpl. split; [reflexivity|].
    now rewrite Hlen.
Qed.

Lemma traverse_Failed {A C : Type} (f : A -> outcome C) (l : list A)
    (e : error) :
  Forall (fun x => (exists y, f x = Done y) \/ f x = Failed e) l ->
  Exists (fun x => f x = Failed e) l ->
  traverse f l = Failed e.
Proof.
  induction 1 as [|x rest Hx _ IH]; intros Hex; [inversion Hex|].
  simpl. destruct Hx as [[y Hy] | Hx].
  - rewrite Hy. simpl. inversion Hex as [? ? Hhead | ? ? Htail]; subst.
    + congruence.
    + now rewrite (IH Htail).
  - now rewrite Hx.
Qed.

Lemma traverse_Done_inv {A C : Type} (f : A -> outcome C) (l : list A)
    (ys : list C) :
  traverse f l = Done ys -> Forall2 (fun x y => f x = Done y) l ys.
Proof.
  revert ys. induction l as [|x rest IH]; intros ys H.
  - inversion H. constructor.
  - simpl in H. destruct (f x) as [y|e] eqn:Hx; [|discriminate].
    simpl in H. destruct (traverse f rest) as [ys'|e] eqn:Hr; [|discriminate].
    inversion H; subst. constructor; [exact Hx | now apply IH].
Qed.

Lemma traverse_Failed_inv {A C : Type} (f : A -> outcome C) (l : list A)
    (e : error) :
  traverse f l = Failed e -> exists x, In x l /\ f x = Failed e.
Proof.
  induction l as [|x rest IH]; intros H; [discriminate|].
  simpl in H. destruct (f x) as [y|e'] eqn:Hx.
  - simpl in H. destruct (traverse f rest) as [ys|e''] eqn:Hr; [discriminate|].
    inversion H; subst. destruct (IH eq_refl) as [x' [Hin Hf]].
    exists x'. split; [now right | exact Hf].
  - inversion H; subst. exists x. split; [now left | exact Hx].
Qed.

Lemma format_prompt_afv (prompt : string) :
  Llama3.mode self = "afv" ->
  Llama3.format_prompt B self prompt =
  Done (Llama3.apply_chat_template B
          [{| Llama3.role := "system"; Llama3.content := Llama3.afv_instruct |};
           {| Llama3.role := "user"; Llama3.content := prompt |}]).
Proof.
  intros Hmode. unfold Llama3.format_prompt. now rewrite Hmode.
Qed.

Lemma format_prompt_cases (prompt : string) :
  Llama3.mode self <> "afv" ->
  (contains Llama3.blank_line prompt = true ->
   exists out, Llama3.format_prompt B self prompt = Done out) /\
  (contains Llama3.blank_line prompt = false ->
   Llama3.format_prompt B self prompt = Failed (Exn IndexError)).
Proof.
  intros Hmode. unfold Llama3.format_prompt.
  apply String.eqb_neq in Hmode. rewrite Hmode. unfold rsplit_on. split.
  - intros H.
    assert (Hsep : Llama3.blank_line <> EmptyString) by discriminate.
    pose proof (rsplit_present _ _ Hsep H) as Hps.
    change (nl ++ nl) with Llama3.blank_line.
    destruct (rsplit_on_aux Llama3.blank_line prompt) as [p [|q ps]];
      [now contradiction Hps|].
    simpl. now eexists.
  - intros H. change (nl ++ nl) with Llama3.blank_line.
    now rewrite (rsplit_absent _ _ H).
Qed.

Lemma format_prompt_fails (prompt : string) (e : error) :
  Llama3.format_prompt B self prompt = Failed e ->
  e = Exn IndexError /\ Llama3.mode self <> "afv" /\
  contains Llama3.blank_line prompt = false.
Proof.
  intros H. destruct (String.eqb_spec (Llama3.mode self) "afv") as [Hm | Hm].
  - rewrite (format_prompt_afv prompt Hm) in H. discriminate.
  - destruct (format_prompt_cases prompt Hm) as [Hok Hfail].
    destruct (contains Llama3.blank_line prompt) eqn:E.
    + destruct (Hok eq_refl) as [out Hout]. congruence.
    + rewrite (Hfail eq_refl) in H. inversion H. now repeat split.
Qed.

End ChatFormatter.

Lemma chat_formatter_needs_blank_line_helper (B : Llama3.Backend)
    (self : Llama3.Llama3LM) (prompts : list string) :
  (Llama3.mode self = "afv" \/
   Forall (fun p => contains Llama3.blank_line p = true) prompts ->
   exists out,
     Llama3.chat_formatter B self prompts = Done out /\
     length out = length prompts) /\
  (Llama3.mode self <> "afv" ->
   Exists (fun p => contains Llama3.blank_line p = false) prompts ->
   Llama3.chat_formatter B self prompts = Failed (Exn IndexError)).
Proof.
  unfold Llama3.chat_formatter. split.
  - intros H. apply traverse_Done. apply Forall_forall. intros p Hp.
    destruct (String.eqb_spec (Llama3.mode self) "afv") as [Hm | Hm].
    + rewrite (format_prompt_afv B self p Hm). now eexists.
    + destruct H as [H | H]; [now contradiction Hm|].
      rewrite Forall_forall in H.
      exact (proj1 (format_prompt_cases B self p Hm) (H p Hp)).
  - intros Hm Hex. apply traverse_Failed.
    + apply Forall_forall. intros p _.
      destruct (format_prompt_cases B self p Hm) as [Hok Hfail].
      destruct (contains Llama3.blank_line p);
        [left; now apply Hok | right; now apply Hfail].
    + apply Exists_exists. apply Exists_exists in Hex.
      destruct Hex as [p [Hin Hp]]. exists p. split; [exact Hin|].
      exact (proj2 (format_prompt_cases B self p Hm) Hp).
Qed.

(** X25: [chat_formatter] returns one formatted prompt per prompt in the
    verification mode, whatever the prompts; in the other mode it does so
    when every prompt contains a blank line (two newlines in a row), and it
    raises IndexError as soon as one prompt does not. *)
Theorem chat_formatter_needs_blank_line (B : Llama3.Backend)
    (self : Llama3.Llama3LM) (prompts : list string) :
  (Llama3.mode self = "afv" \/
   Forall (fun p => contains Llama3.blank_line p = true) prompts ->
   exists out,
     Llama3.chat_formatter B self prompts = Done out /\
     length out = length prompts) /\
  (Llama3.mode self <> "afv" ->
   Exists (fun p => contains Llama3.blank_line p = false) prompts ->
   Llama3.chat_formatter B self prompts = Failed (Exn IndexError)).
Proof.
  apply chat_formatter_needs_blank_line_helper.
Qed.

(** X26: outside the verification mode, of a prompt made of pieces
    separated by blank lines [chat_formatter] keeps the first two: for a
    prompt [a], blank line, [b], blank line, [rest], where the pieces [a] and
    [b] hold no blank line (they may hold single newlines), [b] is not empty,
    and neither [b] nor [rest] starts with a newline, the first piece goes
    into the system message after the instructions, the second one is the
    user message, and [rest] is left out. *)
Theorem chat_formatter_keeps_two_pieces (B : Llama3.Backend)
    (self : Llama3.Llama3LM) (a b rest : string) :
  Llama3.mode self <> "afv" ->
  contains Llama3.blank_line a = false ->
  contains Llama3.blank_line b = false ->
  b <> EmptyString ->
  String.prefix nl b = false ->
  String.prefix nl rest = false ->
  Llama3.chat_formatter B self
    [a ++ Llama3.blank_line ++ b ++ Llama3.blank_line ++ rest] =
  Done [Llama3.apply_chat_template B
          [{| Llama3.role := "system";
              Llama3.content := Llama3._instruct ++ nl ++ a |};
           {| Llama3.role := "user"; Llama3.content := b |}]].
Proof.
  intros Hm Ha Hb Hne Hstartb Hrest.
  unfold Llama3.chat_formatter, traverse, Llama3.format_prompt.
  apply String.eqb_neq in Hm. rewrite Hm.
  change (nl ++ nl) with Llama3.blank_line. unfold rsplit_on.
  assert (Hstart : String.prefix nl (b ++ Llama3.blank_line ++ rest) = false).
  { destruct b as [|c b]; [now contradiction Hne|].
    rewrite nl_prefix_cons in Hstartb.
    change (String c b ++ Llama3.blank_line ++ rest)
      with (String c (b ++ Llama3.blank_line ++ rest)).
    now rewrite nl_prefix_cons. }
  rewrite (rsplit_first_piece a _ Ha Hstart). unfold rsplit_on.
  rewrite (rsplit_first_piece b _ Hb Hrest). reflexivity.
Qed.

Lemma chat_formatter_keeps_two_pieces_example :
  let B := {| Llama3.apply_chat_template :=
                fun ms => String.concat "|" (map Llama3.content ms);
              Llama3.generate_and_decode := fun _ p => (p, []) |} in
  let self := {| Llama3.mode := "afg"; Llama3.model_name := "m";
                 Llama3.model_dir := None; Llama3.cache_file := None |} in
  let demo := "Sentence one." ++ nl ++ "- fact" ++ nl in
  let task := "Sentence two." ++ nl ++ "- fact" in
  Llama3.chat_formatter B self
    [demo ++ Llama3.blank_line ++ task ++ Llama3.blank_line ++ "more"] =
  Llama3.chat_formatter B self [demo ++ Llama3.blank_line ++ task].
Proof.
  intros B self demo task.
  rewrite (chat_formatter_keeps_two_pieces B self demo task "more");
    reflexivity || discriminate.
Defined.

(* ================================================================== *)
(** ** [Llama3LM]: generation *)

Section Generate.
Local Open Scope script_scope.

Variable B : Llama3.Backend.
Variable self : Llama3.Llama3LM.
Variables end_if_newline end_if_second_newline : bool.

Lemma generate_loop_cons (prompt : string) (rest : list string) (i : nat)
    (generations : list string) (scores : list (list Q)) :
  Llama3.generate_loop B self end_if_newline end_if_second_newline
                       (prompt :: rest) i generations scores =
  if startswith "llama-sni" (Llama3.model_name self) then Failed NameError
  else Llama3.generate_loop B self end_if_newline end_if_second_newline rest
         (S i)
         (generations
          ++ [Llama3.truncate end_if_newline end_if_second_newline
                (fst (Llama3.generate_and_decode B i prompt))])%list
         (scores ++ [snd (Llama3.generate_and_decode B i prompt)])%list.
Proof.
  simpl. now destruct (Llama3.generate_and_decode B i prompt).
Qed.

Lemma generate_loop_Done (prompts : list string) :
  forall i generations scores gens scs,
    Llama3.generate_loop B self end_if_newline end_if_second_newline
                         prompts i generations scores = Done (gens, scs) ->
    exists new news,
      gens = (generations ++ new)%list /\ scs = (scores ++ news)%list /\
      length new = length prompts /\ length news = length prompts /\
      Forall (fun gen =>
                exists text,
                  gen = Llama3.truncate end_if_newline end_if_second_newline
                                        text) new.
Proof.
  induction prompts as [|p rest IH]; intros i generations scores gens scs H.
  - simpl in H. inversion H; subst. exists [], []. rewrite !app_nil_r.
    repeat split; constructor.
  - rewrite generate_loop_cons in H.
    destruct (startswith "llama-sni" (Llama3.model_name self)); [discriminate|].
    destruct (IH _ _ _ _ _ H) as [new [news [-> [-> [Hn [Hs Hall]]]]]].
    eexists (_ :: new), (_ :: news). rewrite <- !app_assoc. simpl.
    split; [reflexivity|]. split; [reflexivity|].
    split; [now rewrite Hn|]. split; [now rewrite Hs|].
    constructor; [now eexists | exact Hall].
Qed.

Lemma generate_loop_Failed (prompts : list string) :
  forall i generations scores e,
    Llama3.generate_loop B self end_if_newline end_if_second_newline
                         prompts i generations scores = Failed e ->
    e = NameError /\
    startswith "llama-sni" (Llama3.model_name self) = true /\ prompts <> [].
Proof.
  induction prompts as [|p rest IH]; intros i generations scores e H;
    [discriminate|].
  rewrite generate_loop_cons in H.
  destruct (startswith "llama-sni" (Llama3.model_name self)) eqn:E.
  - inversion H. repeat split. discriminate.
  - destruct (IH _ _ _ _ H) as [_ [Hcontra _]]. discriminate.
Qed.

Lemma generate_loop_total (prompts : list string) :
  startswith "llama-sni" (Llama3.model_name self) = false ->
  forall i generations scores,
    exists r,
      Llama3.generate_loop B self end_if_newline end_if_second_newline
                           prompts i generations scores = Done r.
Proof.
  intros Hname. induction prompts as [|p rest IH]; intros i generations scores.
  - now eexists.
  - rewrite generate_loop_cons, Hname. apply IH.
Qed.

(** The outcomes of [_generate], once the prompts are formatted. *)
Lemma _generate_after_format (prompts : str_or_list) (formatted : list string) :
  Llama3.chat_formatter B self (Llama3.prompt_list prompts) = Done formatted ->
  (startswith "llama-sni" (Llama3.model_name self) = true /\
   Llama3.prompt_list prompts <> [] /\
   Llama3._generate B self prompts end_if_newline end_if_second_newline =
     Failed NameError) \/
  (exists gens scs,
      length gens = length (Llama3.prompt_list prompts) /\
      length scs = length (Llama3.prompt_list prompts) /\
      Forall (fun gen =>
                exists text,
                  gen = Llama3.truncate end_if_newline end_if_second_newline
                                        text) gens /\
      match prompts with
      | PStr _ =>
          exists gen gen_scores,
            gens = [gen] /\ scs = [gen_scores] /\
            Llama3._generate B self prompts end_if_newline
                             end_if_second_newline =
              Done (inl (gen, gen_scores))
      | PList _ =>
          Llama3._generate B self prompts end_if_newline
                           end_if_second_newline = Done (inr (gens, scs))
      end).
Proof.
  intros Hfmt.
  assert (Hlen : length formatted = length (Llama3.prompt_list prompts)).
  { apply traverse_Done_inv in Hfmt. symmetry. exact (Forall2_length Hfmt). }
  assert (Hunfold :
    Llama3._generate B self prompts end_if_newline end_if_second_newline =
    (r <~ Llama3.generate_loop B self end_if_newline end_if_second_newline
                               formatted 0 [] [] ;;
     let (generations, scores) := r in
     if negb ((length generations =? length formatted)%nat
              && (length formatted =? length scores)%nat)
     then Failed (Exn AssertionError)
     else if match prompts with PStr _ => true | PList _ => false end then
       match generations, scores with
       | gen :: _, gen_scores :: _ => Done (inl (gen, gen_scores))
       | _, _ => Failed (Exn IndexError)
       end
     else Done (inr (generations, scores)))).
  { unfold Llama3._generate. unfold Llama3.prompt_list in Hfmt.
    destruct prompts; rewrite Hfmt; reflexivity. }
  destruct (Llama3.generate_loop B self end_if_newline end_if_second_newline
                                 formatted 0 [] []) as [[gens scs]|e] eqn:Hloop.
  - right. destruct (generate_loop_Done _ _ _ _ _ _ Hloop)
      as [new [news [Hg [Hs [Hn [Hns Hall]]]]]].
    simpl in Hg, Hs. subst new news. exists gens, scs.
    split; [congruence|]. split; [congruence|]. split; [exact Hall|].
    rewrite Hunfold. simpl.
    assert (E1 : (length gens =? length formatted)%nat = true)
      by (apply Nat.eqb_eq; congruence).
    assert (E2 : (length formatted =? length scs)%nat = true)
      by (apply Nat.eqb_eq; congruence).
    rewrite E1, E2. simpl. destruct prompts as [p|l]; [|reflexivity].
    simpl in Hlen. rewrite Hlen in Hn, Hns.
    destruct gens as [|gen [|]]; try discriminate.
    destruct scs as [|gen_scores [|]]; try discriminate.
    now exists gen, gen_scores.
  - left. destruct (generate_loop_Failed _ _ _ _ _ Hloop) as [-> [Hname Hne]].
    split; [exact Hname|]. split.
    + intros Hnil. rewrite Hnil in Hlen. destruct formatted; [|discriminate].
      now contradiction Hne.
    + rewrite Hunfold. reflexivity.
Qed.

Lemma _generate_format_fails (prompts : str_or_list) (e : error) :
  Llama3.chat_formatter B self (Llama3.prompt_list prompts) = Failed e ->
  Llama3._generate B self prompts end_if_newline end_if_second_newline =
    Failed e.
Proof.
  intros H. unfold Llama3._generate. unfold Llama3.prompt_list in H.
  destruct prompts; now rewrite H.
Qed.

End Generate.

(** X27: [_generate] fails in two ways only: with the IndexError of
    [chat_formatter], outside the verification mode for a prompt without a
    blank line; and with NameError, for a model name that starts with
    "llama-sni" as soon as there is a prompt, the branch for these names
    reading a variable that is never assigned. Its length assertion never
    fails. *)
Theorem _generate_failures (B : Llama3.Backend) (self : Llama3.Llama3LM)
    (prompts : str_or_list) (end_if_newline end_if_second_newline : bool)
    (e : error) :
  Llama3._generate B self prompts end_if_newline end_if_second_newline =
    Failed e ->
  (e = Exn IndexError /\ Llama3.mode self <> "afv" /\
   exists p, In p (Llama3.prompt_list prompts) /\
             contains Llama3.blank_line p = false) \/
  (e = NameError /\
   startswith "llama-sni" (Llama3.model_name self) = true /\
   Llama3.prompt_list prompts <> []).
Proof.
  intros H.
  destruct (Llama3.chat_formatter B self (Llama3.prompt_list prompts))
    as [formatted|e'] eqn:Hfmt.
  - right.
    destruct (_generate_after_format B self end_if_newline
                end_if_second_newline prompts formatted Hfmt)
      as [[Hname [Hne Hfail]] | [gens [scs [_ [_ [_ Hok]]]]]].
    + rewrite Hfail in H. inversion H. now repeat split.
    + destruct prompts.
      * destruct Hok as [gen [sc [_ [_ Hok]]]]. congruence.
      * congruence.
  - left.
    rewrite (_generate_format_fails B self end_if_newline
               end_if_second_newline prompts e' Hfmt) in H.
    inversion H; subst e'. unfold Llama3.chat_formatter in Hfmt.
    destruct (traverse_Failed_inv _ _ _ Hfmt) as [p [Hin Hp]].
    destruct (format_prompt_fails B self p e Hp) as [He [Hm Hc]].
    split; [exact He|]. split; [exact Hm|]. now exists p.
Qed.

Lemma _generate_failures_example :
  let B := {| Llama3.apply_chat_template :=
                fun ms => String.concat "|" (map Llama3.content ms);
              Llama3.generate_and_decode := fun _ p => (p, []) |} in
  let self := {| Llama3.mode := "afv"; Llama3.model_name := "llama-sni-7B";
                 Llama3.model_dir := None; Llama3.cache_file := None |} in
  Llama3._generate B self (PStr "The sky is blue.") true false =
    Failed NameError /\
  startswith "llama-sni" (Llama3.model_name self) = true.
Proof.
  intros B self.
  assert (E : Llama3._generate B self (PStr "The sky is blue.") true false =
              Failed NameError) by (vm_compute; reflexivity).
  split; [exact E|].
  destruct (_generate_failures B self _ _ _ _ E)
    as [[He _] | [_ [Hname _]]]; [discriminate He | exact Hname].
Defined.

Lemma _generate_total (B : Llama3.Backend) (self : Llama3.Llama3LM)
    (prompts : str_or_list) (end_if_newline end_if_second_newline : bool) :
  startswith "llama-sni" (Llama3.model_name self) = false ->
  Llama3.mode self = "afv" \/
  Forall (fun p => contains Llama3.blank_line p = true)
         (Llama3.prompt_list prompts) ->
  match prompts with
  | PStr _ =>
      exists gen gen_scores,
        Llama3._generate B self prompts end_if_newline end_if_second_newline =
          Done (inl (gen, gen_scores))
  | PList l =>
      exists gens scs,
        Llama3._generate B self prompts end_if_newline end_if_second_newline =
          Done (inr (gens, scs)) /\
        length gens = length l /\ length scs = length l
  end.
Proof.
  intros Hname Hmode.
  destruct (proj1 (chat_formatter_needs_blank_line_helper B self
                     (Llama3.prompt_list prompts)) Hmode)
    as [formatted [Hfmt _]].
  destruct (_generate_after_format B self end_if_newline
              end_if_second_newline prompts formatted Hfmt)
    as [[Hcontra _] | [gens [scs [Hg [Hs [_ Hok]]]]]]; [congruence|].
  destruct prompts as [p|l].
  - destruct Hok as [gen [sc [_ [_ Hok]]]]. now exists gen, sc.
  - exists gens, scs. now repeat split.
Qed.

(** X28: for a model name that does not start with "llama-sni", [_generate]
    returns in the verification mode, and in the other mode when every prompt
    contains a blank line: for a single prompt one text with its scores, for
    a list of prompts as many texts and as many scores as prompts. *)
Theorem _generate_returns (B : Llama3.Backend) (self : Llama3.Llama3LM)
    (prompts : str_or_list) (end_if_newline end_if_second_newline : bool) :
  startswith "llama-sni" (Llama3.model_name self) = false ->
  Llama3.mode self = "afv" \/
  Forall (fun p => contains Llama3.blank_line p = true)
         (Llama3.prompt_list prompts) ->
  match prompts with
  | PStr _ =>
      exists gen gen_scores,
        Llama3._generate B self prompts end_if_newline end_if_second_newline =
          Done (inl (gen, gen_scores))
  | PList l =>
      exists gens scs,
        Llama3._generate B self prompts end_if_newline end_if_second_newline =
          Done (inr (gens, scs)) /\
        length gens = length l /\ length scs = length l
  end.
Proof.
  apply _generate_total.
Qed.

Lemma _generate_returns_example :
  let B := {| Llama3.apply_chat_template :=
                fun ms => String.concat "|" (map Llama3.content ms);
              Llama3.generate_and_decode := fun _ p => (p, []) |} in
  let self := {| Llama3.mode := "afv";
                 Llama3.model_name := "meta-llama/Llama-3.1-8B-Instruct";
                 Llama3.model_dir := None; Llama3.cache_file := None |} in
  startswith "llama-sni" (Llama3.model_name self) = false /\
  exists gens scs,
    Llama3._generate B self (PList ["The sky is blue."; "The sea is red."])
                     true false = Done (inr (gens, scs)) /\
    length gens = 2%nat /\ length scs = 2%nat.
Proof.
  intros B self. split; [reflexivity|].
  apply (_generate_returns B self
           (PList ["The sky is blue."; "The sea is red."]) true false);
    [reflexivity | left; reflexivity].
Defined.

(** X29: the verifier that [FactScorer.__init__] builds for a model name
    with "Llama-3.1", a [Llama3LM] named "meta-llama/" followed by the
    verification model and left in the default mode, is accepted by
    [Llama3LM.__init__], and its [_generate] never fails, whatever the
    prompts and the flags. *)
Theorem factscorer_verifier_generates (B : Llama3.Backend)
    (afv_model cache : string) (prompts : str_or_list)
    (end_if_newline end_if_second_newline : bool) :
  exists self r,
    Llama3.verifier afv_model cache = Done self /\
    Llama3._generate B self prompts end_if_newline end_if_second_newline =
      Done r.
Proof.
  eexists. unfold Llama3.verifier, Llama3.__init__.
  change (negb (String.eqb "afv" "afv" || String.eqb "afv" "afg")) with false.
  cbv iota.
  match goal with
  | |- exists r, Done ?x = Done _ /\ _ =>
      assert (H := _generate_total B x prompts end_if_newline
                     end_if_second_newline eq_refl (or_introl eq_refl))
  end.
  destruct prompts as [p|l].
  - destruct H as [gen [sc H]]. eexists. split; [reflexivity | exact H].
  - destruct H as [gens [scs [H _]]]. eexists. split; [reflexivity | exact H].
Qed.

Section FirstLine.

Lemma split_on_from_cons (sep : string) (c : ascii) (s : string) :
  split_on_from 0 sep (String c s) =
  if String.prefix sep (String c s)
  then let (p, ps) := split_on_from (String.length sep - 1) sep s in
       (EmptyString, p :: ps)
  else let (p, ps) := split_on_from 0 sep s in (String c p, ps).
Proof.
  reflexivity.
Qed.

Lemma first_line_no_newline (s : string) :
  contains nl (hd EmptyString (split_on nl s)) = false.
Proof.
  assert (H : contains nl (fst (split_on_from 0 nl s)) = false).
  { induction s as [|c s IH]; [reflexivity|].
    rewrite split_on_from_cons, nl_prefix_cons.
    destruct (ascii_dec (chr 10) c) as [Hc | Hc].
    - now destruct (split_on_from (String.length nl - 1) nl s).
    - destruct (split_on_from 0 nl s) as [p ps]. simpl in IH |- *.
      rewrite contains_nl_cons, IH.
      now destruct (ascii_dec (chr 10) c). }
  unfold split_on. now destruct (split_on_from 0 nl s).
Qed.

Lemma lstrip_no_newline (s : string) :
  contains nl s = false -> contains nl (lstrip s) = false.
Proof.
  induction s as [|c s IH]; intros H; [reflexivity|].
  simpl. destruct (isspace c); [|exact H].
  rewrite contains_nl_cons in H. apply orb_false_elim in H. now apply IH.
Qed.

Lemma rstrip_no_newline (s : string) :
  contains nl s = false -> contains nl (rstrip s) = false.
Proof.
  induction s as [|c s IH]; intros H; [reflexivity|].
  rewrite contains_nl_cons in H. apply orb_false_elim in H.
  destruct H as [Hc Hs]. specialize (IH Hs). simpl.
  destruct (rstrip s) as [|d r].
  - destruct (isspace c); [reflexivity|]. now rewrite contains_nl_cons, Hc.
  - now rewrite contains_nl_cons, Hc, IH.
Qed.

Lemma first_line_clean (text : string) :
  Llama3.one_clean_line (Llama3.truncate true false text) /\
  Llama3.one_clean_line (Llama3.truncate true true text).
Proof.
  assert (H : Llama3.one_clean_line
                (strip (hd EmptyString (split_on nl text)))).
  { split; [|apply strip_idempotent]. unfold strip.
    apply rstrip_no_newline, lstrip_no_newline, first_line_no_newline. }
  split; exact H.
Qed.

Lemma generate_loop_first_flag (B : Llama3.Backend) (self : Llama3.Llama3LM)
    (flag : bool) (prompts : list string) :
  forall i generations scores,
    Llama3.generate_loop B self true flag prompts i generations scores =
    Llama3.generate_loop B self true false prompts i generations scores.
Proof.
  induction prompts as [|p rest IH]; intros i generations scores;
    [reflexivity|].
  rewrite !generate_loop_cons.
  destruct (startswith "llama-sni" (Llama3.model_name self)); [reflexivity|].
  apply IH.
Qed.

Lemma _generate_first_flag (B : Llama3.Backend) (self : Llama3.Llama3LM)
    (flag : bool) (prompts : str_or_list) :
  Llama3._generate B self prompts true flag =
  Llama3._generate B self prompts true false.
Proof.
  unfold Llama3._generate.
  destruct (Llama3.chat_formatter B self
              match prompts with PStr p => [p] | PList l => l end);
    [|reflexivity].
  simpl. now rewrite generate_loop_first_flag.
Qed.

End FirstLine.

(** X30: with [end_if_newline], every text that [_generate] returns is one
    clean line: it contains no newline and has no white space at its ends;
    [end_if_second_newline] is then ignored. *)
Theorem end_if_newline_keeps_one_line (B : Llama3.Backend)
    (self : Llama3.Llama3LM) (prompts : str_or_list)
    (end_if_second_newline : bool)
    (r : string * list Q + list string * list (list Q)) :
  Llama3._generate B self prompts true end_if_second_newline = Done r ->
  Llama3._generate B self prompts true false = Done r /\
  match r with
  | inl (gen, _) => Llama3.one_clean_line gen
  | inr (gens, _) => Forall Llama3.one_clean_line gens
  end.
Proof.
  intros H. split; [now rewrite <- (_generate_first_flag B self
                                     end_if_second_newline)|].
  destruct (Llama3.chat_formatter B self (Llama3.prompt_list prompts))
    as [formatted|e] eqn:Hfmt.
  - destruct (_generate_after_format B self true end_if_second_newline
                prompts formatted Hfmt)
      as [[_ [_ Hfail]] | [gens [scs [_ [_ [Hall Hok]]]]]]; [congruence|].
    assert (Hclean : Forall Llama3.one_clean_line gens).
    { apply Forall_forall. intros gen Hin. rewrite Forall_forall in Hall.
      destruct (Hall gen Hin) as [text ->].
      destruct end_if_second_newline; apply first_line_clean. }
    destruct prompts as [p|l].
    + destruct Hok as [gen [sc [-> [_ Hok]]]]. rewrite Hok in H.
      inversion H; subst r. now inversion Hclean.
    + rewrite Hok in H. inversion H; subst r. exact Hclean.
  - rewrite (_generate_format_fails B self true end_if_second_newline
               prompts e Hfmt) in H. discriminate.
Qed.

Lemma end_if_newline_keeps_one_line_example :
  let B := {| Llama3.apply_chat_template :=
                fun ms => String.concat "|" (map Llama3.content ms);
              Llama3.generate_and_decode :=
                fun _ p => (" True" ++ nl ++ "because it is.", []) |} in
  let self := {| Llama3.mode := "afv";
                 Llama3.model_name := "meta-llama/Llama-3.1-8B-Instruct";
                 Llama3.model_dir := None; Llama3.cache_file := None |} in
  Llama3._generate B self (PStr "The sky is blue.") true true =
    Done (inl ("True", [])) /\
  Llama3.one_clean_line "True".
Proof.
  intros B self.
  assert (E : Llama3._generate B self (PStr "The sky is blue.") true true =
              Done (inl ("True", []))) by (vm_compute; reflexivity).
  split; [exact E|].
  exact (proj2 (end_if_newline_keeps_one_line B self _ _ _ E)).
Defined.

(* ================================================================== *)
(** ** The penalty as computed *)

Section Rounding.
Local Open Scope R_scope.

Lemma nearest_even_small (r : R) :
  0 <= r < 1 / 2 -> Binary64.nearest_even r = 0%Z.
Proof.
  intros Hr. unfold Binary64.nearest_even.
  assert (H0 : Int_part r = 0%Z).
  { symmetry. apply Int_part_spec. simpl. lra. }
  rewrite H0. simpl IZR.
  destruct (Rlt_dec (r - 0) (1 / 2)) as [_ | Hn]; [reflexivity | lra].
Qed.

Lemma nearest_even_integer (k : Z) : Binary64.nearest_even (IZR k) = k.
Proof.
  unfold Binary64.nearest_even.
  assert (H0 : Int_part (IZR k) = k).
  { symmetry. apply Int_part_spec. lra. }
  rewrite H0.
  destruct (Rlt_dec (IZR k - IZR k) (1 / 2)) as [_ | Hn]; [reflexivity | lra].
Qed.

Lemma ln_2_pos : 0 < ln 2.
Proof.
  pose proof ln_lt_2. lra.
Qed.

(** ln 2 < 0.744, from exp(0.093)^8 > 1.093^8 > 2. *)
Lemma ln_2_upper : ln 2 < 744 / 1000.
Proof.
  apply exp_lt_inv. rewrite (exp_ln 2) by lra.
  assert (H1 : 1093 / 1000 < exp (93 / 1000))
    by (pose proof (exp_ineq1 (93 / 1000) ltac:(lra)); lra).
  replace (744 / 1000) with
    ((93 / 1000 + 93 / 1000) + (93 / 1000 + 93 / 1000)
     + ((93 / 1000 + 93 / 1000) + (93 / 1000 + 93 / 1000))) by lra.
  rewrite !exp_plus.
  set (e := exp (93 / 1000)) in *.
  assert (H2 : 1194 / 1000 < e * e) by nra.
  assert (H4 : 1425 / 1000 < e * e * (e * e)) by nra.
  nra.
Qed.

Lemma powerRZ_2_exp (z : Z) : powerRZ 2 z = exp (IZR z * ln 2).
Proof.
  rewrite powerRZ_Rpower by lra. reflexivity.
Qed.

Lemma ilog2_spec (x : R) (e : Z) :
  powerRZ 2 e <= x < powerRZ 2 (e + 1) -> Binary64.ilog2 x = e.
Proof.
  intros [Hlo Hhi]. unfold Binary64.ilog2. symmetry. apply Int_part_spec.
  pose proof ln_2_pos as Hln.
  assert (Hx : 0 < x).
  { apply Rlt_le_trans with (powerRZ 2 e); [apply powerRZ_lt; lra | exact Hlo]. }
  assert (H1 : IZR e * ln 2 <= ln x).
  { destruct Hlo as [Hlt | Heq].
    - left. rewrite <- (ln_exp (IZR e * ln 2)), <- powerRZ_2_exp.
      apply ln_increasing; [apply powerRZ_lt; lra | exact Hlt].
    - right. now rewrite <- Heq, powerRZ_2_exp, ln_exp. }
  assert (H2 : ln x < IZR (e + 1) * ln 2).
  { rewrite <- (ln_exp (IZR (e + 1) * ln 2)), <- powerRZ_2_exp.
    now apply ln_increasing. }
  rewrite plus_IZR in H2.
  assert (H3 : IZR e <= ln x / ln 2).
  { apply Rmult_le_reg_r with (ln 2); [exact Hln|].
    unfold Rdiv. rewrite Rmult_assoc, Rinv_l by lra. lra. }
  assert (H4 : ln x / ln 2 < IZR e + 1).
  { apply Rmult_lt_reg_r with (ln 2); [exact Hln|].
    unfold Rdiv. rewrite Rmult_assoc, Rinv_l by lra. lra. }
  lra.
Qed.

Lemma IZR_pow2 (k : Z) : (0 <= k)%Z -> IZR (2 ^ k) = powerRZ 2 k.
Proof.
  intros Hk. rewrite <- (Z2Nat.id k Hk), <- pow_IZR, pow_powerRZ.
  reflexivity.
Qed.

(** The integers below 2^53 are binary64 numbers. *)
Lemma round_pos_integer (n : Z) :
  (0 < n < 2 ^ 53)%Z -> Binary64.round_pos (IZR n) = IZR n.
Proof.
  intros Hn. unfold Binary64.round_pos.
  assert (He : Binary64.ilog2 (IZR n) = Z.log2 n).
  { apply ilog2_spec. destruct (Z.log2_spec n ltac:(lia)) as [Hlo Hhi].
    pose proof (Z.log2_nonneg n) as H0.
    rewrite <- !IZR_pow2 by lia. split; [now apply IZR_le|].
    apply IZR_lt. now rewrite <- Z.add_1_r in Hhi. }
  rewrite He.
  assert (Hlog : (0 <= Z.log2 n < 53)%Z).
  { split; [apply Z.log2_nonneg|]. apply Z.log2_lt_pow2; lia. }
  rewrite Z.max_l by lia.
  replace (- (Z.log2 n - 52))%Z with (52 - Z.log2 n)%Z by lia.
  rewrite <- IZR_pow2 by lia. rewrite <- mult_IZR, nearest_even_integer.
  rewrite mult_IZR, IZR_pow2 by lia. rewrite Rmult_assoc, <- powerRZ_add by lra.
  replace (52 - Z.log2 n + (Z.log2 n - 52))%Z with 0%Z by lia.
  simpl. lra.
Qed.

Lemma round_integer (n : Z) :
  (Z.abs n < 2 ^ 53)%Z -> Binary64.round (IZR n) = IZR n.
Proof.
  intros Hn. unfold Binary64.round.
  destruct (Rlt_dec (IZR n) 0) as [Hneg | Hpos].
  - apply lt_IZR in Hneg. rewrite <- opp_IZR, round_pos_integer by lia.
    rewrite opp_IZR. lra.
  - destruct (Z.eq_dec n 0) as [-> | Hne].
    + unfold Binary64.round_pos. rewrite Rmult_0_l, nearest_even_integer. lra.
    + apply round_pos_integer. apply Rnot_lt_le in Hpos. apply le_IZR in Hpos.
      lia.
Qed.

(** Below 2^-1075 the exponential rounds to zero. *)
Lemma np_exp_underflow (y : R) : y <= -800 -> Binary64.np_exp y = 0.
Proof.
  intros Hy. unfold Binary64.np_exp, Binary64.round.
  pose proof (exp_pos y) as Hpos.
  destruct (Rlt_dec (exp y) 0) as [Hneg | _]; [lra|].
  unfold Binary64.round_pos, Binary64.ilog2. rewrite ln_exp.
  pose proof ln_2_pos as Hln. pose proof ln_2_upper as Hup.
  assert (Hq : y / ln 2 < -1075).
  { apply Rmult_lt_reg_r with (ln 2); [exact Hln|].
    unfold Rdiv. rewrite Rmult_assoc, Rinv_l by lra. nra. }
  assert (He : (Int_part (y / ln 2) <= -1075)%Z).
  { apply le_IZR. destruct (base_Int_part (y / ln 2)) as [Hb _]. lra. }
  rewrite Z.max_r by lia.
  assert (Hsmall : exp y * powerRZ 2 (- -1074) < 1 / 2).
  { assert (Hlt : exp y < powerRZ 2 (-1075)).
    { rewrite powerRZ_2_exp. apply exp_increasing. nra. }
    assert (Hp : 0 < powerRZ 2 (- -1074)) by (apply powerRZ_lt; lra).
    apply Rlt_le_trans with (powerRZ 2 (-1075) * powerRZ 2 (- -1074)).
    - now apply Rmult_lt_compat_r.
    - rewrite <- powerRZ_add by lra. simpl. lra. }
  rewrite nearest_even_small; [simpl; lra|].
  split; [|exact Hsmall].
  apply Rmult_le_pos; [lra | apply powerRZ_le; lra].
Qed.

End Rounding.

Section ComputedPenalty.
Local Open Scope R_scope.

Lemma true_divide_integer (a q : Z) (b : nat) :
  (1 <= b)%nat -> a = (q * Z.of_nat b)%Z -> (Z.abs q < 2 ^ 53)%Z ->
  Binary64.true_divide a b = Done (IZR q).
Proof.
  intros Hb Ha Hq. unfold Binary64.true_divide.
  destruct b as [|b]; [lia|].
  assert (Hno : (Binary64.overflow_threshold * Z.of_nat (S b) <=? Z.abs a)%Z
                = false).
  { apply Z.leb_gt. subst a. rewrite Z.abs_mul.
    rewrite (Z.abs_eq (Z.of_nat (S b))) by lia.
    apply Z.mul_lt_mono_pos_r; [lia|].
    apply Z.lt_trans with (2 ^ 53)%Z; [exact Hq|].
    unfold Binary64.overflow_threshold.
    assert (H970 : (2 ^ 53 < 2 ^ 970)%Z) by (apply Z.pow_lt_mono_r; lia).
    assert (H1024 : (2 ^ 1024 = 2 ^ 54 * 2 ^ 970)%Z)
      by (rewrite <- Z.pow_add_r by lia; reflexivity).
    assert (H54 : (2 ^ 54 = 18014398509481984)%Z) by reflexivity.
    nia. }
  rewrite Hno. f_equal.
  assert (Hdiv : IZR a / INR (S b) = IZR q).
  { subst a. rewrite mult_IZR, <- INR_IZR_INZ. field.
    apply not_0_INR. lia. }
  rewrite Hdiv. now apply round_integer.
Qed.

Lemma penalty_binary64_exceeds (gamma : Z) (c : nat) :
  (gamma < Z.of_nat c)%Z -> penalty_binary64 gamma c = Done 1.
Proof.
  intros H. unfold penalty_binary64. apply Z.ltb_lt in H. now rewrite H.
Qed.

Lemma penalty_binary64_within (gamma : Z) (c : nat) :
  (1 <= c)%nat -> (Z.of_nat c <= gamma)%Z ->
  (gamma < Binary64.overflow_threshold * Z.of_nat c)%Z ->
  penalty_binary64 gamma c =
  Done (Binary64.np_exp
          (Binary64.round (1 - Binary64.round (IZR gamma / INR c)))).
Proof.
  intros Hc Hle Hlt. unfold penalty_binary64, Binary64.true_divide.
  assert (H1 : (gamma <? Z.of_nat c)%Z = false) by (apply Z.ltb_ge; lia).
  rewrite H1. destruct c as [|c]; [lia|].
  assert (H2 : (Binary64.overflow_threshold * Z.of_nat (S c) <=? Z.abs gamma)%Z
               = false) by (apply Z.leb_gt; lia).
  now rewrite H2.
Qed.

Lemma penalty_binary64_overflow (gamma : Z) (c : nat) :
  (1 <= c)%nat ->
  (Binary64.overflow_threshold * Z.of_nat c <= gamma)%Z ->
  penalty_binary64 gamma c = Failed OverflowError.
Proof.
  intros Hc Hge. unfold penalty_binary64, Binary64.true_divide.
  assert (Hpos : (0 < Binary64.overflow_threshold)%Z).
  { unfold Binary64.overflow_threshold.
    assert (H : (2 ^ 970 < 2 ^ 1024)%Z) by (apply Z.pow_lt_mono_r; lia). lia. }
  assert (H1 : (gamma <? Z.of_nat c)%Z = false) by (apply Z.ltb_ge; nia).
  rewrite H1. destruct c as [|c]; [lia|].
  assert (H2 : (Binary64.overflow_threshold * Z.of_nat (S c) <=? Z.abs gamma)%Z
               = true) by (apply Z.leb_le; lia).
  now rewrite H2.
Qed.

Lemma exact_penalty_increasing (gamma : Z) (c c2 : nat) :
  (0 < gamma)%Z -> (1 <= c)%nat -> (c < c2)%nat ->
  exp (1 - IZR gamma / INR c) < exp (1 - IZR gamma / INR c2).
Proof.
  intros Hg Hc Hlt. apply exp_increasing.
  assert (H0c : 0 < INR c) by (apply lt_0_INR; lia).
  assert (Hcc : INR c < INR c2) by (now apply lt_INR).
  assert (HG : 0 < IZR gamma) by (now apply IZR_lt).
  assert (Hinv : / INR c2 < / INR c).
  { apply Rinv_lt_contravar; [|exact Hcc]. apply Rmult_lt_0_compat; lra. }
  unfold Rdiv.
  assert (IZR gamma * / INR c2 < IZR gamma * / INR c)
    by (now apply Rmult_lt_compat_l).
  lra.
Qed.

(** The penalty of gamma = 2000 for one and for two facts. *)
Lemma penalty_binary64_2000 :
  penalty_binary64 2000 1 = Done 0 /\ penalty_binary64 2000 2 = Done 0.
Proof.
  unfold penalty_binary64.
  rewrite (true_divide_integer 2000 2000 1) by (reflexivity || lia).
  rewrite (true_divide_integer 2000 1000 2) by (reflexivity || lia).
  change ((2000 <? Z.of_nat 1)%Z) with false.
  change ((2000 <? Z.of_nat 2)%Z) with false. cbv iota. cbn [and_then].
  replace (1 - IZR 2000) with (IZR (-1999)) by (simpl; lra).
  replace (1 - IZR 1000) with (IZR (-999)) by (simpl; lra).
  rewrite !round_integer by (simpl; lia).
  split; f_equal; apply np_exp_underflow; lra.
Qed.

End ComputedPenalty.



